(** * 3cx-prompt-finder: the usage resolver of [main.py]

    A shallow embedding of [gather_prompt_usages] (main.py, lines 19-89) and
    of the cache/live dispatch of [main] (lines 195-207), together with the
    properties the specification states about them.

    The documents the program works on come out of [orjson.loads], so the
    values are JSON values seen as Python objects: [None], [bool], [int],
    [float], [str], [list] and [dict] (string keys, insertion ordered). *)

From Stdlib Require Import SpecFloat Ascii.
From stdpp Require Import gmap strings list fin_maps pretty sorting.

Open Scope string_scope.
Open Scope list_scope.
Set Warnings "-register-all,-notation-for-abbreviation".

(** ** Python values *)

(** A [dict] is kept as an association list: [dict.items()] enumerates in
    insertion order, and that order is visible in the usage lists.  The keys
    of a dict are distinct; nothing below depends on it, a lookup takes the
    first binding.  A Python
    [str] is a sequence of code points; it is kept here as its UTF-8 bytes,
    which preserves emptiness, equality and concatenation, the only
    operations the resolver applies to strings. *)
Inductive json : Type :=
  | JNull
  | JBool (b : bool)
  | JInt (z : Z)
  | JFloat (f : spec_float)
  | JStr (s : string)
  | JList (l : list json)
  | JDict (kvs : list (string * json)).

(** The exceptions of a run.  [OutsideModel] is no Python exception: it
    marks the places where a run would leave the fragment that is modelled
    (a prompt whose display name is a number or a boolean, see
    [display_names]; on the heap, an argument that is not the set the
    signature announces, or a reference to no object). *)
Inductive exn : Type :=
  | TypeError
  | AttributeError
  | KeyError
  | OSError
  | JSONDecodeError
  | HTTPError
  | OutsideModel.

Inductive result (A : Type) : Type :=
  | Ok (a : A)
  | Raise (e : exn).
Arguments Ok {A} a.
Arguments Raise {A} e.

(** [str()] of a float or of a container is Python's own formatting, which
    is not part of this repository; it is left to an instance. *)
Class PyRepr := py_repr : json → string.

(** ** Primitive operations on Python values *)

(** [bool(v)]: the truth value Python's [and], [or] and [if] test. *)
Definition truthy (v : json) : bool :=
  match v with
  | JNull => false
  | JBool b => b
  | JInt z => negb (z =? 0)%Z
  | JFloat (S754_zero _) => false
  | JFloat _ => true
  | JStr s => negb (String.eqb s "")
  | JList l => negb (Nat.eqb (length l) 0)
  | JDict kvs => negb (Nat.eqb (length kvs) 0)
  end.

(** [a or b] where [b] has no effect. *)
Definition py_or (a b : json) : json := if truthy a then a else b.

(** [d[k]] lookup on the association list: the first binding of [k]. *)
Fixpoint assoc {V} (k : string) (kvs : list (string * V)) : option V :=
  match kvs with
  | [] => None
  | (k', v) :: rest => if String.eqb k k' then Some v else assoc k rest
  end.

(** [obj.get(key, default)]: only a [dict] has the method. *)
Definition py_get (obj : json) (key : string) (dflt : json) : result json :=
  match obj with
  | JDict kvs => Ok (default dflt (assoc key kvs))
  | _ => Raise AttributeError
  end.

(** [obj.items()]. *)
Definition py_items (obj : json) : result (list (string * json)) :=
  match obj with
  | JDict kvs => Ok kvs
  | _ => Raise AttributeError
  end.

Fixpoint chars (s : string) : list json :=
  match s with
  | EmptyString => []
  | String c rest => JStr (String c EmptyString) :: chars rest
  end.

(** [for x in obj]: the elements a [for] loop visits.  A list yields its
    elements, a dict its keys, a string its characters; nothing else is
    iterable. *)
Definition py_iter (obj : json) : result (list json) :=
  match obj with
  | JList l => Ok l
  | JDict kvs => Ok (JStr <$> kvs.*1)
  | JStr s => Ok (chars s)
  | _ => Raise TypeError
  end.

(** [v in s] for a set (or the keys of a dict) of strings: [v] is hashed
    first, and lists and dicts are unhashable.  A number, a boolean or
    [None] hashes but equals no string. *)
Definition py_in (v : json) (s : gset string) : result bool :=
  match v with
  | JStr x => Ok (bool_decide (x ∈ s))
  | JList _ | JDict _ => Raise TypeError
  | _ => Ok false
  end.

(** [str(v)], what an f-string substitutes for [{v}]. *)
Definition py_str `{PyRepr} (v : json) : string :=
  match v with
  | JNull => "None"
  | JBool true => "True"
  | JBool false => "False"
  | JInt z => pretty z
  | JStr s => s
  | _ => py_repr v
  end.

(** ** The monad of the resolver: the local [usages] dict and exceptions *)

Notation usages_t := (gmap string (list string)).

Definition py (A : Type) : Type := usages_t → result (A * usages_t).

Definition py_ret {A} (a : A) : py A := λ u, Ok (a, u).

Definition py_bind {A B} (m : py A) (k : A → py B) : py B :=
  λ u, match m u with
       | Ok (a, u') => k a u'
       | Raise e => Raise e
       end.

(** A computation that only reads its arguments. *)
Definition lift {A} (r : result A) : py A :=
  λ u, match r with
       | Ok a => Ok (a, u)
       | Raise e => Raise e
       end.

Declare Scope py_scope.
Delimit Scope py_scope with py.
Notation "x <- m ;; k" := (py_bind m (λ x, k))
  (at level 100, m at next level, right associativity) : py_scope.
Notation "m ;;; k" := (py_bind m (λ _, k))
  (at level 100, right associativity) : py_scope.
Open Scope py_scope.

(** [for x in l: body(x)] *)
Fixpoint for_each {A} (l : list A) (body : A → py unit) : py unit :=
  match l with
  | [] => py_ret tt
  | x :: rest => body x ;;; for_each rest body
  end.

(** [if c: body] *)
Definition when (c : bool) (body : py unit) : py unit :=
  if c then body else py_ret tt.

(** ** The resolver, [gather_prompt_usages] *)

(** [v and v in prompt_filenames], as the condition of an [if]. *)
Definition and_in (v : json) (s : gset string) : result bool :=
  if truthy v then py_in v s else Ok false.

Definition get_usages : py usages_t := λ u, Ok (u, u).

(** [usages[fn].append(text)] *)
Definition append_to (fn : json) (text : string) : py unit :=
  λ u, match fn with
       | JStr k =>
           match u !! k with
           | Some l => Ok (tt, <[k := l ++ [text]]> u)
           | None => Raise KeyError
           end
       | JList _ | JDict _ => Raise TypeError
       | _ => Raise KeyError
       end.

(** The closure [add] (lines 32-34). *)
Definition add (fn : json) (text : string) : py unit :=
  usages <- get_usages ;;
  c <- lift (py_in fn (dom usages)) ;;
  when c (append_to fn text).

Section resolver.
Context {repr : PyRepr}.

(** The known filenames: a set of [str] (the keys of the result are
    annotated [str], and [add] takes [fn: str]). *)
Variable prompt_filenames : gset string.

(** [f"{prefix}{item.get('Number')} {item.get('Name')}"] *)
Definition describe (prefix : string) (item : json) : py string :=
  number <- lift (py_get item "Number" JNull) ;;
  name <- lift (py_get item "Name" JNull) ;;
  py_ret (prefix +:+ py_str number +:+ " " +:+ py_str name).

(** [if v and v in prompt_filenames: add(v, f"{prefix}{Number} {Name}")] *)
Definition check_add (v : json) (prefix : string) (item : json) : py unit :=
  c <- lift (and_in v prompt_filenames) ;;
  when c (text <- describe prefix item ;; add v text).

(** Lines 37-45. *)
Definition scan_receptionists (receptionists : json) : py unit :=
  value <- lift (py_get (py_or receptionists (JDict [])) "value" (JList [])) ;;
  items <- lift (py_iter value) ;;
  for_each items (λ item,
    filename <- lift (py_get item "PromptFilename" JNull) ;;
    check_add filename "Receptionist: " item ;;;
    forwards <- lift (py_get item "Forwards" (JList [])) ;;
    forwards <- lift (py_iter forwards) ;;
    for_each forwards (λ forward,
      custom_data <- lift (py_get forward "CustomData" JNull) ;;
      check_add custom_data "Receptionist (forward key): " item)).

Definition queue_file_keys : list string :=
  ["IntroFile"; "OnHoldFile"; "GreetingFile"].
Definition route_keys : list string :=
  ["OutOfOfficeRoute"; "BreakRoute"; "HolidaysRoute"].
Definition group_route_keys : list string :=
  ["OfficeRoute"; "OutOfOfficeRoute"; "BreakRoute"; "HolidaysRoute"].

(** The route loop shared in shape by queues (lines 57-61) and groups
    (lines 66-70). *)
Definition scan_routes (kind : string) (keys : list string) (item : json)
    : py unit :=
  for_each keys (λ rkey,
    route <- lift (py_get item rkey (JDict [])) ;;
    prompt <- lift (py_get (py_or route (JDict [])) "Prompt" JNull) ;;
    check_add prompt (kind +:+ rkey +:+ ": ") item).

(** Lines 51-61. *)
Definition scan_queues (queues : json) : py unit :=
  value <- lift (py_get (py_or queues (JDict [])) "value" (JList [])) ;;
  items <- lift (py_iter value) ;;
  for_each items (λ item,
    for_each queue_file_keys (λ key,
      value <- lift (py_get item key JNull) ;;
      check_add value ("Queue " +:+ key +:+ ": ") item) ;;;
    scan_routes "Queue route " route_keys item).

(** Lines 65-70. *)
Definition scan_groups (groups : json) : py unit :=
  value <- lift (py_get (py_or groups (JDict [])) "value" (JList [])) ;;
  items <- lift (py_iter value) ;;
  for_each items (scan_routes "Group route " group_route_keys).

(** Lines 73-75. *)
Definition scan_music_on_hold (music_on_hold_settings : json) : py unit :=
  items <- lift (py_items (py_or music_on_hold_settings (JDict []))) ;;
  for_each items (λ '(key, value),
    c <- lift (and_in value prompt_filenames) ;;
    when c (add value ("MusicOnHold setting (" +:+ key +:+ ")"))).

(** Lines 78-80 and 83-85. *)
Definition scan_setting (settings : json) (text : string) : py unit :=
  moh <- lift (py_get (py_or settings (JDict [])) "MusicOnHold" JNull) ;;
  c <- lift (and_in moh prompt_filenames) ;;
  when c (add moh text).

Definition scan_all (receptionists queues groups music_on_hold_settings
    conference_settings call_parking_settings : json) : py unit :=
  scan_receptionists receptionists ;;;
  scan_queues queues ;;;
  scan_groups groups ;;;
  scan_music_on_hold music_on_hold_settings ;;;
  scan_setting conference_settings "Conference: MusicOnHold" ;;;
  scan_setting call_parking_settings "CallParking: MusicOnHold".

(** Lines 19-89: the dict comprehension of line 29 is the initial state,
    the one of line 88 filters the final state. *)
Definition gather_prompt_usages (receptionists queues groups
    music_on_hold_settings conference_settings call_parking_settings : json)
    : result usages_t :=
  match scan_all receptionists queues groups music_on_hold_settings
          conference_settings call_parking_settings
          (gset_to_gmap [] prompt_filenames) with
  | Ok (_, usages) => Ok (filter (λ kv, kv.2 ≠ []) usages)
  | Raise e => Raise e
  end.
End resolver.

(** ** The specification's reading of a usage

    The definitions of this section follow the words of the specification
    (section 4.1), not the code: a reference is a filename-bearing field
    whose value is a non-empty string, paired with the description of the
    place it was found at.  They are total: a field that is absent, null or
    of another shape simply bears no filename. *)

Module Spec.
Section spec.
Context {repr : PyRepr}.

(** Safe field projection: an absent field reads as null. *)
Definition field (key : string) (obj : json) : json :=
  match obj with
  | JDict kvs => default JNull (assoc key kvs)
  | _ => JNull
  end.

(** The filename a field value carries, if any. *)
Definition filename_of (v : json) : option string :=
  match v with
  | JStr s => if String.eqb s "" then None else Some s
  | _ => None
  end.

(** A reference: the filename and the description of the referring place. *)
Definition reference (v : json) (description : string)
    : list (string * string) :=
  match filename_of v with
  | Some fn => [(fn, description)]
  | None => []
  end.

Definition members (v : json) : list json :=
  match v with
  | JList l => l
  | _ => []
  end.

(** The entities of a collection; an absent collection has none. *)
Definition entities (collection : json) : list json :=
  members (field "value" collection).

(** "{Number} {Name}" *)
Definition label (entity : json) : string :=
  py_str (field "Number" entity) +:+ " " +:+ py_str (field "Name" entity).

(** Receptionist: the direct field, then each forward. *)
Definition receptionist_refs (e : json) : list (string * string) :=
  reference (field "PromptFilename" e) ("Receptionist: " +:+ label e)
  ++ (members (field "Forwards" e) ≫= λ fwd,
        reference (field "CustomData" fwd)
          ("Receptionist (forward key): " +:+ label e)).

(** Queue: the three direct fields, then the three routes. *)
Definition queue_refs (e : json) : list (string * string) :=
  (["IntroFile"; "OnHoldFile"; "GreetingFile"] ≫= λ name,
     reference (field name e) ("Queue " +:+ name +:+ ": " +:+ label e))
  ++ (["OutOfOfficeRoute"; "BreakRoute"; "HolidaysRoute"] ≫= λ route,
        reference (field "Prompt" (field route e))
          ("Queue route " +:+ route +:+ ": " +:+ label e)).

(** Group: the four routes. *)
Definition group_refs (e : json) : list (string * string) :=
  ["OfficeRoute"; "OutOfOfficeRoute"; "BreakRoute"; "HolidaysRoute"]
    ≫= λ route,
      reference (field "Prompt" (field route e))
        ("Group route " +:+ route +:+ ": " +:+ label e).

(** MusicOnHoldSettings: every key of the flat mapping. *)
Definition music_on_hold_refs (settings : json) : list (string * string) :=
  match settings with
  | JDict kvs =>
      kvs ≫= λ kv, reference kv.2 ("MusicOnHold setting (" +:+ kv.1 +:+ ")")
  | _ => []
  end.

(** ConferenceSettings and CallParkingSettings: the field MusicOnHold. *)
Definition setting_refs (settings : json) (description : string)
    : list (string * string) :=
  reference (field "MusicOnHold" settings) description.

(** All references, in the fixed scan order. *)
Definition references (receptionists queues groups music_on_hold_settings
    conference_settings call_parking_settings : json)
    : list (string * string) :=
  (entities receptionists ≫= receptionist_refs)
  ++ (entities queues ≫= queue_refs)
  ++ (entities groups ≫= group_refs)
  ++ music_on_hold_refs music_on_hold_settings
  ++ setting_refs conference_settings "Conference: MusicOnHold"
  ++ setting_refs call_parking_settings "CallParking: MusicOnHold".

(** The references that match a known filename. *)
Definition matching (known : gset string) (refs : list (string * string))
    : list (string * string) :=
  filter (λ r, r.1 ∈ known) refs.

(** The usage record of one filename: the descriptions of the references
    to it, in order. *)
Definition usage_record (fn : string) (refs : list (string * string))
    : list string :=
  (filter (λ r, r.1 = fn) refs).*2.
End spec.
End Spec.

(** The usages dict after the references [refs] have been recorded in it, in
    order: what the scan is compared with. *)
Definition record (refs : list (string * string)) (u : usages_t) : usages_t :=
  foldl (λ u r, alter (λ l, l ++ [r.2]) r.1 u) u refs.

(** ** Lenient input shapes

    The shapes of the documents the API returns, with every filename field
    optional: absent, null or a string.  A collection may be missing
    altogether. *)

(** What [x or {}] replaces by the empty dict: [None], [{}] and the like. *)
Definition absent (collection : json) : bool := negb (truthy collection).

Definition optional_string (v : json) : bool :=
  match v with
  | JNull | JStr _ => true
  | _ => false
  end.

Definition is_dict (v : json) : bool :=
  match v with
  | JDict _ => true
  | _ => false
  end.

(** A list-valued field: absent, or a list whose members are all [ok]. *)
Definition optional_list (ok : json → bool) (key : string) (obj : json) : bool :=
  match obj with
  | JDict kvs =>
      match assoc key kvs with
      | None => true
      | Some (JList l) => forallb ok l
      | Some _ => false
      end
  | _ => false
  end.

Definition wf_forward (fwd : json) : bool :=
  is_dict fwd && optional_string (Spec.field "CustomData" fwd).

(** A route: absent, null, or a record with an optional [Prompt]. *)
Definition wf_route (key : string) (entity : json) : bool :=
  match Spec.field key entity with
  | JNull => true
  | JDict kvs => optional_string (Spec.field "Prompt" (JDict kvs))
  | _ => false
  end.

Definition wf_receptionist (e : json) : bool :=
  is_dict e && optional_string (Spec.field "PromptFilename" e)
  && optional_list wf_forward "Forwards" e.

Definition wf_queue (e : json) : bool :=
  is_dict e
  && forallb (λ key, optional_string (Spec.field key e)) queue_file_keys
  && forallb (λ key, wf_route key e) route_keys.

Definition wf_group (e : json) : bool :=
  is_dict e && forallb (λ key, wf_route key e) group_route_keys.

(** A collection: missing, or a record whose [value] lists entities. *)
Definition wf_collection (wf_entity : json → bool) (collection : json) : bool :=
  absent collection || optional_list wf_entity "value" collection.

Definition wf_music_on_hold (settings : json) : bool :=
  absent settings ||
  match settings with
  | JDict kvs => forallb (λ kv, optional_string kv.2) kvs
  | _ => false
  end.

Definition wf_setting (settings : json) : bool :=
  absent settings ||
  (is_dict settings && optional_string (Spec.field "MusicOnHold" settings)).

(** The explicit collection of zero entities standing for a missing one. *)
Definition or_no_entities (collection : json) : json :=
  if absent collection then JDict [("value", JList [])] else collection.

Definition or_no_settings (settings : json) : json :=
  if absent settings then JDict [] else settings.

(** ** Sample documents *)

Module Sample.
(** A formatting of floats and containers, for running the resolver. *)
Definition repr : PyRepr := λ _, "<object>".

Definition known : gset string := {[ "welcome.wav"; "hold.wav" ]}.

Definition receptionists : json :=
  JDict [("value", JList [
    JDict [("Number", JStr "100"); ("Name", JStr "Main");
           ("PromptFilename", JStr "welcome.wav"); ("Forwards", JList [])]])].

Definition queues : json :=
  JDict [("value", JList [
    JDict [("Number", JStr "800"); ("Name", JStr "Support");
           ("OnHoldFile", JStr "hold.wav")]])].

Definition empty : json := JDict [].

Definition usages : gmap string (list string) :=
  {[ "welcome.wav" := ["Receptionist: 100 Main"];
     "hold.wav" := ["Queue OnHoldFile: 800 Support"] ]}.

(** A queue whose break route plays hold.wav, and a music-on-hold slot
    set to the same file. *)
Definition break_queue : list (string * json) :=
  [("Number", JStr "801"); ("Name", JStr "Sales");
   ("BreakRoute", JDict [("Prompt", JStr "hold.wav")])].

Definition break_queues : list (string * json) :=
  [("value", JList [JDict break_queue])].

Definition music_on_hold : list (string * json) :=
  [("MusicOnHold1", JNull); ("MusicOnHold3", JStr "hold.wav")].

Definition break_usages : gmap string (list string) :=
  {[ "hold.wav" := ["Queue route BreakRoute: 801 Sales";
                    "MusicOnHold setting (MusicOnHold3)"] ]}.

(** A receptionist whose [Forwards] is null. *)
Definition null_forwards : json :=
  JDict [("value", JList [
    JDict [("Number", JStr "100"); ("Name", JStr "Main");
           ("PromptFilename", JStr "welcome.wav"); ("Forwards", JNull)]])].

(** The same receptionist with a null route-like field, for comparison:
    a queue whose [BreakRoute] is null. *)
Definition null_route : json :=
  JDict [("value", JList [
    JDict [("Number", JStr "800"); ("Name", JStr "Support");
           ("OnHoldFile", JStr "hold.wav"); ("BreakRoute", JNull)]])].

(** A receptionist playing a prompt that is not among the known ones. *)
Definition stray_receptionists : json :=
  JDict [("value", JList [
    JDict [("Number", JStr "101"); ("Name", JStr "Night");
           ("PromptFilename", JStr "missing.wav")]])].

Definition hold_usages : gmap string (list string) :=
  {[ "hold.wav" := ["Queue OnHoldFile: 800 Support"] ]}.

(** The empty string as a known filename, and a queue with a blank
    intro file. *)
Definition known_blank : gset string := {[ ""; "hold.wav" ]}.

Definition blank_queues : json :=
  JDict [("value", JList [
    JDict [("Number", JStr "800"); ("Name", JStr "Support");
           ("IntroFile", JStr ""); ("OnHoldFile", JStr "hold.wav")]])].
End Sample.

(** ** The run of the program: files, environment, network and output *)

(** What a run does to the outside, in order. *)
Inductive event : Type :=
  | IsDir (path : string)
  | PathExists (path : string)
  | ReadFile (path : string)
  | MakeDirs (path : string)
  | WriteFile (path : string) (document : json)
  | HttpGet (url token : string) (params : list (string * string))
  | Print (text : string).

Inductive response : Type :=
  | ConnectError
  | Response (success : bool) (body : option json).

(** The outside of a run.  A file is kept as the document its content parses
    to ([None] when [orjson.loads] rejects the content); the server answers
    a request by its URL and query parameters. *)
Record world : Type := World {
  dirs : gset string;
  files : gmap string (option json);
  environ : gmap string string;
  server : string → list (string * string) → response;
}.

Definition io (A : Type) : Type :=
  world * list event → result A * (world * list event).

Definition io_ret {A} (a : A) : io A := λ s, (Ok a, s).

Definition io_bind {A B} (m : io A) (k : A → io B) : io B :=
  λ s, match m s with
       | (Ok a, s') => k a s'
       | (Raise e, s') => (Raise e, s')
       end.

Definition io_lift {A} (r : result A) : io A := λ s, (r, s).

Declare Scope io_scope.
Delimit Scope io_scope with io.
Notation "x <- m ;; k" := (io_bind m (λ x, k))
  (at level 100, m at next level, right associativity) : io_scope.
Notation "m ;;; k" := (io_bind m (λ _, k))
  (at level 100, right associativity) : io_scope.

Definition emit (e : event) : io unit := λ '(w, t), (Ok tt, (w, t ++ [e])).

Definition get_world : io world := λ '(w, t), (Ok w, (w, t)).

Definition set_world (w : world) : io unit := λ '(_, t), (Ok tt, (w, t)).

Definition io_when (c : bool) (body : io unit) : io unit :=
  if c then body else io_ret tt.

Fixpoint io_for_each {A} (l : list A) (body : A → io unit) : io unit :=
  match l with
  | [] => io_ret tt
  | x :: rest => io_bind (body x) (λ _, io_for_each rest body)
  end.

(** [[f(x) for x in l]] where [f] acts on the outside. *)
Fixpoint io_map {A B} (l : list A) (f : A → io B) : io (list B) :=
  match l with
  | [] => io_ret []
  | x :: rest =>
      io_bind (f x) (λ y, io_bind (io_map rest f) (λ ys, io_ret (y :: ys)))
  end.

Section os.
Local Open Scope io_scope.

(** [os.path.isdir(path)] *)
Definition isdir (path : string) : io bool :=
  emit (IsDir path) ;;;
  w <- get_world ;;
  io_ret (bool_decide (path ∈ dirs w)).

(** [os.path.exists(path)] *)
Definition path_exists (path : string) : io bool :=
  emit (PathExists path) ;;;
  w <- get_world ;;
  io_ret (bool_decide (path ∈ dirs w ∨ path ∈ dom (files w))).

(** [orjson.loads(open(path, "rb").read())] *)
Definition read_json (path : string) : io json :=
  emit (ReadFile path) ;;;
  w <- get_world ;;
  match files w !! path with
  | Some (Some document) => io_ret document
  | Some None => io_lift (Raise JSONDecodeError)
  | None => io_lift (Raise OSError)
  end.

(** [os.makedirs(path, exist_ok=True)] *)
Definition makedirs (path : string) : io unit :=
  emit (MakeDirs path) ;;;
  w <- get_world ;;
  if bool_decide (path ∈ dom (files w)) then io_lift (Raise OSError)
  else set_world (World ({[path]} ∪ dirs w) (files w) (environ w) (server w)).

(** [open(path, "wb").write(orjson.dumps(document, ...))]; the directory of
    [path] is the one [makedirs] has just made. *)
Definition write_json (path : string) (document : json) : io unit :=
  emit (WriteFile path document) ;;;
  w <- get_world ;;
  if bool_decide (path ∈ dirs w) then io_lift (Raise OSError)
  else set_world
         (World (dirs w) (<[path := Some document]> (files w)) (environ w)
            (server w)).

(** [os.environ.get(name)] *)
Definition getenv (name : string) : io (option string) :=
  w <- get_world ;; io_ret (environ w !! name).

(** [print(text)] *)
Definition print (text : string) : io unit := emit (Print text).
End os.

Definition newline : string := String (Ascii.ascii_of_nat 10) "".

(** [os.path.join(a, b)] for a relative [b]. *)
Definition path_join (a b : string) : string := a +:+ "/" +:+ b.

(** Lines 12-16; [None] is returned as [JNull]. *)
Definition load_json_file (path : string) : io json :=
  (found <- path_exists path ;;
   if found then read_json path else io_ret JNull)%io.

(** api.py *)
Module api.
Section api.
Context {repr : PyRepr}.
Local Open Scope io_scope.

Record APIClient : Type := Client { token : string; fqdn : string }.

(** [s[:-1] if s.endswith("/") else s] *)
Fixpoint strip_slash (s : string) : string :=
  match s with
  | "" => ""
  | String c rest =>
      match rest with
      | "" => if Ascii.eqb c "/"%char then "" else s
      | _ => String c (strip_slash rest)
      end
  end.

Fixpoint drop_chars (n : nat) (s : string) : string :=
  match n, s with
  | S n', String _ rest => drop_chars n' rest
  | _, _ => s
  end.

(** [__init__] (lines 14-23); an unset FQDN is formatted as [None]. *)
Definition new (token : string) (fqdn : option string) : APIClient :=
  Client
    (if String.prefix "Bearer " token then drop_chars 7 token else token)
    (strip_slash ("https://" +:+ from_option id "None" fqdn)).

(** [request] (lines 25-28): the response body, unless the request fails
    or [raise_for_status] rejects the status. *)
Definition request (self : APIClient) (url : string)
    (params : list (string * string)) : io (option json) :=
  emit (HttpGet url (token self) params) ;;;
  w <- get_world ;;
  match server w url params with
  | Response true body => io_ret body
  | _ => io_lift (Raise HTTPError)
  end.

(** [orjson.loads(response.content)] *)
Definition loads (body : option json) : io json :=
  match body with
  | Some document => io_ret document
  | None => io_lift (Raise JSONDecodeError)
  end.

Definition get_json (self : APIClient) (path : string)
    (params : list (string * string)) : io json :=
  response <- request self (fqdn self +:+ path) params ;;
  loads response.

Definition custom_prompts (self : APIClient) : io json :=
  get_json self "/xapi/v1/CustomPrompts" [("$select", "DisplayName")].

Definition playlists (self : APIClient) : io json :=
  get_json self "/xapi/v1/Playlists" [("$select", "Name,Files")].

Definition receptionists (self : APIClient) : io json :=
  get_json self "/xapi/v1/Receptionists"
    [("$select", "Name,Number,PromptFilename");
     ("$expand", "Forwards($select=Input,CustomData)")].

Definition queues (self : APIClient) : io json :=
  get_json self "/xapi/v1/Queues"
    [("$select", "Name,Number,IntroFile,OnHoldFile,GreetingFile,HolidaysRoute/Prompt,OutOfOfficeRoute/Prompt,BreakRoute/Prompt")].

Definition groups (self : APIClient) : io json :=
  get_json self "/xapi/v1/Groups"
    [("$select", "Name,Number,OfficeRoute/Prompt,OutOfOfficeRoute/Prompt,BreakRoute/Prompt,HolidaysRoute/Prompt");
     ("$filter", "not startsWith(Name, '___FAVORITES___')")].

Definition conference_settings (self : APIClient) : io json :=
  get_json self "/xapi/v1/ConferenceSettings"
    [("$select", "Extension,MusicOnHold")].

Definition call_parking_settings (self : APIClient) : io json :=
  get_json self "/xapi/v1/CallParkingSettings" [("$select", "MusicOnHold")].

(** [",".join([f"MusicOnHold{i}" for i in range(10)])] *)
Definition music_on_hold_keys : string :=
  String.concat "," ((λ i : nat, "MusicOnHold" +:+ pretty i) <$> seq 0 10).

Definition music_on_hold_settings (self : APIClient) : io json :=
  get_json self "/xapi/v1/MusicOnHoldSettings"
    [("$select", music_on_hold_keys)].

(** [d[key] = v] on the association list: in place, or appended. *)
Fixpoint set_key (key : string) (v : json) (kvs : list (string * json))
    : list (string * json) :=
  match kvs with
  | [] => [(key, v)]
  | (k, v') :: rest =>
      if String.eqb key k then (k, v) :: rest else (k, v') :: set_key key v rest
  end.

Definition py_setitem (obj : json) (key : string) (v : json) : result json :=
  match obj with
  | JDict kvs => Ok (JDict (set_key key v kvs))
  | _ => Raise TypeError
  end.

(** The body of the loop of lines 79-86: the item with its [Files] set. *)
Definition with_files (self : APIClient) (item : json) : io json :=
  item_id <- io_lift (py_get item "Id" JNull) ;;
  match item_id with
  | JNull => io_lift (py_setitem item "Files" (JList []))
  | _ =>
      files_content <-
        get_json self
          ("/xapi/v1/CallFlowApps(" +:+ py_str item_id +:+ ")/Pbx.GetFiles()")
          [] ;;
      files <- io_lift (py_get files_content "value" (JList [])) ;;
      io_lift (py_setitem item "Files" files)
  end.

(** Lines 72-88.  The items are updated in place, so the returned document
    carries them when [value] is a list; any other iterable only gets past
    the loop when it is empty. *)
Definition call_flow_apps (self : APIClient) : io json :=
  content <- get_json self "/xapi/v1/CallFlowApps"
               [("$select", "Id,Name,Number")] ;;
  value <- io_lift (py_get content "value" (JList [])) ;;
  items <- io_lift (py_iter value) ;;
  items' <- io_map items (with_files self) ;;
  match content, value with
  | JDict kvs, JList _ =>
      if assoc "value" kvs is Some _
      then io_ret (JDict (set_key "value" (JList items') kvs))
      else io_ret content
  | _, _ => io_ret content
  end.
End api.
End api.

(** ** The reports and [main] *)

Section main.
Context {repr : PyRepr}.
Local Open Scope io_scope.

(** [sorted(usages.keys())]: strings compare by code point, which is the
    order of their UTF-8 bytes. *)
Definition sorted_keys (usages : gmap string (list string)) : list string :=
  merge_sort String.le (elements (dom usages)).

(** Lines 92-105. *)
Definition print_report (usages : gmap string (list string)) : io unit :=
  if bool_decide (usages = ∅)
  then print "No prompt files in use were found."
  else
    print "Detailed list of used prompt filenames:" ;;;
    io_for_each (sorted_keys usages) (λ filename,
      print (newline +:+ filename +:+ ":") ;;;
      io_for_each (default [] (usages !! filename)) (λ entry,
        print ("  - " +:+ entry))) ;;;
    print (newline +:+ "Used prompt filenames:") ;;;
    io_for_each (sorted_keys usages) (λ filename,
      print (" - " +:+ filename)).

(** [x == []] *)
Definition is_empty_list (v : json) : bool :=
  match v with
  | JList [] => true
  | _ => false
  end.

(** Lines 108-117. *)
Definition print_call_flow_apps (client : api.APIClient) : io unit :=
  fetched <- api.call_flow_apps client ;;
  let call_flow_apps := py_or fetched (JDict [("value", JList [])]) in
  print (newline +:+ "Call Flow Apps Files:") ;;;
  value <- io_lift (py_get call_flow_apps "value" (JList [])) ;;
  items <- io_lift (py_iter value) ;;
  io_for_each items (λ item,
    files <- io_lift (py_get item "Files" JNull) ;;
    io_when (negb (is_empty_list files)) (
      number <- io_lift (py_get item "Number" JNull) ;;
      name <- io_lift (py_get item "Name" JNull) ;;
      print (py_str number +:+ " " +:+ py_str name +:+ ":") ;;;
      files <- io_lift (py_get item "Files" (JList [])) ;;
      files <- io_lift (py_iter files) ;;
      io_for_each files (λ file, print ("  - File: " +:+ py_str file)))) ;;;
  _ <- api.call_flow_apps client ;;
  io_ret tt.

(** The set comprehension of lines 134 and 179.  The resolver is modelled
    for sets of strings; a display name that is a number or [True] would
    join the set in Python, which is where the model stops. *)
Fixpoint display_names_of (items : list json) : result (gset string) :=
  match items with
  | [] => Ok ∅
  | p :: rest =>
      match py_get p "DisplayName" JNull with
      | Raise e => Raise e
      | Ok name =>
          if truthy name then
            match name with
            | JStr s =>
                match display_names_of rest with
                | Ok names => Ok ({[s]} ∪ names)
                | Raise e => Raise e
                end
            | JList _ | JDict _ => Raise TypeError
            | _ => Raise OutsideModel
            end
          else display_names_of rest
      end
  end.

Definition display_names (prompts : json) : result (gset string) :=
  match py_get prompts "value" (JList []) with
  | Raise e => Raise e
  | Ok value =>
      match py_iter value with
      | Raise e => Raise e
      | Ok items => display_names_of items
      end
  end.

Definition no_value : json := JDict [("value", JList [])].

(** The closure [ld] of lines 122-123. *)
Definition ld (output_dir fname : string) : io json :=
  loaded <- load_json_file (path_join output_dir fname) ;;
  io_ret (py_or loaded (JDict [])).

(** Lines 120-145. *)
Definition report_from_output (output_dir : string) : io unit :=
  prompts <- ld output_dir "custom_prompts.json" ;;
  receptionists <- ld output_dir "receptionists.json" ;;
  queues <- ld output_dir "queues.json" ;;
  groups <- ld output_dir "groups.json" ;;
  playlists <- ld output_dir "playlists.json" ;;
  music_on_hold_settings <- ld output_dir "music_on_hold_settings.json" ;;
  conference_settings <- ld output_dir "conference_settings.json" ;;
  call_parking_settings <- ld output_dir "call_parking_settings.json" ;;
  prompt_filenames <- io_lift (display_names (py_or prompts no_value)) ;;
  usages <- io_lift (gather_prompt_usages prompt_filenames
                       (py_or receptionists no_value) (py_or queues no_value)
                       (py_or groups no_value)
                       (py_or music_on_hold_settings (JDict []))
                       (py_or conference_settings (JDict []))
                       (py_or call_parking_settings (JDict []))) ;;
  print_report usages.

(** Lines 148-192. *)
Definition report_from_api (client : api.APIClient) : io unit :=
  prompts <- api.custom_prompts client ;;
  receptionists <- api.receptionists client ;;
  queues <- api.queues client ;;
  groups <- api.groups client ;;
  playlists <- api.playlists client ;;
  conference_settings <- api.conference_settings client ;;
  music_on_hold_settings <- api.music_on_hold_settings client ;;
  call_parking_settings <- api.call_parking_settings client ;;
  call_flow_apps <- api.call_flow_apps client ;;
  let prompts := py_or prompts no_value in
  let receptionists := py_or receptionists no_value in
  let queues := py_or queues no_value in
  let groups := py_or groups no_value in
  let playlists := py_or playlists no_value in
  let conference_settings := py_or conference_settings (JDict []) in
  let music_on_hold_settings := py_or music_on_hold_settings (JDict []) in
  let call_parking_settings := py_or call_parking_settings (JDict []) in
  let call_flow_apps := py_or call_flow_apps no_value in
  makedirs "output" ;;;
  write_json "output/custom_prompts.json" prompts ;;;
  write_json "output/playlists.json" playlists ;;;
  write_json "output/receptionists.json" receptionists ;;;
  write_json "output/queues.json" queues ;;;
  write_json "output/groups.json" groups ;;;
  write_json "output/conference_settings.json" conference_settings ;;;
  write_json "output/music_on_hold_settings.json" music_on_hold_settings ;;;
  write_json "output/call_parking_settings.json" call_parking_settings ;;;
  write_json "output/call_flow_apps.json" call_flow_apps ;;;
  prompt_filenames <- io_lift (display_names prompts) ;;
  usages <- io_lift (gather_prompt_usages prompt_filenames receptionists
                       queues groups music_on_hold_settings
                       conference_settings call_parking_settings) ;;
  print_report usages ;;;
  print_call_flow_apps client.

(** [a and b] on two probes: the second is only made when the first holds. *)
Definition io_and (a b : io bool) : io bool :=
  x <- a ;; if x then b else io_ret false.

(** Lines 195-207. *)
Definition main : io unit :=
  let output_dir := "output" in
  cached <- io_and (isdir output_dir)
              (path_exists (path_join output_dir "custom_prompts.json")) ;;
  if cached then report_from_output output_dir
  else
    fqdn <- getenv "FQDN" ;;
    token <- getenv "BEARER_TOKEN" ;;
    let token := match token with
                 | Some t => if String.eqb t "" then "" else t
                 | None => ""
                 end in
    let client := api.new token fqdn in
    report_from_api client.
End main.

(** ** Cache or network *)

Definition is_http (e : event) : bool :=
  match e with
  | HttpGet _ _ _ => true
  | _ => false
  end.

(** The probes [main] makes before it decides. *)
Definition is_probe (e : event) : bool :=
  match e with
  | IsDir _ | PathExists _ => true
  | _ => false
  end.

(** The cache directory and its primary document exist. *)
Definition cache_present (w : world) : bool :=
  bool_decide ("output" ∈ dirs w)
  && bool_decide ("output/custom_prompts.json" ∈ dirs w
                  ∨ "output/custom_prompts.json" ∈ dom (files w)).

(** The client [main] constructs from the environment. *)
Definition client_of (w : world) : api.APIClient :=
  api.new (default "" (environ w !! "BEARER_TOKEN")) (environ w !! "FQDN").

(** The probes [main] makes: the second one only if the directory exists. *)
Definition probes_of (w : world) : list event :=
  if bool_decide ("output" ∈ dirs w)
  then [IsDir "output"; PathExists "output/custom_prompts.json"]
  else [IsDir "output"].

(** The events of a run, from an empty trace. *)
Definition events_of {A} (m : io A) (w : world) : list event := (m (w, [])).2.2.

(** A computation that only adds events, all of them satisfying [P]. *)
Definition appends (P : event → Prop) {A} (m : io A) : Prop :=
  ∀ w t, ∃ t', (m (w, t)).2.2 = t ++ t' ∧ Forall P t'.

(** A computation whose first event is [e]. *)
Definition starts_with (e : event) {A} (m : io A) : Prop :=
  ∀ w t, ∃ t', (m (w, t)).2.2 = t ++ e :: t'.

Module SampleWorld.
(** A cache holding the documents of the sample scenario, and a server
    that does not answer. *)
Definition prompts : json :=
  JDict [("value", JList [JDict [("DisplayName", JStr "welcome.wav")];
                          JDict [("DisplayName", JStr "hold.wav")]])].

Definition cached : world :=
  World {[ "output" ]}
    {[ "output/custom_prompts.json" := Some prompts;
       "output/receptionists.json" := Some Sample.receptionists;
       "output/queues.json" := Some Sample.queues ]}
    ∅ (λ _ _, ConnectError).

Definition fresh : world :=
  World ∅ ∅ {[ "FQDN" := "pbx.example.com/"; "BEARER_TOKEN" := "Bearer abc" ]}
    (λ _ _, ConnectError).
End SampleWorld.

(** ** The resolver on the Python heap

    The same function once more, this time with its arguments as references
    to objects of a heap that the function could write to: lists, dicts and
    sets are objects with an identity, and [append] changes the list it is
    applied to.  This is the model in which it means something that the
    resolver leaves its inputs alone. *)

Module Heap.

Definition loc : Type := positive.

Inductive pyval : Type :=
  | VNone
  | VBool (b : bool)
  | VInt (z : Z)
  | VFloat (f : spec_float)
  | VStr (s : string)
  | VRef (l : loc).

(** A set is kept with its members in iteration order. *)
Inductive obj : Type :=
  | OList (items : list pyval)
  | ODict (kvs : list (string * pyval))
  | OSet (members : list string).

Notation heap := (gmap loc obj).

(** [str()] of a float or of a container, which reads the heap. *)
Class HeapRepr := heap_repr : heap → pyval → string.

Definition hp (A : Type) : Type := heap → result A * heap.

Definition ret {A} (a : A) : hp A := λ h, (Ok a, h).

Definition raise {A} (e : exn) : hp A := λ h, (Raise e, h).

Definition bind {A B} (m : hp A) (k : A → hp B) : hp B :=
  λ h, match m h with
       | (Ok a, h') => k a h'
       | (Raise e, h') => (Raise e, h')
       end.

Declare Scope hp_scope.
Delimit Scope hp_scope with hp.
Notation "x <- m ;; k" := (bind m (λ x, k))
  (at level 100, m at next level, right associativity) : hp_scope.
Notation "m ;;; k" := (bind m (λ _, k))
  (at level 100, right associativity) : hp_scope.
Local Open Scope hp_scope.

(** A new object: [[]], [{}] or the value of a comprehension. *)
Definition alloc (o : obj) : hp pyval :=
  λ h, let l := fresh (dom h) in (Ok (VRef l), <[l := o]> h).

(** The object behind a reference.  A Python heap has no reference to
    nothing; the model stops there. *)
Definition read (l : loc) : hp obj :=
  λ h, match h !! l with
       | Some o => (Ok o, h)
       | None => (Raise OutsideModel, h)
       end.

Definition write (l : loc) (o : obj) : hp unit := λ h, (Ok tt, <[l := o]> h).

Fixpoint for_each {A} (l : list A) (body : A → hp unit) : hp unit :=
  match l with
  | [] => ret tt
  | x :: rest => body x ;;; for_each rest body
  end.

Definition when (c : bool) (body : hp unit) : hp unit :=
  if c then body else ret tt.

(** [bool(v)] *)
Definition truthy (v : pyval) : hp bool :=
  match v with
  | VNone => ret false
  | VBool b => ret b
  | VInt z => ret (negb (z =? 0)%Z)
  | VFloat (S754_zero _) => ret false
  | VFloat _ => ret true
  | VStr s => ret (negb (String.eqb s ""))
  | VRef l =>
      o <- read l ;;
      ret (match o with
           | OList items => negb (Nat.eqb (length items) 0)
           | ODict kvs => negb (Nat.eqb (length kvs) 0)
           | OSet members => negb (Nat.eqb (length members) 0)
           end)
  end.

(** [a or {}]: the empty dict is only made when [a] is falsy. *)
Definition or_empty_dict (a : pyval) : hp pyval :=
  c <- truthy a ;;
  if c then ret a else alloc (ODict []).

(** [obj.get(key, dflt)] with [dflt] already evaluated. *)
Definition get (obj : pyval) (key : string) (dflt : pyval) : hp pyval :=
  match obj with
  | VRef l =>
      o <- read l ;;
      match o with
      | ODict kvs => ret (default dflt (assoc key kvs))
      | _ => raise AttributeError
      end
  | _ => raise AttributeError
  end.

(** [obj.items()] *)
Definition items (obj : pyval) : hp (list (string * pyval)) :=
  match obj with
  | VRef l =>
      o <- read l ;;
      match o with
      | ODict kvs => ret kvs
      | _ => raise AttributeError
      end
  | _ => raise AttributeError
  end.

Fixpoint chars (s : string) : list pyval :=
  match s with
  | EmptyString => []
  | String c rest => VStr (String c EmptyString) :: chars rest
  end.

(** [for x in obj] *)
Definition iter (obj : pyval) : hp (list pyval) :=
  match obj with
  | VStr s => ret (chars s)
  | VRef l =>
      o <- read l ;;
      match o with
      | OList items => ret items
      | ODict kvs => ret (VStr <$> kvs.*1)
      | OSet members => ret (VStr <$> members)
      end
  | _ => raise TypeError
  end.

(** The members of the set of known filenames, in iteration order.  The
    argument is a set by the signature of the resolver. *)
Definition set_members (s : pyval) : hp (list string) :=
  match s with
  | VRef l =>
      o <- read l ;;
      match o with
      | OSet members => ret members
      | _ => raise OutsideModel
      end
  | _ => raise OutsideModel
  end.

(** [v in keys]: hashing [v] fails for a list, a dict or a set. *)
Definition hashed_in (v : pyval) (keys : list string) : hp bool :=
  match v with
  | VStr x => ret (bool_decide (x ∈ keys))
  | VRef _ => raise TypeError
  | _ => ret false
  end.

(** [v in s] for the set [s]. *)
Definition in_set (v : pyval) (s : pyval) : hp bool :=
  members <- set_members s ;;
  hashed_in v members.

(** [v in d] for the dict [d]. *)
Definition in_dict (v : pyval) (d : pyval) : hp bool :=
  kvs <- items d ;;
  hashed_in v kvs.*1.

(** [d[k]] *)
Definition getitem (d : pyval) (k : pyval) : hp pyval :=
  kvs <- items d ;;
  match k with
  | VStr x =>
      match assoc x kvs with
      | Some v => ret v
      | None => raise KeyError
      end
  | VRef _ => raise TypeError
  | _ => raise KeyError
  end.

(** [lst.append(x)] *)
Definition append (lst : pyval) (x : pyval) : hp unit :=
  match lst with
  | VRef l =>
      o <- read l ;;
      match o with
      | OList items => write l (OList (items ++ [x]))
      | _ => raise AttributeError
      end
  | _ => raise AttributeError
  end.

(** [v and v in s] *)
Definition and_in (v : pyval) (s : pyval) : hp bool :=
  c <- truthy v ;;
  if c then in_set v s else ret false.

Section resolver.
Context {repr : HeapRepr}.

(** [str(v)] *)
Definition str (v : pyval) : hp string :=
  match v with
  | VNone => ret "None"
  | VBool true => ret "True"
  | VBool false => ret "False"
  | VInt z => ret (pretty z)
  | VStr s => ret s
  | _ => λ h, (Ok (heap_repr h v), h)
  end.

Variable prompt_filenames : pyval.

(** The local variable [usages], a reference to the dict of line 29. *)
Variable usages : pyval.

(** The closure [add] (lines 32-34). *)
Definition add (fn : pyval) (text : string) : hp unit :=
  c <- in_dict fn usages ;;
  when c (lst <- getitem usages fn ;; append lst (VStr text)).

Definition describe (prefix : string) (item : pyval) : hp string :=
  number <- get item "Number" VNone ;;
  number <- str number ;;
  name <- get item "Name" VNone ;;
  name <- str name ;;
  ret (prefix +:+ number +:+ " " +:+ name).

Definition check_add (v : pyval) (prefix : string) (item : pyval) : hp unit :=
  c <- and_in v prompt_filenames ;;
  when c (text <- describe prefix item ;; add v text).

Definition scan_receptionists (receptionists : pyval) : hp unit :=
  collection <- or_empty_dict receptionists ;;
  dflt <- alloc (OList []) ;;
  value <- get collection "value" dflt ;;
  items <- iter value ;;
  for_each items (λ item,
  filename <- get item "PromptFilename" VNone ;;
  check_add filename "Receptionist: " item ;;;
  dflt <- alloc (OList []) ;;
  forwards <- get item "Forwards" dflt ;;
  forwards <- iter forwards ;;
  for_each forwards (λ forward,
      custom_data <- get forward "CustomData" VNone ;;
      check_add custom_data "Receptionist (forward key): " item)).

Definition scan_routes (kind : string) (keys : list string) (item : pyval)
    : hp unit :=
  for_each keys (λ rkey,
  dflt <- alloc (ODict []) ;;
  route <- get item rkey dflt ;;
  route <- or_empty_dict route ;;
  prompt <- get route "Prompt" VNone ;;
  check_add prompt (kind +:+ rkey +:+ ": ") item).

Definition scan_queues (queues : pyval) : hp unit :=
  collection <- or_empty_dict queues ;;
  dflt <- alloc (OList []) ;;
  value <- get collection "value" dflt ;;
  items <- iter value ;;
  for_each items (λ item,
  for_each queue_file_keys (λ key,
      value <- get item key VNone ;;
      check_add value ("Queue " +:+ key +:+ ": ") item) ;;;
  scan_routes "Queue route " route_keys item).

Definition scan_groups (groups : pyval) : hp unit :=
  collection <- or_empty_dict groups ;;
  dflt <- alloc (OList []) ;;
  value <- get collection "value" dflt ;;
  items <- iter value ;;
  for_each items (scan_routes "Group route " group_route_keys).

Definition scan_music_on_hold (music_on_hold_settings : pyval) : hp unit :=
  settings <- or_empty_dict music_on_hold_settings ;;
  items <- items settings ;;
  for_each items (λ '(key, value),
  c <- and_in value prompt_filenames ;;
  when c (add value ("MusicOnHold setting (" +:+ key +:+ ")"))).

Definition scan_setting (settings : pyval) (text : string) : hp unit :=
  settings <- or_empty_dict settings ;;
  moh <- get settings "MusicOnHold" VNone ;;
  c <- and_in moh prompt_filenames ;;
  when c (add moh text).

Definition scan_all (receptionists queues groups music_on_hold_settings
  conference_settings call_parking_settings : pyval) : hp unit :=
  scan_receptionists receptionists ;;;
  scan_queues queues ;;;
  scan_groups groups ;;;
  scan_music_on_hold music_on_hold_settings ;;;
  scan_setting conference_settings "Conference: MusicOnHold" ;;;
  scan_setting call_parking_settings "CallParking: MusicOnHold".
End resolver.

(** [{fn: [] for fn in prompt_filenames}]: a new list per filename. *)
Fixpoint new_lists (fns : list string) : hp (list (string * pyval)) :=
  match fns with
  | [] => ret []
  | fn :: rest =>
      lst <- alloc (OList []) ;;
      kvs <- new_lists rest ;;
      ret ((fn, lst) :: kvs)
  end.

(** [{k: v for k, v in usages.items() if v}] *)
Fixpoint keep_truthy (kvs : list (string * pyval))
    : hp (list (string * pyval)) :=
  match kvs with
  | [] => ret []
  | (k, v) :: rest =>
      c <- truthy v ;;
      kept <- keep_truthy rest ;;
      ret (if c then (k, v) :: kept else kept)
  end.

(** Lines 19-89. *)
Definition gather_prompt_usages {repr : HeapRepr} (prompt_filenames
    receptionists queues groups music_on_hold_settings conference_settings
    call_parking_settings : pyval) : hp pyval :=
  fns <- set_members prompt_filenames ;;
  kvs <- new_lists fns ;;
  usages <- alloc (ODict kvs) ;;
  scan_all prompt_filenames usages receptionists queues groups
    music_on_hold_settings conference_settings call_parking_settings ;;;
  kvs <- items usages ;;
  kept <- keep_truthy kvs ;;
  alloc (ODict kept).

(** *** Reading the heap back *)

Definition text_of (v : pyval) : option string :=
  match v with
  | VStr s => Some s
  | _ => None
  end.

(** The list of strings behind a reference. *)
Definition strings_at (h : heap) (v : pyval) : option (list string) :=
  match v with
  | VRef l =>
      match h !! l with
      | Some (OList items) => mapM text_of items
      | _ => None
      end
  | _ => None
  end.

(** The usage map behind the reference the resolver returns. *)
Definition usages_at (h : heap) (v : pyval)
    : option (gmap string (list string)) :=
  match v with
  | VRef l =>
      match h !! l with
      | Some (ODict kvs) =>
          list_to_map <$> mapM (λ kv, pair kv.1 <$> strings_at h kv.2) kvs
      | _ => None
      end
  | _ => None
  end.

(** The value [v] stands in the heap [h] for the document [j]. *)
Fixpoint represents (h : heap) (j : json) (v : pyval) {struct j} : Prop :=
  match j with
  | JNull => v = VNone
  | JBool b => v = VBool b
  | JInt z => v = VInt z
  | JFloat f => v = VFloat f
  | JStr s => v = VStr s
  | JList js =>
      ∃ l vs, v = VRef l ∧ h !! l = Some (OList vs)
        ∧ (fix all2 (js : list json) (vs : list pyval) {struct js} : Prop :=
             match js, vs with
             | [], [] => True
             | j :: js, v :: vs => represents h j v ∧ all2 js vs
             | _, _ => False
             end) js vs
  | JDict kvs =>
      ∃ l vkvs, v = VRef l ∧ h !! l = Some (ODict vkvs)
        ∧ (fix all2 (kvs : list (string * json))
               (vkvs : list (string * pyval)) {struct kvs} : Prop :=
             match kvs, vkvs with
             | [], [] => True
             | (k, j) :: kvs, (k', v) :: vkvs =>
                 k = k' ∧ represents h j v ∧ all2 kvs vkvs
             | _, _ => False
             end) kvs vkvs
  end.

(** The value [v] is a set object holding the filenames [known]. *)
Definition represents_set (h : heap) (known : gset string) (v : pyval) : Prop :=
  ∃ l members, v = VRef l ∧ h !! l = Some (OSet members)
    ∧ NoDup members ∧ list_to_set members = known.
End Heap.

(** A heap holding the documents of the sample scenario.  The four empty
    collections are one and the same dict object. *)
Module SampleHeap.
Definition repr : Heap.HeapRepr := λ _ _, "<object>".

Definition objects : Heap.heap :=
  list_to_map [
    (1%positive, Heap.OSet ["welcome.wav"; "hold.wav"]);
    (2%positive, Heap.ODict [("value", Heap.VRef 3%positive)]);
    (3%positive, Heap.OList [Heap.VRef 4%positive]);
    (4%positive, Heap.ODict [("Number", Heap.VStr "100");
                             ("Name", Heap.VStr "Main");
                             ("PromptFilename", Heap.VStr "welcome.wav");
                             ("Forwards", Heap.VRef 5%positive)]);
    (5%positive, Heap.OList []);
    (6%positive, Heap.ODict [("value", Heap.VRef 7%positive)]);
    (7%positive, Heap.OList [Heap.VRef 8%positive]);
    (8%positive, Heap.ODict [("Number", Heap.VStr "800");
                             ("Name", Heap.VStr "Support");
                             ("OnHoldFile", Heap.VStr "hold.wav")]);
    (9%positive, Heap.ODict [])].

Definition prompt_filenames : Heap.pyval := Heap.VRef 1%positive.
Definition receptionists : Heap.pyval := Heap.VRef 2%positive.
Definition queues : Heap.pyval := Heap.VRef 6%positive.
Definition empty : Heap.pyval := Heap.VRef 9%positive.

(** The resolver on these arguments. *)
Definition call : Heap.hp Heap.pyval :=
  @Heap.gather_prompt_usages repr prompt_filenames receptionists queues
    empty empty empty empty.
End SampleHeap.

(** *** The heap model against the functional one: what is kept invariant *)

Module HeapInv.
(** The entries of a dict stand for the entries of a dict document. *)
Definition entry_represents (h : Heap.heap) (kj : string * json)
    (kv : string * Heap.pyval) : Prop :=
  kj.1 = kv.1 ∧ Heap.represents h kj.2 kv.2.

(** [represents] with the heap value first, as [related] takes it. *)
Definition stands (hf : Heap.heap) (v : Heap.pyval) (j : json) : Prop :=
  Heap.represents hf j v.

Section invariant.
Variable known : gset string.
Variable vknown : Heap.pyval.

(** The dict of line 29: its address and, per filename, the address of
    the usage list. *)
Variable lu : Heap.loc.
Variable lists : list (string * Heap.loc).

Definition usages_dict : Heap.obj :=
  Heap.ODict (prod_map id Heap.VRef <$> lists).

(** The frame [hf] holds the objects the arguments are made of, and
    grows by the objects the resolver makes without ever changing them;
    the heap [h] holds in addition the dict and the lists of [usages],
    whose content is the functional state [u]. *)
Definition Inv (hf h : Heap.heap) (u : gmap string (list string)) : Prop :=
  hf ⊆ h
  ∧ Heap.represents_set hf known vknown
  ∧ hf !! lu = None
  ∧ h !! lu = Some usages_dict
  ∧ NoDup lists.*1
  ∧ NoDup lists.*2
  ∧ (∀ k l, (k, l) ∈ lists →
       hf !! l = None ∧ l ≠ lu
       ∧ ∃ xs, h !! l = Some (Heap.OList (Heap.VStr <$> xs))
           ∧ u !! k = Some xs)
  ∧ (∀ k, is_Some (u !! k) → k ∈ lists.*1).

(** The outcome of the heap computation against the functional one: the
    same exception, or results related by [R] in a grown frame. *)
Definition related {A B} (R : Heap.heap → A → B → Prop) (hf : Heap.heap)
    (oh : result A * Heap.heap)
    (op : result (B * gmap string (list string))) : Prop :=
  match op with
  | Ok (b, u') =>
      ∃ a hf', oh.1 = Ok a ∧ hf ⊆ hf' ∧ Inv hf' oh.2 u' ∧ R hf' a b
  | Raise e => oh.1 = Raise e ∧ hf ⊆ oh.2
  end.
End invariant.
End HeapInv.

(** ** Further definitions: outcomes, file events, the entry point *)

(** Whether a run succeeds, and with which exception it fails. *)
Definition outcome {A} (r : result A) : result unit :=
  match r with
  | Ok _ => Ok tt
  | Raise e => Raise e
  end.

(** Two computations that succeed together or fail alike, whatever the
    state they start from. *)
Definition same_outcome {A} (m1 m2 : py A) : Prop :=
  ∀ u1 u2, outcome (m1 u1) = outcome (m2 u2).

(** The lines a trace prints, in order. *)
Definition printed (t : list event) : list string :=
  omap (λ e, match e with Print text => Some text | _ => None end) t.

(** Events that look at the file system or print, and change nothing. *)
Definition is_read (e : event) : bool :=
  match e with
  | PathExists _ | ReadFile _ | Print _ => true
  | _ => false
  end.

Definition is_print (e : event) : bool :=
  match e with
  | Print _ => true
  | _ => false
  end.

(** A computation that leaves the world as it found it. *)
Definition keeps_world {A} (m : io A) : Prop := ∀ w t, (m (w, t)).2.1 = w.

(** The number of entries of a usage map. *)
Definition entries (usages : gmap string (list string)) : nat :=
  sum_list_with (λ kv, length kv.2) (map_to_list usages).

(** The lines [print_report] prints for a usage map. *)
Definition report_lines (usages : gmap string (list string)) : list string :=
  if bool_decide (usages = ∅) then ["No prompt files in use were found."]
  else
    "Detailed list of used prompt filenames:"
    :: (sorted_keys usages ≫= λ filename,
          (newline +:+ filename +:+ ":")
          :: ((λ entry, "  - " +:+ entry) <$> default [] (usages !! filename)))
    ++ (newline +:+ "Used prompt filenames:")
       :: ((λ filename, " - " +:+ filename) <$> sorted_keys usages).

(** The files [report_from_output] loads, in the order of lines 125-132. *)
Definition cache_names : list string :=
  ["custom_prompts.json"; "receptionists.json"; "queues.json"; "groups.json";
   "playlists.json"; "music_on_hold_settings.json";
   "conference_settings.json"; "call_parking_settings.json"].

(** A failure that has printed nothing. *)
Definition fails_silently {A} (m : io A) : Prop :=
  ∀ w t e, (m (w, t)).1 = Raise e → printed (m (w, t)).2.2 = printed t.

Definition is_write (e : event) : bool :=
  match e with
  | MakeDirs _ | WriteFile _ _ => true
  | _ => false
  end.


Definition is_null (v : json) : bool :=
  match v with
  | JNull => true
  | _ => false
  end.

(** The request of line 84 for the files of the call flow app [item_id]. *)
Definition files_request `{PyRepr} (self : api.APIClient) (item_id : json)
    : event :=
  HttpGet (api.fqdn self +:+ "/xapi/v1/CallFlowApps(" +:+ py_str item_id
           +:+ ")/Pbx.GetFiles()") (api.token self) [].

(** [s.endswith("/")] *)
Fixpoint endswith_slash (s : string) : bool :=
  match s with
  | "" => false
  | String c "" => Ascii.eqb c "/"%char
  | String _ rest => endswith_slash rest
  end.

(** ** The script (lines 210-219) *)

(** A path below the directory [dir]. *)
Definition below (dir path : string) : bool := String.prefix (dir +:+ "/") path.

(** [shutil.rmtree(dir)] on a directory: it goes with all that is below
    it.  The removal is seen in the world; the trace keeps to the events of
    the report. *)
Definition rmtree (dir : string) : io unit :=
  (w <- get_world ;;
   set_world
     (World (filter (λ path, path ≠ dir ∧ below dir path = false) (dirs w))
        (filter (λ kv, below dir kv.1 = false) (files w))
        (environ w) (server w)))%io.

(** The script, run with or without [--clear]. *)
Definition script `{PyRepr} (clear : bool) : io unit :=
  (io_when clear
     (found <- isdir "output" ;; io_when found (rmtree "output")) ;;;
   main)%io.

(** ** A server that answers *)

Module SampleServer.
Definition call_flow_apps : json :=
  JDict [("value",
          JList [JDict [("Id", JInt 7); ("Name", JStr "Menu");
                        ("Number", JStr "900")];
                 JDict [("Name", JStr "Draft"); ("Number", JStr "901")]])].

Definition menu_files : json := JDict [("value", JList [JStr "menu.wav"])].

Definition answer (url : string) (params : list (string * string))
    : response :=
  if String.eqb url "https://pbx.example.com/xapi/v1/CustomPrompts"
  then Response true (Some SampleWorld.prompts)
  else if String.eqb url "https://pbx.example.com/xapi/v1/Receptionists"
  then Response true (Some Sample.receptionists)
  else if String.eqb url "https://pbx.example.com/xapi/v1/Queues"
  then Response true (Some Sample.queues)
  else if String.eqb url "https://pbx.example.com/xapi/v1/CallFlowApps"
  then Response true (Some call_flow_apps)
  else if String.eqb url
            "https://pbx.example.com/xapi/v1/CallFlowApps(7)/Pbx.GetFiles()"
  then Response true (Some menu_files)
  else Response true (Some (JDict [])).

Definition client : api.APIClient := api.new "Bearer abc" (Some "pbx.example.com/").

(** No cache yet, and a stale file outside of it. *)
Definition live : world :=
  World ∅ {[ "notes.txt" := None ]}
    {[ "FQDN" := "pbx.example.com/"; "BEARER_TOKEN" := "Bearer abc" ]} answer.

(** A cache whose playlists do not parse. *)
Definition corrupt : world :=
  World {[ "output" ]}
    {[ "output/custom_prompts.json" := Some SampleWorld.prompts;
       "output/playlists.json" := None ]}
    ∅ answer.

(** The environment names no host. *)
Definition nameless : world :=
  World ∅ ∅ {[ "BEARER_TOKEN" := "abc" ]} (λ _ _, ConnectError).
End SampleServer.

(** A computation that leaves alone what is not below [dir]: the files,
    and the directories other than [dir] itself. *)
Definition keeps_outside (dir : string) {A} (m : io A) : Prop :=
  ∀ w t path,
    below dir path = false →
    files (m (w, t)).2.1 !! path = files w !! path
    ∧ (path ≠ dir → path ∈ dirs (m (w, t)).2.1 ↔ path ∈ dirs w).

Module SampleRun.
(** The call flow apps of the sample server, with their files. *)
Definition call_flow_apps : json :=
  JDict [("value",
          JList [JDict [("Id", JInt 7); ("Name", JStr "Menu");
                        ("Number", JStr "900");
                        ("Files", JList [JStr "menu.wav"])];
                 JDict [("Name", JStr "Draft"); ("Number", JStr "901");
                        ("Files", JList [])]])].

(** The live report against the sample server. *)
Definition live_report : result unit * (world * list event) :=
  @report_from_api Sample.repr SampleServer.client (SampleServer.live, []).
End SampleRun.

(** * Properties *)

(** ** Reasoning about the resolver monad *)

Lemma py_bind_Ok {A B} (m : py A) (k : A → py B) u r :
  py_bind m k u = Ok r → ∃ a u1, m u = Ok (a, u1) ∧ k a u1 = Ok r.
Proof.
  unfold py_bind. destruct (m u) as [[a u1]|e]; [eauto | discriminate].
Qed.

Lemma lift_Ok {A} (r : result A) u a u' :
  lift r u = Ok (a, u') → r = Ok a ∧ u' = u.
Proof. unfold lift. destruct r; naive_solver. Qed.

Lemma py_ret_Ok {A} (a b : A) u u' : py_ret a u = Ok (b, u') → b = a ∧ u' = u.
Proof. unfold py_ret. naive_solver. Qed.

Lemma py_get_Ok obj key dflt v :
  py_get obj key dflt = Ok v →
  ∃ kvs, obj = JDict kvs ∧ v = default dflt (assoc key kvs).
Proof. destruct obj; simpl; naive_solver. Qed.

(** Breaks a successful run of a sequence into the runs of its steps. *)
Ltac py_inv :=
  repeat match goal with
    | H : py_bind _ _ _ = Ok _ |- _ =>
        let a := fresh "a" in let u := fresh "u" in
        apply py_bind_Ok in H as (a & u & ? & ?)
    | H : lift _ _ = Ok _ |- _ => apply lift_Ok in H as [? ->]
    | H : py_ret _ _ = Ok _ |- _ => apply py_ret_Ok in H as [? ->]; subst
    | H : py_get ?o _ _ = Ok _ |- _ =>
        is_var o; destruct o; try discriminate H; simpl in H
    | H : py_get (JDict _) _ _ = Ok _ |- _ => simpl in H
    | H : Ok _ = Ok _ |- _ => injection H as ?; subst
    | a : unit |- _ => destruct a
    end.

(** ** Recording a list of references in the usages dict *)

Lemma record_app r1 r2 u : record (r1 ++ r2) u = record r2 (record r1 u).
Proof. apply foldl_app. Qed.

Lemma record_lookup refs (u : usages_t) fn :
  record refs u !! fn = (λ l, l ++ Spec.usage_record fn refs) <$> u !! fn.
Proof.
  unfold Spec.usage_record.
  revert u. induction refs as [|[k d] refs IH]; intros u; simpl.
  - destruct (u !! fn); simpl; by rewrite ?app_nil_r.
  - fold (record refs). rewrite IH, filter_cons. simpl.
    destruct (decide (k = fn)) as [->|Hne].
    + rewrite lookup_alter_eq. destruct (u !! fn); simpl; [|done].
      by rewrite <- app_assoc.
    + by rewrite lookup_alter_ne.
Qed.

Lemma usage_record_matching known fn refs :
  fn ∈ known →
  Spec.usage_record fn (Spec.matching known refs) = Spec.usage_record fn refs.
Proof.
  intros Hfn. unfold Spec.usage_record, Spec.matching. f_equal.
  induction refs as [|[k d] refs IH]; [done|].
  rewrite !filter_cons. simpl.
  destruct (decide (k ∈ known)), (decide (k = fn)); subst;
    rewrite ?filter_cons; simpl; rewrite ?decide_True, ?decide_False by done;
    try done; by f_equal.
Qed.

Lemma matching_app known r1 r2 :
  Spec.matching known (r1 ++ r2) = Spec.matching known r1 ++ Spec.matching known r2.
Proof. apply filter_app. Qed.

(** ** One guarded [add] is one recorded reference *)

Lemma add_str k text (u : usages_t) :
  add (JStr k) text u = Ok (tt, alter (λ l, l ++ [text]) k u).
Proof.
  unfold add, py_bind, get_usages, lift, py_in, when, append_to, py_ret.
  case_bool_decide as Hk.
  - apply elem_of_dom in Hk as [l Hl]. rewrite Hl. do 2 f_equal.
    apply map_eq. intros i. destruct (decide (k = i)) as [->|].
    + by rewrite lookup_insert_eq, lookup_alter_eq, Hl.
    + by rewrite lookup_insert_ne, lookup_alter_ne.
  - apply not_elem_of_dom in Hk. do 2 f_equal.
    apply map_eq. intros i. destruct (decide (k = i)) as [->|].
    + by rewrite lookup_alter_eq, Hk.
    + by rewrite lookup_alter_ne.
Qed.

Lemma and_in_true v known :
  and_in v known = Ok true →
  ∃ s, v = JStr s ∧ s ∈ known ∧ Spec.filename_of v = Some s.
Proof.
  unfold and_in. destruct (truthy v) eqn:Ht; [|discriminate].
  destruct v; simpl in *; try discriminate.
  intros [= Hin]. apply bool_decide_eq_true in Hin.
  exists s. split_and!; [done..|].
  by destruct (String.eqb s "").
Qed.

Lemma and_in_false v known d :
  and_in v known = Ok false → Spec.matching known (Spec.reference v d) = [].
Proof.
  unfold and_in, Spec.reference, Spec.filename_of, Spec.matching.
  destruct v; simpl; try done.
  destruct (String.eqb s ""); simpl; [done|].
  intros [= Hin]. apply bool_decide_eq_false in Hin.
  rewrite filter_cons. simpl. by rewrite decide_False.
Qed.

Lemma string_app_assoc (s1 s2 s3 : string) :
  (s1 +:+ s2) +:+ s3 = s1 +:+ s2 +:+ s3.
Proof.
  induction s1 as [|c s1 IH]; [done|].
  change (String c ((s1 +:+ s2) +:+ s3) = String c (s1 +:+ s2 +:+ s3)).
  by rewrite IH.
Qed.

(** ** The code's guarded accesses against safe field projection *)

Lemma field_py_or key c : Spec.field key (py_or c (JDict [])) = Spec.field key c.
Proof.
  unfold py_or. destruct (truthy c) eqn:Ht; [done|].
  destruct c as [| | | | | |[|kv kvs]]; simpl in *; done.
Qed.

Lemma py_get_field obj key v :
  py_get obj key JNull = Ok v → v = Spec.field key obj.
Proof. intros (kvs & -> & ->)%py_get_Ok. done. Qed.

Lemma bind_chars {B} (f : json → list B) s :
  (∀ x, f (JStr x) = []) → chars s ≫= f = [].
Proof.
  intros Hf. induction s as [|c s IH]; cbn [chars]; [done|].
  by rewrite bind_cons, Hf, IH.
Qed.

Lemma bind_keys {B} (f : json → list B) (kvs : list (string * json)) :
  (∀ x, f (JStr x) = []) → (JStr <$> kvs.*1) ≫= f = [].
Proof.
  intros Hf. induction kvs as [|kv kvs IH]; [done|].
  by rewrite !fmap_cons, bind_cons, Hf, IH.
Qed.

(** The elements a loop visits are the members of the list, as far as a
    body that finds nothing in a string can tell. *)
Lemma py_iter_members {B} (f : json → list B) value items :
  py_iter value = Ok items → (∀ x, f (JStr x) = []) →
  items ≫= f = Spec.members value ≫= f.
Proof.
  intros Hiter Hf. destruct value; simpl in *; try discriminate;
    injection Hiter as <-; auto using bind_chars, bind_keys.
Qed.

Lemma py_get_members {B} (f : json → list B) obj key value items :
  py_get obj key (JList []) = Ok value → py_iter value = Ok items →
  (∀ x, f (JStr x) = []) →
  items ≫= f = Spec.members (Spec.field key obj) ≫= f.
Proof.
  intros (kvs & -> & ->)%py_get_Ok Hiter Hf. simpl.
  destruct (assoc key kvs) as [v|]; simpl in *.
  - by apply py_iter_members.
  - by injection Hiter as <-.
Qed.

Lemma py_get_route obj key route key' :
  py_get obj key (JDict []) = Ok route →
  Spec.field key' (py_or route (JDict [])) = Spec.field key' (Spec.field key obj).
Proof.
  intros (kvs & -> & ->)%py_get_Ok. rewrite field_py_or. simpl.
  by destruct (assoc key kvs).
Qed.

Lemma py_items_refs `{PyRepr} settings items :
  py_items (py_or settings (JDict [])) = Ok items →
  items ≫= (λ kv, Spec.reference kv.2 ("MusicOnHold setting (" +:+ kv.1 +:+ ")"))
  = Spec.music_on_hold_refs settings.
Proof.
  unfold py_or. destruct (truthy settings) eqn:Ht.
  - destruct settings; simpl; try discriminate. by intros [= <-].
  - intros [= <-]. by destruct settings as [| | | | | |[|kv kvs]].
Qed.

Section characterisation.
Context {repr : PyRepr}.
Variable known : gset string.

Lemma describe_Ok prefix item text u u' :
  describe prefix item u = Ok (text, u') →
  text = prefix +:+ Spec.label item ∧ u' = u.
Proof.
  unfold describe. intros Hrun. by py_inv.
Qed.

Lemma check_add_Ok v prefix item u u' :
  check_add known v prefix item u = Ok (tt, u') →
  u' = record (Spec.matching known
                 (Spec.reference v (prefix +:+ Spec.label item))) u.
Proof.
  unfold check_add. intros Hrun.
  apply py_bind_Ok in Hrun as (c & u1 & Hc & Hrun).
  apply lift_Ok in Hc as [Hc ->]. destruct c; simpl in Hrun.
  - apply and_in_true in Hc as (s & -> & Hin & Hfn).
    apply py_bind_Ok in Hrun as (text & u1 & Htext & Hrun).
    apply describe_Ok in Htext as [-> ->].
    rewrite add_str in Hrun. injection Hrun as <-.
    unfold Spec.reference, Spec.matching. rewrite Hfn, filter_cons. simpl.
    by rewrite decide_True.
  - py_inv. by erewrite and_in_false.
Qed.

Lemma guarded_add_Ok v text u u' :
  (c <- lift (and_in v known) ;; when c (add v text)) u = Ok (tt, u') →
  u' = record (Spec.matching known (Spec.reference v text)) u.
Proof.
  intros Hrun.
  apply py_bind_Ok in Hrun as (c & u1 & Hc & Hrun).
  apply lift_Ok in Hc as [Hc ->]. destruct c; simpl in Hrun.
  - apply and_in_true in Hc as (s & -> & Hin & Hfn).
    rewrite add_str in Hrun. injection Hrun as <-.
    unfold Spec.reference, Spec.matching. rewrite Hfn, filter_cons. simpl.
    by rewrite decide_True.
  - py_inv. by erewrite and_in_false.
Qed.

(** A loop whose body records [f x] records the concatenation. *)
Lemma for_each_Ok {A} (l : list A) (body : A → py unit)
    (f : A → list (string * string)) :
  (∀ x u u', x ∈ l → body x u = Ok (tt, u') → u' = record (Spec.matching known (f x)) u) →
  ∀ u u', for_each l body u = Ok (tt, u') →
  u' = record (Spec.matching known (l ≫= f)) u.
Proof.
  induction l as [|x l IH]; intros Hbody u u' Hrun; simpl in *.
  - by py_inv.
  - apply py_bind_Ok in Hrun as ([] & u1 & Hx & Hrun).
    rewrite matching_app, record_app.
    apply Hbody in Hx as ->; [|set_solver].
    apply IH in Hrun; [done|]. intros; apply Hbody; [set_solver|done].
Qed.

Lemma scan_routes_Ok kind keys item u u' :
  scan_routes known kind keys item u = Ok (tt, u') →
  u' = record (Spec.matching known
         (keys ≫= λ route,
            Spec.reference (Spec.field "Prompt" (Spec.field route item))
              (kind +:+ route +:+ ": " +:+ Spec.label item))) u.
Proof.
  unfold scan_routes. apply for_each_Ok. clear u u'.
  intros rkey u u' _ Hrun.
  apply py_bind_Ok in Hrun as (route & u1 & Hroute & Hrun).
  apply lift_Ok in Hroute as [Hroute ->].
  apply py_bind_Ok in Hrun as (prompt & u1 & Hprompt & Hrun).
  apply lift_Ok in Hprompt as [Hprompt ->].
  apply py_get_field in Hprompt as ->.
  apply check_add_Ok in Hrun as ->.
  rewrite (py_get_route _ _ _ _ Hroute).
  by rewrite !string_app_assoc.
Qed.

Lemma scan_receptionists_Ok receptionists u u' :
  scan_receptionists known receptionists u = Ok (tt, u') →
  u' = record (Spec.matching known
         (Spec.entities receptionists ≫= Spec.receptionist_refs)) u.
Proof.
  unfold scan_receptionists. intros Hrun.
  apply py_bind_Ok in Hrun as (value & u1 & Hvalue & Hrun).
  apply lift_Ok in Hvalue as [Hvalue ->].
  apply py_bind_Ok in Hrun as (items & u1 & Hitems & Hrun).
  apply lift_Ok in Hitems as [Hitems ->].
  unfold Spec.entities. rewrite <- (field_py_or _ receptionists).
  rewrite <- (py_get_members _ _ _ _ _ Hvalue Hitems) by done.
  revert Hrun. apply for_each_Ok. clear.
  intros item u u' _ Hrun.
  apply py_bind_Ok in Hrun as (filename & u1 & Hfilename & Hrun).
  apply lift_Ok in Hfilename as [Hfilename ->].
  apply py_bind_Ok in Hrun as ([] & u1 & Hdirect & Hrun).
  apply py_bind_Ok in Hrun as (forwards & u2 & Hforwards & Hrun).
  apply lift_Ok in Hforwards as [Hforwards ->].
  apply py_bind_Ok in Hrun as (fwds & u2 & Hfwds & Hrun).
  apply lift_Ok in Hfwds as [Hfwds ->].
  apply py_get_field in Hfilename as ->.
  apply check_add_Ok in Hdirect as ->.
  unfold Spec.receptionist_refs. rewrite matching_app, record_app.
  rewrite <- (py_get_members _ _ _ _ _ Hforwards Hfwds) by done.
  revert Hrun. apply for_each_Ok.
  intros forward v v' _ Hrun.
  apply py_bind_Ok in Hrun as (custom_data & v1 & Hcd & Hrun).
  apply lift_Ok in Hcd as [Hcd ->].
  apply py_get_field in Hcd as ->.
  by apply check_add_Ok in Hrun.
Qed.

Lemma scan_queues_Ok queues u u' :
  scan_queues known queues u = Ok (tt, u') →
  u' = record (Spec.matching known
         (Spec.entities queues ≫= Spec.queue_refs)) u.
Proof.
  unfold scan_queues. intros Hrun.
  apply py_bind_Ok in Hrun as (value & u1 & Hvalue & Hrun).
  apply lift_Ok in Hvalue as [Hvalue ->].
  apply py_bind_Ok in Hrun as (items & u1 & Hitems & Hrun).
  apply lift_Ok in Hitems as [Hitems ->].
  unfold Spec.entities. rewrite <- (field_py_or _ queues).
  rewrite <- (py_get_members _ _ _ _ _ Hvalue Hitems) by done.
  revert Hrun. apply for_each_Ok. clear.
  intros item u u' _ Hrun.
  apply py_bind_Ok in Hrun as ([] & u1 & Hfiles & Hroutes).
  unfold Spec.queue_refs. rewrite matching_app, record_app.
  apply scan_routes_Ok in Hroutes as ->. f_equal.
  revert Hfiles. apply for_each_Ok.
  intros key v v' _ Hrun.
  apply py_bind_Ok in Hrun as (value & v1 & Hvalue & Hrun).
  apply lift_Ok in Hvalue as [Hvalue ->].
  apply py_get_field in Hvalue as ->.
  apply check_add_Ok in Hrun as ->.
  by rewrite !string_app_assoc.
Qed.

Lemma scan_groups_Ok groups u u' :
  scan_groups known groups u = Ok (tt, u') →
  u' = record (Spec.matching known
         (Spec.entities groups ≫= Spec.group_refs)) u.
Proof.
  unfold scan_groups. intros Hrun.
  apply py_bind_Ok in Hrun as (value & u1 & Hvalue & Hrun).
  apply lift_Ok in Hvalue as [Hvalue ->].
  apply py_bind_Ok in Hrun as (items & u1 & Hitems & Hrun).
  apply lift_Ok in Hitems as [Hitems ->].
  unfold Spec.entities. rewrite <- (field_py_or _ groups).
  rewrite <- (py_get_members _ _ _ _ _ Hvalue Hitems) by done.
  revert Hrun. apply for_each_Ok. clear.
  intros item u u' _ Hrun. by apply scan_routes_Ok in Hrun.
Qed.

Lemma scan_music_on_hold_Ok settings u u' :
  scan_music_on_hold known settings u = Ok (tt, u') →
  u' = record (Spec.matching known (Spec.music_on_hold_refs settings)) u.
Proof.
  unfold scan_music_on_hold. intros Hrun.
  apply py_bind_Ok in Hrun as (items & u1 & Hitems & Hrun).
  apply lift_Ok in Hitems as [Hitems ->].
  rewrite <- (py_items_refs _ _ Hitems).
  revert Hrun. apply for_each_Ok.
  intros [key value] v v' _ Hrun. by apply guarded_add_Ok in Hrun.
Qed.

Lemma scan_setting_Ok settings text u u' :
  scan_setting known settings text u = Ok (tt, u') →
  u' = record (Spec.matching known (Spec.setting_refs settings text)) u.
Proof.
  unfold scan_setting. intros Hrun.
  apply py_bind_Ok in Hrun as (moh & u1 & Hmoh & Hrun).
  apply lift_Ok in Hmoh as [Hmoh ->].
  apply py_get_field in Hmoh as ->. rewrite field_py_or in Hrun.
  by apply guarded_add_Ok in Hrun.
Qed.

(** The whole scan records exactly the matching references, in order. *)
Lemma scan_all_Ok r q g m c p u u' :
  scan_all known r q g m c p u = Ok (tt, u') →
  u' = record (Spec.matching known (Spec.references r q g m c p)) u.
Proof.
  unfold scan_all, Spec.references. intros Hrun.
  apply py_bind_Ok in Hrun as ([] & u1 & ->%scan_receptionists_Ok & Hrun).
  apply py_bind_Ok in Hrun as ([] & u2 & ->%scan_queues_Ok & Hrun).
  apply py_bind_Ok in Hrun as ([] & u3 & ->%scan_groups_Ok & Hrun).
  apply py_bind_Ok in Hrun as ([] & u4 & ->%scan_music_on_hold_Ok & Hrun).
  apply py_bind_Ok in Hrun as ([] & u5 & ->%scan_setting_Ok & Hrun).
  apply scan_setting_Ok in Hrun as ->.
  by rewrite !matching_app, !record_app.
Qed.

(** What a successful call returns, entry by entry. *)
Lemma gather_lookup r q g m c p usages fn :
  gather_prompt_usages known r q g m c p = Ok usages →
  usages !! fn =
    if decide (fn ∈ known ∧ Spec.usage_record fn (Spec.references r q g m c p) ≠ [])
    then Some (Spec.usage_record fn (Spec.references r q g m c p))
    else None.
Proof.
  unfold gather_prompt_usages.
  destruct (scan_all _ _ _ _ _ _ _ _) as [[[] u']|e] eqn:Hscan; [|done].
  intros [= <-]. apply scan_all_Ok in Hscan as ->.
  set (refs := Spec.references r q g m c p).
  destruct (decide _) as [[Hfn Hne]|Hno].
  - apply map_lookup_filter_Some. rewrite record_lookup, lookup_gset_to_gmap.
    rewrite option_guard_True by done. simpl.
    by rewrite usage_record_matching.
  - apply map_lookup_filter_None. rewrite record_lookup, lookup_gset_to_gmap.
    destruct (decide (fn ∈ known)) as [Hfn|Hfn].
    + right. intros l. rewrite option_guard_True by done. simpl.
      rewrite usage_record_matching by done. intros [= <-] Hl.
      apply Hno. done.
    + left. by rewrite option_guard_False.
Qed.
End characterisation.

(** ** The usage map *)

Section usage_map.
Context {repr : PyRepr}.
Implicit Types (known : gset string) (usages : gmap string (list string)).

Lemma reference_nonempty v d r : r ∈ Spec.reference v d → r.1 ≠ "".
Proof.
  unfold Spec.reference, Spec.filename_of.
  destruct v; try by intros ?%elem_of_nil.
  destruct (String.eqb s "") eqn:Hs; [by intros ?%elem_of_nil|].
  intros ->%list_elem_of_singleton. simpl. intros ->. done.
Qed.

Lemma music_on_hold_refs_nonempty m ref :
  ref ∈ Spec.music_on_hold_refs m → ref.1 ≠ "".
Proof.
  destruct m; try by intros ?%elem_of_nil.
  intros (kv & Hin & _)%list_elem_of_bind. by eapply reference_nonempty.
Qed.

Lemma references_nonempty r q g m c p ref :
  ref ∈ Spec.references r q g m c p → ref.1 ≠ "".
Proof.
  unfold Spec.references, Spec.receptionist_refs, Spec.queue_refs,
    Spec.group_refs, Spec.setting_refs.
  rewrite !elem_of_app. intros Hin.
  repeat match goal with
    | H : _ ∨ _ |- _ => destruct H
    | H : _ ∈ _ ≫= _ |- _ => apply list_elem_of_bind in H as (? & H & _)
    | H : _ ∈ _ ++ _ |- _ => apply elem_of_app in H
    | H : _ ∈ Spec.reference _ _ |- _ => by apply reference_nonempty in H
    | H : _ ∈ Spec.music_on_hold_refs _ |- _ =>
        by apply music_on_hold_refs_nonempty in H
    end.
Qed.

Lemma usage_record_app fn r1 r2 :
  Spec.usage_record fn (r1 ++ r2)
  = Spec.usage_record fn r1 ++ Spec.usage_record fn r2.
Proof. unfold Spec.usage_record. by rewrite filter_app, fmap_app. Qed.

Lemma elem_of_usage_record fn d refs :
  d ∈ Spec.usage_record fn refs ↔ (fn, d) ∈ refs.
Proof.
  unfold Spec.usage_record. rewrite list_elem_of_fmap. split.
  - intros ([k d'] & -> & [Hk Hin]%list_elem_of_filter). simpl in *. by subst.
  - intros Hin. exists (fn, d). split; [done|].
    by apply list_elem_of_filter.
Qed.

(** C1: the keys of the returned map are exactly the known filenames whose
    usage list is not empty; a known filename without a matching reference
    is absent, no list in the map is empty, and every key is known. *)
Theorem gather_keys known r q g m c p usages :
  gather_prompt_usages known r q g m c p = Ok usages →
  dom usages
    = filter (λ fn, Spec.usage_record fn (Spec.references r q g m c p) ≠ [])
        known
  ∧ (∀ fn, fn ∈ known →
       length (filter (λ ref, ref.1 = fn) (Spec.references r q g m c p)) = 0 →
       usages !! fn = None)
  ∧ (∀ fn l, usages !! fn = Some l → l ≠ [])
  ∧ dom usages ⊆ known.
Proof.
  intros Hrun.
  pose proof (λ fn, gather_lookup known r q g m c p usages fn Hrun) as Hl.
  split_and!.
  - apply set_eq. intros fn.
    rewrite elem_of_dom, elem_of_filter, Hl.
    destruct (decide _) as [[? ?]|Hno]; [by split; eauto|].
    split; [by intros [? ?]|]. intros [? ?]. by destruct Hno.
  - intros fn Hfn Hzero. rewrite Hl. apply decide_False. intros [_ Hne].
    apply Hne. unfold Spec.usage_record.
    by apply nil_length_inv in Hzero as ->.
  - intros fn l. rewrite Hl. destruct (decide _) as [[? ?]|]; [|done].
    by intros [= <-].
  - intros fn. rewrite elem_of_dom, Hl.
    destruct (decide _) as [[? ?]|]; [done|]. by intros [? ?].
Qed.

(** C2: for a known filename with at least one matching reference, the
    usage list has one entry per matching reference and lists them in scan
    order: receptionists, queues, groups, music on hold, conference, call
    parking. *)
Theorem gather_usage_list known r q g m c p usages fn :
  gather_prompt_usages known r q g m c p = Ok usages →
  fn ∈ known →
  Spec.usage_record fn (Spec.references r q g m c p) ≠ [] →
  ∃ l, usages !! fn = Some l
    ∧ length l
      = length (filter (λ ref, ref.1 = fn) (Spec.references r q g m c p))
    ∧ l = Spec.usage_record fn (Spec.entities r ≫= Spec.receptionist_refs)
          ++ Spec.usage_record fn (Spec.entities q ≫= Spec.queue_refs)
          ++ Spec.usage_record fn (Spec.entities g ≫= Spec.group_refs)
          ++ Spec.usage_record fn (Spec.music_on_hold_refs m)
          ++ Spec.usage_record fn
               (Spec.setting_refs c "Conference: MusicOnHold")
          ++ Spec.usage_record fn
               (Spec.setting_refs p "CallParking: MusicOnHold").
Proof.
  intros Hrun Hfn Hne. eexists. split_and!.
  - rewrite (gather_lookup _ _ _ _ _ _ _ _ _ Hrun). by apply decide_True.
  - unfold Spec.usage_record. by rewrite length_fmap.
  - unfold Spec.references. by rewrite !usage_record_app.
Qed.

(** C5: a filename outside the known set is no key of the returned map,
    and the map is the one that results when the references to that
    filename are left out: they reach no usage list. *)
Theorem gather_unknown_ignored known r q g m c p usages fn :
  gather_prompt_usages known r q g m c p = Ok usages →
  fn ∉ known →
  usages !! fn = None
  ∧ ∀ k, usages !! k =
      let others :=
        filter (λ ref, ref.1 ≠ fn) (Spec.references r q g m c p) in
      if decide (k ∈ known ∧ Spec.usage_record k others ≠ [])
      then Some (Spec.usage_record k others) else None.
Proof.
  intros Hrun Hfn.
  pose proof (λ fn, gather_lookup known r q g m c p usages fn Hrun) as Hl.
  split.
  - rewrite Hl. apply decide_False. by intros [? _].
  - intros k. simpl. rewrite Hl.
    destruct (decide (k ∈ known)) as [Hk|Hk].
    + assert (∀ refs, Spec.usage_record k (filter (λ ref, ref.1 ≠ fn) refs)
                      = Spec.usage_record k refs) as ->; [|done].
      intros refs. unfold Spec.usage_record. f_equal.
      induction refs as [|[k' d] refs IH]; [done|].
      rewrite !filter_cons. simpl.
      destruct (decide (k' ≠ fn)) as [?|Heq].
      * rewrite filter_cons. simpl. by rewrite IH.
      * rewrite IH. rewrite decide_False; [done|].
        intros ->. apply Heq. by intros ->.
    + rewrite !decide_False; [done|by intros [? _]..].
Qed.

(** C10: the empty string is never a key of the returned map, whether or
    not it is a member of the known set. *)
Theorem gather_no_empty_key known r q g m c p usages :
  gather_prompt_usages known r q g m c p = Ok usages →
  usages !! "" = None.
Proof.
  intros Hrun. rewrite (gather_lookup _ _ _ _ _ _ _ _ _ Hrun).
  apply decide_False. intros [_ Hne].
  destruct (Spec.usage_record "" _) as [|d l] eqn:Hrec; [done|].
  assert (d ∈ Spec.usage_record "" (Spec.references r q g m c p)) as Hd
    by (rewrite Hrec; left).
  apply elem_of_usage_record, references_nonempty in Hd. done.
Qed.
End usage_map.

(** ** Scenarios *)

Section scenarios.
Context {repr : PyRepr}.

(** C6: with the known filenames welcome.wav and hold.wav, one
    receptionist 100 Main playing welcome.wav and one queue 800 Support
    holding with hold.wav, the resolver returns exactly the two usage
    lists of the specification's scenario. *)
Theorem gather_scenario :
  gather_prompt_usages Sample.known Sample.receptionists Sample.queues
    Sample.empty Sample.empty Sample.empty Sample.empty
  = Ok Sample.usages.
Proof. vm_compute. reflexivity. Qed.

Lemma assoc_field key kvs v :
  assoc key kvs = Some v → Spec.field key (JDict kvs) = v.
Proof. simpl. by intros ->. Qed.

(** C7: when a queue's BreakRoute.Prompt and a music-on-hold setting both
    name hold.wav, and hold.wav is known, the usage list of hold.wav holds
    both descriptions, the queue route's before the setting's. *)
Theorem gather_route_before_music_on_hold
    known r queues g settings c p usages items queue route key :
  gather_prompt_usages known r (JDict queues) g (JDict settings) c p
    = Ok usages →
  "hold.wav" ∈ known →
  assoc "value" queues = Some (JList items) →
  JDict queue ∈ items →
  assoc "BreakRoute" queue = Some (JDict route) →
  assoc "Prompt" route = Some (JStr "hold.wav") →
  (key, JStr "hold.wav") ∈ settings →
  ∃ l before between after,
    usages !! "hold.wav" = Some l
    ∧ l = before
          ++ ["Queue route BreakRoute: " +:+ Spec.label (JDict queue)]
          ++ between
          ++ ["MusicOnHold setting (" +:+ key +:+ ")"]
          ++ after.
Proof.
  intros Hrun Hknown Hvalue Hqueue Hroute Hprompt Hkey.
  set (dq := "Queue route BreakRoute: " +:+ Spec.label (JDict queue)).
  set (dm := "MusicOnHold setting (" +:+ key +:+ ")").
  assert (dq ∈ Spec.usage_record "hold.wav"
                 (Spec.entities (JDict queues) ≫= Spec.queue_refs)) as Hq.
  { apply elem_of_usage_record, list_elem_of_bind. exists (JDict queue).
    split; [|by unfold Spec.entities; rewrite (assoc_field _ _ _ Hvalue)].
    unfold Spec.queue_refs. apply elem_of_app. right.
    apply list_elem_of_bind. exists "BreakRoute". split; [|set_solver].
    rewrite (assoc_field _ _ _ Hroute), (assoc_field _ _ _ Hprompt).
    apply list_elem_of_singleton. done. }
  assert (dm ∈ Spec.usage_record "hold.wav"
                 (Spec.music_on_hold_refs (JDict settings))) as Hm.
  { apply elem_of_usage_record, list_elem_of_bind. exists (key, JStr "hold.wav").
    split; [|done]. apply list_elem_of_singleton. done. }
  apply list_elem_of_split in Hq as (q1 & q2 & Hq).
  apply list_elem_of_split in Hm as (m1 & m2 & Hm).
  exists (Spec.usage_record "hold.wav"
            (Spec.references r (JDict queues) g (JDict settings) c p)).
  exists (Spec.usage_record "hold.wav"
            (Spec.entities r ≫= Spec.receptionist_refs) ++ q1).
  exists (q2 ++ Spec.usage_record "hold.wav"
                  (Spec.entities g ≫= Spec.group_refs) ++ m1).
  exists (m2 ++ Spec.usage_record "hold.wav"
                  (Spec.setting_refs c "Conference: MusicOnHold")
             ++ Spec.usage_record "hold.wav"
                  (Spec.setting_refs p "CallParking: MusicOnHold")).
  assert (Spec.usage_record "hold.wav"
            (Spec.references r (JDict queues) g (JDict settings) c p)
          = (Spec.usage_record "hold.wav"
               (Spec.entities r ≫= Spec.receptionist_refs) ++ q1)
            ++ [dq]
            ++ (q2 ++ Spec.usage_record "hold.wav"
                        (Spec.entities g ≫= Spec.group_refs) ++ m1)
            ++ [dm]
            ++ m2 ++ Spec.usage_record "hold.wav"
                       (Spec.setting_refs c "Conference: MusicOnHold")
                  ++ Spec.usage_record "hold.wav"
                       (Spec.setting_refs p "CallParking: MusicOnHold"))
    as Hsplit.
  { unfold Spec.references. rewrite !usage_record_app, Hq, Hm.
    simpl. by rewrite <- !app_assoc. }
  split; [|done].
  rewrite (gather_lookup _ _ _ _ _ _ _ _ _ Hrun). apply decide_True.
  split; [done|]. rewrite Hsplit. intros Hnil.
  apply (f_equal length) in Hnil. rewrite !length_app in Hnil.
  simpl in Hnil. lia.
Qed.

(** C3: a receptionist whose [Forwards] is null makes the resolver raise
    [TypeError]: the loop of line 42 iterates over [None]. *)
Theorem gather_null_forwards_raises :
  gather_prompt_usages Sample.known Sample.null_forwards Sample.empty
    Sample.empty Sample.empty Sample.empty Sample.empty
  = Raise TypeError.
Proof. vm_compute. reflexivity. Qed.

(** The sibling access of lines 58 and 67 is guarded: a null route is no
    reference and no error. *)
Lemma gather_null_route_tolerated :
  gather_prompt_usages Sample.known Sample.empty Sample.null_route
    Sample.empty Sample.empty Sample.empty Sample.empty
  = Ok {[ "hold.wav" := ["Queue OnHoldFile: 800 Support"] ]}.
Proof. vm_compute. reflexivity. Qed.
End scenarios.

(** ** Missing collections and lenient shapes *)

Lemma py_bind_lift {A B} (r : result A) (a : A) (k : A → py B) u :
  r = Ok a → py_bind (lift r) k u = k a u.
Proof. by intros ->. Qed.

Lemma py_bind_unit {B} (m : py unit) (k : unit → py B) u u' :
  m u = Ok (tt, u') → py_bind m k u = k tt u'.
Proof. unfold py_bind. by intros ->. Qed.

Lemma for_each_total {A} (l : list A) (body : A → py unit) :
  (∀ x u, x ∈ l → ∃ u', body x u = Ok (tt, u')) →
  ∀ u, ∃ u', for_each l body u = Ok (tt, u').
Proof.
  induction l as [|x l IH]; intros Hbody u; simpl.
  - by eexists.
  - destruct (Hbody x u) as [u1 Hx]; [left|].
    rewrite (py_bind_unit _ _ _ _ Hx). apply IH.
    intros y v Hy. apply Hbody. by right.
Qed.

Lemma and_in_optional v known :
  optional_string v = true → ∃ b, and_in v known = Ok b ∧ (b = true → ∃ s, v = JStr s).
Proof.
  unfold and_in. destruct v; try done; simpl; intros _.
  - by exists false.
  - destruct (negb _); eauto.
Qed.

Lemma absent_py_or collection :
  absent collection = true → py_or collection (JDict []) = JDict [].
Proof. unfold absent, py_or. by destruct (truthy collection). Qed.

Lemma present_py_or collection :
  absent collection = false → py_or collection (JDict []) = collection.
Proof. unfold absent, py_or. by destruct (truthy collection). Qed.

Section total.
Context {repr : PyRepr}.
Variable known : gset string.

Lemma check_add_total v prefix kvs u :
  optional_string v = true →
  ∃ u', check_add known v prefix (JDict kvs) u = Ok (tt, u').
Proof.
  intros (b & Hb & Hstr)%(and_in_optional _ known).
  unfold check_add. rewrite (py_bind_lift _ _ _ _ Hb).
  destruct b; simpl; [|by eexists].
  destruct Hstr as [s ->]; [done|].
  unfold describe, py_bind at 1. simpl. rewrite add_str. by eexists.
Qed.

Lemma guarded_add_total v text u :
  optional_string v = true →
  ∃ u', (c <- lift (and_in v known) ;; when c (add v text)) u = Ok (tt, u').
Proof.
  intros (b & Hb & Hstr)%(and_in_optional _ known).
  rewrite (py_bind_lift _ _ _ _ Hb).
  destruct b; simpl; [|by eexists].
  destruct Hstr as [s ->]; [done|]. rewrite add_str. by eexists.
Qed.

Lemma route_prompt_total key kvs :
  wf_route key (JDict kvs) = true →
  ∃ route prompt,
    py_get (JDict kvs) key (JDict []) = Ok route
    ∧ py_get (py_or route (JDict [])) "Prompt" JNull = Ok prompt
    ∧ optional_string prompt = true.
Proof.
  unfold wf_route. simpl.
  destruct (assoc key kvs) as [[| | | | | |[|kv route]]|]; simpl; try done;
    intros Hwf; eexists _, _; split_and!; try done.
Qed.

Lemma scan_routes_total kind keys kvs u :
  forallb (λ key, wf_route key (JDict kvs)) keys = true →
  ∃ u', scan_routes known kind keys (JDict kvs) u = Ok (tt, u').
Proof.
  intros Hwf. apply for_each_total. intros key v Hkey.
  rewrite forallb_forall in Hwf.
  destruct (route_prompt_total key kvs) as (route & prompt & Hr & Hp & Hok).
  { apply Hwf. by apply list_elem_of_In. }
  rewrite (py_bind_lift _ _ _ _ Hr), (py_bind_lift _ _ _ _ Hp).
  by apply check_add_total.
Qed.

(** The entities a well-formed collection is scanned for. *)
Lemma collection_items wf_entity collection :
  wf_collection wf_entity collection = true →
  ∃ value items,
    py_get (py_or collection (JDict [])) "value" (JList []) = Ok value
    ∧ py_iter value = Ok items
    ∧ ∀ x, x ∈ items → wf_entity x = true.
Proof.
  unfold wf_collection. destruct (absent collection) eqn:Habs; simpl.
  - intros _. rewrite absent_py_or by done. exists (JList []), [].
    split_and!; [done..|]. by intros x ?%elem_of_nil.
  - rewrite present_py_or by done. unfold optional_list.
    destruct collection as [| | | | | |kvs]; try done. simpl.
    destruct (assoc "value" kvs) as [[| | | | |l|]|]; try done; simpl.
    + intros Hall. exists (JList l), l. split_and!; [done..|].
      intros x Hx. rewrite forallb_forall in Hall.
      by apply Hall, list_elem_of_In.
    + intros _. exists (JList []), []. split_and!; [done..|].
      by intros x ?%elem_of_nil.
Qed.

Lemma scan_receptionists_total receptionists u :
  wf_collection wf_receptionist receptionists = true →
  ∃ u', scan_receptionists known receptionists u = Ok (tt, u').
Proof.
  intros (value & items & Hvalue & Hitems & Hwf)%collection_items.
  unfold scan_receptionists.
  rewrite (py_bind_lift _ _ _ _ Hvalue), (py_bind_lift _ _ _ _ Hitems).
  apply for_each_total. intros item v Hitem. apply Hwf in Hitem.
  unfold wf_receptionist in Hitem.
  apply andb_prop in Hitem as [[Hdict Hfile]%andb_prop Hfwds].
  destruct item as [| | | | | |kvs]; try done.
  rewrite (py_bind_lift _ (Spec.field "PromptFilename" (JDict kvs))) by done.
  destruct (check_add_total (Spec.field "PromptFilename" (JDict kvs))
              "Receptionist: " kvs v Hfile) as [v1 Hdirect].
  rewrite (py_bind_unit _ _ _ _ Hdirect).
  unfold optional_list in Hfwds.
  assert (∃ fwds, (forwards <- lift (py_get (JDict kvs) "Forwards" (JList [])) ;;
                   lift (py_iter forwards)) v1 = Ok (fwds, v1)
                  ∧ ∀ x, x ∈ fwds → wf_forward x = true)
    as (fwds & Hrun & Hall).
  { unfold py_bind. simpl.
    destruct (assoc "Forwards" kvs) as [[| | | | |l|]|]; try done; simpl.
    - exists l. split; [done|]. intros x Hx.
      rewrite forallb_forall in Hfwds. by apply Hfwds, list_elem_of_In.
    - exists []. split; [done|]. by intros x ?%elem_of_nil. }
  unfold py_bind at 1 2. unfold py_bind in Hrun.
  destruct (lift (py_get (JDict kvs) "Forwards" (JList [])) v1)
    as [[forwards v2]|] eqn:Hforwards; [|done].
  destruct (lift (py_iter forwards) v2) as [[fwds' v3]|]; [|done].
  injection Hrun as -> ->.
  apply for_each_total. intros forward w Hfwd. apply Hall in Hfwd.
  unfold wf_forward in Hfwd. apply andb_prop in Hfwd as [Hd Hcd].
  destruct forward as [| | | | | |fkvs]; try done.
  rewrite (py_bind_lift _ (Spec.field "CustomData" (JDict fkvs))) by done.
  by apply check_add_total.
Qed.

Lemma scan_queues_total queues u :
  wf_collection wf_queue queues = true →
  ∃ u', scan_queues known queues u = Ok (tt, u').
Proof.
  intros (value & items & Hvalue & Hitems & Hwf)%collection_items.
  unfold scan_queues.
  rewrite (py_bind_lift _ _ _ _ Hvalue), (py_bind_lift _ _ _ _ Hitems).
  apply for_each_total. intros item v Hitem. apply Hwf in Hitem.
  unfold wf_queue in Hitem.
  apply andb_prop in Hitem as [[Hdict Hfiles]%andb_prop Hroutes].
  destruct item as [| | | | | |kvs]; try done.
  destruct (for_each_total queue_file_keys
              (λ key, value <- lift (py_get (JDict kvs) key JNull) ;;
                      check_add known value ("Queue " +:+ key +:+ ": ")
                        (JDict kvs))) with (u := v) as [v1 Hdirect].
  { intros key w Hkey.
    rewrite (py_bind_lift _ (Spec.field key (JDict kvs))) by done.
    apply check_add_total. rewrite forallb_forall in Hfiles.
    by apply Hfiles, list_elem_of_In. }
  rewrite (py_bind_unit _ _ _ _ Hdirect).
  by apply scan_routes_total.
Qed.

Lemma scan_groups_total groups u :
  wf_collection wf_group groups = true →
  ∃ u', scan_groups known groups u = Ok (tt, u').
Proof.
  intros (value & items & Hvalue & Hitems & Hwf)%collection_items.
  unfold scan_groups.
  rewrite (py_bind_lift _ _ _ _ Hvalue), (py_bind_lift _ _ _ _ Hitems).
  apply for_each_total. intros item v Hitem. apply Hwf in Hitem.
  unfold wf_group in Hitem. apply andb_prop in Hitem as [Hdict Hroutes].
  destruct item as [| | | | | |kvs]; try done.
  by apply scan_routes_total.
Qed.

Lemma scan_music_on_hold_total settings u :
  wf_music_on_hold settings = true →
  ∃ u', scan_music_on_hold known settings u = Ok (tt, u').
Proof.
  unfold wf_music_on_hold, scan_music_on_hold.
  destruct (absent settings) eqn:Habs; simpl.
  - intros _. rewrite absent_py_or by done. by eexists.
  - rewrite present_py_or by done.
    destruct settings as [| | | | | |kvs]; try done. intros Hall.
    rewrite (py_bind_lift _ kvs) by done.
    apply for_each_total. intros [key value] v Hkv.
    apply guarded_add_total. rewrite forallb_forall in Hall.
    by apply (Hall (key, value)), list_elem_of_In.
Qed.

Lemma scan_setting_total settings text u :
  wf_setting settings = true →
  ∃ u', scan_setting known settings text u = Ok (tt, u').
Proof.
  unfold wf_setting, scan_setting.
  destruct (absent settings) eqn:Habs; simpl.
  - intros _. rewrite absent_py_or by done. by eexists.
  - rewrite present_py_or by done.
    intros [Hdict Hmoh]%andb_prop.
    destruct settings as [| | | | | |kvs]; try done.
    rewrite (py_bind_lift _ (Spec.field "MusicOnHold" (JDict kvs))) by done.
    by apply guarded_add_total.
Qed.

(** A missing collection is scanned as the collection of zero entities. *)
Lemma scan_receptionists_absent c :
  scan_receptionists known (or_no_entities c) = scan_receptionists known c.
Proof.
  unfold or_no_entities. destruct (absent c) eqn:Habs; [|done].
  unfold scan_receptionists. rewrite (absent_py_or c) by done. reflexivity.
Qed.

Lemma scan_queues_absent c :
  scan_queues known (or_no_entities c) = scan_queues known c.
Proof.
  unfold or_no_entities. destruct (absent c) eqn:Habs; [|done].
  unfold scan_queues. rewrite (absent_py_or c) by done. reflexivity.
Qed.

Lemma scan_groups_absent c :
  scan_groups known (or_no_entities c) = scan_groups known c.
Proof.
  unfold or_no_entities. destruct (absent c) eqn:Habs; [|done].
  unfold scan_groups. rewrite (absent_py_or c) by done. reflexivity.
Qed.

Lemma scan_music_on_hold_absent c :
  scan_music_on_hold known (or_no_settings c) = scan_music_on_hold known c.
Proof.
  unfold or_no_settings. destruct (absent c) eqn:Habs; [|done].
  unfold scan_music_on_hold. rewrite (absent_py_or c) by done. reflexivity.
Qed.

Lemma scan_setting_absent c text :
  scan_setting known (or_no_settings c) text = scan_setting known c text.
Proof.
  unfold or_no_settings. destruct (absent c) eqn:Habs; [|done].
  unfold scan_setting. rewrite (absent_py_or c) by done. reflexivity.
Qed.

(** C4: a missing collection ([None], or empty) is scanned as a collection
    of zero entities, whatever the other arguments are; and whichever of the
    six collections are missing, the others being of the lenient shape, the
    resolver does not fail: it returns a usage map. *)
Theorem gather_missing_collections r q g m c p :
  gather_prompt_usages known (or_no_entities r) (or_no_entities q)
    (or_no_entities g) (or_no_settings m) (or_no_settings c)
    (or_no_settings p)
  = gather_prompt_usages known r q g m c p
  ∧ (wf_collection wf_receptionist r = true →
     wf_collection wf_queue q = true →
     wf_collection wf_group g = true →
     wf_music_on_hold m = true →
     wf_setting c = true →
     wf_setting p = true →
     ∃ usages, gather_prompt_usages known r q g m c p = Ok usages).
Proof.
  split.
  - unfold gather_prompt_usages, scan_all.
    by rewrite scan_receptionists_absent, scan_queues_absent,
      scan_groups_absent, scan_music_on_hold_absent, !scan_setting_absent.
  - intros Hr Hq Hg Hm Hc Hp.
    unfold gather_prompt_usages, scan_all.
    set (u0 := gset_to_gmap [] known).
    destruct (scan_receptionists_total r u0 Hr) as [u1 H1].
    destruct (scan_queues_total q u1 Hq) as [u2 H2].
    destruct (scan_groups_total g u2 Hg) as [u3 H3].
    destruct (scan_music_on_hold_total m u3 Hm) as [u4 H4].
    destruct (scan_setting_total c "Conference: MusicOnHold" u4 Hc)
      as [u5 H5].
    destruct (scan_setting_total p "CallParking: MusicOnHold" u5 Hp)
      as [u6 H6].
    rewrite (py_bind_unit _ _ _ _ H1), (py_bind_unit _ _ _ _ H2),
      (py_bind_unit _ _ _ _ H3), (py_bind_unit _ _ _ _ H4),
      (py_bind_unit _ _ _ _ H5), H6.
    by eexists.
Qed.

(** With all six collections missing the map is empty. *)
Lemma gather_nothing r q g m c p :
  absent r = true → absent q = true → absent g = true →
  absent m = true → absent c = true → absent p = true →
  gather_prompt_usages known r q g m c p = Ok ∅.
Proof.
  intros Hr Hq Hg Hm Hc Hp.
  unfold gather_prompt_usages, scan_all, scan_receptionists, scan_queues,
    scan_groups, scan_music_on_hold, scan_setting.
  rewrite !absent_py_or by done. simpl. f_equal.
  apply map_eq. intros fn. rewrite lookup_empty.
  apply map_lookup_filter_None. right. intros l.
  intros [_ <-]%lookup_gset_to_gmap_Some Hl. by apply Hl.
Qed.
End total.

(** ** The theorems at the sample documents *)

Lemma sample_run :
  @gather_prompt_usages Sample.repr Sample.known Sample.receptionists
    Sample.queues Sample.empty Sample.empty Sample.empty Sample.empty
  = Ok Sample.usages.
Proof. vm_compute. reflexivity. Qed.

Lemma sample_stray_run :
  @gather_prompt_usages Sample.repr Sample.known Sample.stray_receptionists
    Sample.queues Sample.empty Sample.empty Sample.empty Sample.empty
  = Ok Sample.hold_usages.
Proof. vm_compute. reflexivity. Qed.

Lemma sample_blank_run :
  @gather_prompt_usages Sample.repr Sample.known_blank Sample.empty
    Sample.blank_queues Sample.empty Sample.empty Sample.empty Sample.empty
  = Ok Sample.hold_usages.
Proof. vm_compute. reflexivity. Qed.

Lemma sample_break_run :
  @gather_prompt_usages Sample.repr Sample.known Sample.empty
    (JDict Sample.break_queues) Sample.empty (JDict Sample.music_on_hold)
    Sample.empty Sample.empty
  = Ok Sample.break_usages.
Proof. vm_compute. reflexivity. Qed.

Lemma gather_keys_witness :
  dom Sample.usages
    = filter (λ fn, @Spec.usage_record fn
                (@Spec.references Sample.repr Sample.receptionists Sample.queues
                   Sample.empty Sample.empty Sample.empty Sample.empty) ≠ [])
        Sample.known
  ∧ (∀ fn, fn ∈ Sample.known →
       length (filter (λ ref, ref.1 = fn)
                 (@Spec.references Sample.repr Sample.receptionists
                    Sample.queues Sample.empty Sample.empty Sample.empty
                    Sample.empty)) = 0 →
       Sample.usages !! fn = None)
  ∧ (∀ fn l, Sample.usages !! fn = Some l → l ≠ [])
  ∧ dom Sample.usages ⊆ Sample.known.
Proof.
  apply (@gather_keys Sample.repr Sample.known Sample.receptionists
           Sample.queues Sample.empty Sample.empty Sample.empty Sample.empty
           Sample.usages).
  vm_compute. reflexivity.
Defined.

Lemma gather_usage_list_witness :
  ∃ l, Sample.usages !! "hold.wav" = Some l
    ∧ length l
      = length (filter (λ ref, ref.1 = "hold.wav")
                  (@Spec.references Sample.repr Sample.receptionists
                     Sample.queues Sample.empty Sample.empty Sample.empty
                     Sample.empty))
    ∧ l = Spec.usage_record "hold.wav"
            (Spec.entities Sample.receptionists
               ≫= @Spec.receptionist_refs Sample.repr)
          ++ Spec.usage_record "hold.wav"
               (Spec.entities Sample.queues ≫= @Spec.queue_refs Sample.repr)
          ++ Spec.usage_record "hold.wav"
               (Spec.entities Sample.empty ≫= @Spec.group_refs Sample.repr)
          ++ Spec.usage_record "hold.wav"
               (Spec.music_on_hold_refs Sample.empty)
          ++ Spec.usage_record "hold.wav"
               (Spec.setting_refs Sample.empty "Conference: MusicOnHold")
          ++ Spec.usage_record "hold.wav"
               (Spec.setting_refs Sample.empty "CallParking: MusicOnHold").
Proof.
  apply (@gather_usage_list Sample.repr Sample.known Sample.receptionists
           Sample.queues Sample.empty Sample.empty Sample.empty Sample.empty
           Sample.usages "hold.wav").
  - vm_compute. reflexivity.
  - set_solver.
  - vm_compute. discriminate.
Defined.

Lemma gather_unknown_ignored_witness :
  Sample.hold_usages !! "missing.wav" = None
  ∧ ∀ k, Sample.hold_usages !! k =
      let others :=
        filter (λ ref, ref.1 ≠ "missing.wav")
          (@Spec.references Sample.repr Sample.stray_receptionists
             Sample.queues Sample.empty Sample.empty Sample.empty
             Sample.empty) in
      if decide (k ∈ Sample.known ∧ Spec.usage_record k others ≠ [])
      then Some (Spec.usage_record k others) else None.
Proof.
  apply (@gather_unknown_ignored Sample.repr Sample.known
           Sample.stray_receptionists Sample.queues Sample.empty Sample.empty
           Sample.empty Sample.empty Sample.hold_usages "missing.wav").
  - vm_compute. reflexivity.
  - unfold Sample.known. intros [Hin|Hin]%elem_of_union;
      apply elem_of_singleton in Hin; discriminate.
Defined.

Lemma gather_no_empty_key_witness : Sample.hold_usages !! "" = None.
Proof.
  apply (@gather_no_empty_key Sample.repr Sample.known_blank Sample.empty
           Sample.blank_queues Sample.empty Sample.empty Sample.empty
           Sample.empty Sample.hold_usages).
  vm_compute. reflexivity.
Defined.

Lemma gather_route_before_music_on_hold_witness :
  ∃ l before between after,
    Sample.break_usages !! "hold.wav" = Some l
    ∧ l = before
          ++ ["Queue route BreakRoute: "
              +:+ @Spec.label Sample.repr (JDict Sample.break_queue)]
          ++ between
          ++ ["MusicOnHold setting (" +:+ "MusicOnHold3" +:+ ")"]
          ++ after.
Proof.
  apply (@gather_route_before_music_on_hold Sample.repr Sample.known
           Sample.empty Sample.break_queues Sample.empty Sample.music_on_hold
           Sample.empty Sample.empty Sample.break_usages
           [JDict Sample.break_queue] Sample.break_queue
           [("Prompt", JStr "hold.wav")] "MusicOnHold3").
  - vm_compute. reflexivity.
  - unfold Sample.known. set_solver.
  - reflexivity.
  - left.
  - reflexivity.
  - reflexivity.
  - right. left.
Defined.

Lemma gather_missing_collections_witness :
  @gather_prompt_usages Sample.repr Sample.known (or_no_entities JNull)
    (or_no_entities Sample.queues) (or_no_entities (JDict []))
    (or_no_settings JNull) (or_no_settings JNull) (or_no_settings (JDict []))
  = @gather_prompt_usages Sample.repr Sample.known JNull Sample.queues
      (JDict []) JNull JNull (JDict [])
  ∧ ∃ usages,
      @gather_prompt_usages Sample.repr Sample.known JNull Sample.queues
        (JDict []) JNull JNull (JDict []) = Ok usages.
Proof.
  destruct (@gather_missing_collections Sample.repr Sample.known JNull
              Sample.queues (JDict []) JNull JNull (JDict []))
    as [Hsame Hruns].
  split; [exact Hsame|].
  apply Hruns; reflexivity.
Defined.

(** ** The dispatch of [main] *)

Lemma appends_ret P {A} (a : A) : appends P (io_ret a).
Proof. intros w t. exists []. by rewrite app_nil_r. Qed.

Lemma appends_lift P {A} (r : result A) : appends P (io_lift r).
Proof. intros w t. exists []. by rewrite app_nil_r. Qed.

Lemma appends_get_world P : appends P get_world.
Proof. intros w t. exists []. by rewrite app_nil_r. Qed.

Lemma appends_set_world P w' : appends P (set_world w').
Proof. intros w t. exists []. by rewrite app_nil_r. Qed.

Lemma appends_emit (P : event → Prop) e : P e → appends P (emit e).
Proof. intros He w t. exists [e]. split; [done|]. by constructor. Qed.

Lemma appends_bind P {A B} (m : io A) (k : A → io B) :
  appends P m → (∀ a, appends P (k a)) → appends P (io_bind m k).
Proof.
  intros Hm Hk w t. unfold io_bind.
  destruct (Hm w t) as (t1 & Ht1 & HP1).
  destruct (m (w, t)) as [[a|e] [w1 t1']]; simpl in *; subst.
  - destruct (Hk a w1 (t ++ t1)) as (t2 & -> & HP2).
    exists (t1 ++ t2). split; [by rewrite app_assoc|]. by apply Forall_app.
  - by exists t1.
Qed.

Lemma appends_for_each P {A} (l : list A) (body : A → io unit) :
  (∀ x, appends P (body x)) → appends P (io_for_each l body).
Proof.
  intros Hbody. induction l as [|x l IH]; simpl.
  - apply appends_ret.
  - apply appends_bind; auto.
Qed.

Lemma appends_map P {A B} (l : list A) (f : A → io B) :
  (∀ x, appends P (f x)) → appends P (io_map l f).
Proof.
  intros Hf. induction l as [|x l IH]; simpl.
  - apply appends_ret.
  - apply appends_bind; [auto|]. intros y.
    apply appends_bind; [auto|]. intros ys. apply appends_ret.
Qed.

Lemma appends_when P (c : bool) body :
  appends P body → appends P (io_when c body).
Proof. destruct c; simpl; [done|]. intros _. apply appends_ret. Qed.

Lemma appends_and P (a b : io bool) :
  appends P a → appends P b → appends P (io_and a b).
Proof.
  intros Ha Hb. apply appends_bind; [done|].
  intros []; [done|apply appends_ret].
Qed.

Create HintDb io_defs.
#[local] Hint Unfold isdir path_exists read_json makedirs write_json getenv
  print load_json_file ld api.request api.loads api.get_json api.custom_prompts api.playlists
  api.receptionists api.queues api.groups api.conference_settings
  api.call_parking_settings api.music_on_hold_settings api.with_files
  api.call_flow_apps print_report print_call_flow_apps report_from_output
  report_from_api : io_defs.

(** Walks through a computation, one constructor of the monad at a time. *)
Ltac appends_step :=
  first
    [ apply appends_ret | apply appends_lift | apply appends_get_world
    | apply appends_set_world | apply appends_emit; done
    | apply appends_bind | apply appends_for_each | apply appends_map
    | apply appends_when | apply appends_and
    | match goal with
      | |- appends _ (match ?x with _ => _ end) => destruct x
      end
    | progress intros
    | progress autounfold with io_defs
    | progress cbv zeta ].

Ltac appends_all := repeat appends_step.

Section dispatch.
Context {repr : PyRepr}.

Lemma report_from_output_offline output_dir :
  appends (λ e, is_http e = false) (report_from_output output_dir).
Proof. appends_all. Qed.

Lemma report_from_api_appends client :
  appends (λ _, True) (report_from_api client).
Proof. appends_all. Qed.
End dispatch.

Lemma starts_with_emit e {A} (k : unit → io A) :
  (∀ a, appends (λ _, True) (k a)) → starts_with e (io_bind (emit e) k).
Proof.
  intros Hk w t. unfold io_bind, emit.
  destruct (Hk tt w (t ++ [e])) as (t' & -> & _).
  exists t'. by rewrite <- app_assoc.
Qed.

Lemma starts_with_bind e {A B} (m : io A) (k : A → io B) :
  starts_with e m → (∀ a, appends (λ _, True) (k a)) →
  starts_with e (io_bind m k).
Proof.
  intros Hm Hk w t. unfold io_bind.
  destruct (Hm w t) as (t1 & Ht1).
  destruct (m (w, t)) as [[a|x] [w1 t1']]; simpl in *; subst.
  - destruct (Hk a w1 (t ++ e :: t1)) as (t2 & -> & _).
    exists (t1 ++ t2). by rewrite <- app_assoc.
  - by exists t1.
Qed.

Section main_dispatch.
Context {repr : PyRepr}.

Lemma request_starts self url params :
  starts_with (HttpGet url (api.token self) params)
    (api.request self url params).
Proof. unfold api.request. apply starts_with_emit. appends_all. Qed.

Lemma get_json_starts self path params :
  starts_with (HttpGet (api.fqdn self +:+ path) (api.token self) params)
    (api.get_json self path params).
Proof.
  unfold api.get_json.
  apply (starts_with_bind _ (api.request self _ params) api.loads).
  - apply request_starts.
  - appends_all.
Qed.

(** The live report opens with the request for the prompts collection. *)
Lemma report_from_api_starts client :
  starts_with
    (HttpGet (api.fqdn client +:+ "/xapi/v1/CustomPrompts") (api.token client)
       [("$select", "DisplayName")])
    (report_from_api client).
Proof.
  unfold report_from_api. apply starts_with_bind.
  - apply get_json_starts.
  - intros prompts.
    apply (report_from_api_appends client) || appends_all.
Qed.

Lemma main_token (o : option string) :
  match o with
  | Some t => if String.eqb t "" then "" else t
  | None => ""
  end = default "" o.
Proof.
  destruct o as [t|]; [|done]. simpl.
  destruct (String.eqb_spec t ""); by subst.
Qed.

(** The two ways [main] can go, with the probes made on the way. *)
Lemma main_run (w : world) :
  main (w, [])
  = if cache_present w
    then report_from_output "output" (w, probes_of w)
    else report_from_api (client_of w) (w, probes_of w).
Proof.
  unfold cache_present, probes_of, main, io_and, isdir, path_exists, getenv.
  unfold io_bind, emit, get_world, io_ret. simpl.
  change (path_join "output" "custom_prompts.json")
    with "output/custom_prompts.json".
  destruct (bool_decide ("output" ∈ dirs w)); simpl.
  - destruct (bool_decide (_ ∨ _)); simpl; [done|].
    by rewrite main_token.
  - by rewrite main_token.
Qed.

(** C9: when the cache directory and its primary document exist, [main]
    runs the cached report and makes no request to the server; otherwise it
    builds the client from the environment and its first act after the
    probes is the request for the prompts collection. *)
Theorem main_cache_or_live (w : world) :
  if cache_present w
  then main (w, [])
       = report_from_output "output"
           (w, [IsDir "output"; PathExists "output/custom_prompts.json"])
       ∧ Forall (λ e, is_http e = false) (events_of main w)
  else ∃ probes rest,
         main (w, []) = report_from_api (client_of w) (w, probes)
         ∧ Forall (λ e, is_probe e = true) probes
         ∧ events_of main w
           = probes
             ++ HttpGet (api.fqdn (client_of w) +:+ "/xapi/v1/CustomPrompts")
                  (api.token (client_of w)) [("$select", "DisplayName")]
                :: rest.
Proof.
  unfold events_of. rewrite main_run. unfold probes_of, cache_present.
  destruct (bool_decide ("output" ∈ dirs w)); simpl.
  - destruct (bool_decide (_ ∨ _)); simpl.
    + split; [done|].
      destruct (report_from_output_offline "output" w
                  [IsDir "output"; PathExists "output/custom_prompts.json"])
        as (t' & -> & Hquiet).
      apply Forall_app. split; [|done]. by repeat constructor.
    + destruct (report_from_api_starts (client_of w) w
                  [IsDir "output"; PathExists "output/custom_prompts.json"])
        as (rest & Hrest).
      eexists _, rest. split_and!; [done| |exact Hrest].
      by repeat constructor.
  - destruct (report_from_api_starts (client_of w) w [IsDir "output"])
      as (rest & Hrest).
    eexists _, rest. split_and!; [done| |exact Hrest].
    by repeat constructor.
Qed.

(** The cached sample: three cache files are read, five are found missing,
    and the report is printed. *)
Example main_cached_run :
  events_of main SampleWorld.cached
  = [IsDir "output";
     PathExists "output/custom_prompts.json";
     PathExists "output/custom_prompts.json";
     ReadFile "output/custom_prompts.json";
     PathExists "output/receptionists.json";
     ReadFile "output/receptionists.json";
     PathExists "output/queues.json";
     ReadFile "output/queues.json";
     PathExists "output/groups.json";
     PathExists "output/playlists.json";
     PathExists "output/music_on_hold_settings.json";
     PathExists "output/conference_settings.json";
     PathExists "output/call_parking_settings.json";
     Print "Detailed list of used prompt filenames:";
     Print (newline +:+ "hold.wav:");
     Print "  - Queue OnHoldFile: 800 Support";
     Print (newline +:+ "welcome.wav:");
     Print "  - Receptionist: 100 Main";
     Print (newline +:+ "Used prompt filenames:");
     Print " - hold.wav";
     Print " - welcome.wav"].
Proof. vm_compute. reflexivity. Qed.

(** Without a cache the first request goes out, and its failure ends the
    run. *)
Example main_live_run :
  (main (SampleWorld.fresh, [])).1 = Raise HTTPError
  ∧ events_of main SampleWorld.fresh
    = [IsDir "output";
       HttpGet "https://pbx.example.com/xapi/v1/CustomPrompts" "abc"
         [("$select", "DisplayName")]].
Proof. vm_compute. split; reflexivity. Qed.
End main_dispatch.

(** ** The heap model against the functional one *)

(** Induction over documents, through the lists they nest. *)
Lemma json_nested_ind (P : json → Prop) :
  P JNull → (∀ b, P (JBool b)) → (∀ z, P (JInt z)) → (∀ f, P (JFloat f)) →
  (∀ s, P (JStr s)) → (∀ l, Forall P l → P (JList l)) →
  (∀ kvs, Forall (λ kv, P kv.2) kvs → P (JDict kvs)) →
  ∀ j, P j.
Proof.
  intros Hnull Hbool Hint Hfloat Hstr Hlist Hdict.
  fix IH 1. intros [|b|z|f|s|l|kvs].
  - exact Hnull.
  - exact (Hbool b).
  - exact (Hint z).
  - exact (Hfloat f).
  - exact (Hstr s).
  - apply Hlist. induction l as [|j l IHl]; constructor;
      [exact (IH j)|exact IHl].
  - apply Hdict. induction kvs as [|[k j] kvs IHl]; constructor;
      [exact (IH j)|exact IHl].
Qed.

Module HeapFacts.

Lemma represents_list h js v :
  Heap.represents h (JList js) v ↔
  ∃ l vs, v = Heap.VRef l ∧ h !! l = Some (Heap.OList vs)
    ∧ Forall2 (Heap.represents h) js vs.
Proof.
  simpl. split; intros (l & vs & -> & Hl & Hall); exists l, vs;
    (split; [done|split; [done|]]); clear Hl; revert vs Hall.
  - induction js as [|j js IH]; intros [|x xs]; try done.
    intros [? ?]. constructor; auto.
  - induction js as [|j js IH]; intros [|x xs]; try by inversion 1.
    inversion 1; subst. simpl. split; [done|by apply IH].
Qed.

Lemma represents_dict h kvs v :
  Heap.represents h (JDict kvs) v ↔
  ∃ l vkvs, v = Heap.VRef l ∧ h !! l = Some (Heap.ODict vkvs)
    ∧ Forall2 (HeapInv.entry_represents h) kvs vkvs.
Proof.
  simpl. split; intros (l & vs & -> & Hl & Hall); exists l, vs;
    (split; [done|split; [done|]]); clear Hl; revert vs Hall.
  - induction kvs as [|[k j] kvs IH]; intros [|[k' x] xs]; try done.
    intros (? & ? & ?). constructor; [by split|auto].
  - induction kvs as [|[k j] kvs IH]; intros [|[k' x] xs];
      try by inversion 1.
    inversion 1 as [|? ? ? ? [? ?]]; subst. simpl in *.
    split_and!; [done..|by apply IH].
Qed.

(** What a value that stands for a document looks like. *)
Lemma represents_inv h j v :
  Heap.represents h j v →
  match j with
  | JNull => v = Heap.VNone
  | JBool b => v = Heap.VBool b
  | JInt z => v = Heap.VInt z
  | JFloat f => v = Heap.VFloat f
  | JStr s => v = Heap.VStr s
  | JList js =>
      ∃ l vs, v = Heap.VRef l ∧ h !! l = Some (Heap.OList vs)
        ∧ Forall2 (Heap.represents h) js vs
  | JDict kvs =>
      ∃ l vkvs, v = Heap.VRef l ∧ h !! l = Some (Heap.ODict vkvs)
        ∧ Forall2 (HeapInv.entry_represents h) kvs vkvs
  end.
Proof.
  destruct j; try done.
  - by intros ?%represents_list.
  - by intros ?%represents_dict.
Qed.

Lemma represents_empty_list h l :
  h !! l = Some (Heap.OList []) → Heap.represents h (JList []) (Heap.VRef l).
Proof. intros Hl. apply represents_list. exists l, []. by split_and!. Qed.

Lemma represents_empty_dict h l :
  h !! l = Some (Heap.ODict []) → Heap.represents h (JDict []) (Heap.VRef l).
Proof. intros Hl. apply represents_dict. exists l, []. by split_and!. Qed.

Lemma represents_null h : Heap.represents h JNull Heap.VNone.
Proof. done. Qed.

Lemma represents_str h s : Heap.represents h (JStr s) (Heap.VStr s).
Proof. done. Qed.

#[local] Opaque Heap.represents.

Lemma assoc_represents h key kvs vkvs :
  Forall2 (HeapInv.entry_represents h) kvs vkvs →
  match assoc key kvs, assoc key vkvs with
  | Some j, Some v => Heap.represents h j v
  | None, None => True
  | _, _ => False
  end.
Proof.
  induction 1 as [|[k j] [k' v] kvs vkvs [Hk Hv] Hall IH]; simpl in *;
    [done|].
  subst. by destruct (String.eqb key k').
Qed.

Lemma chars_represents h s : Forall2 (Heap.represents h) (chars s) (Heap.chars s).
Proof.
  induction s as [|c s IH]; simpl; constructor; [|done].
  apply represents_str.
Qed.

Lemma represents_mono h h' j v :
  h ⊆ h' → Heap.represents h j v → Heap.represents h' j v.
Proof.
  intros Hsub. revert v.
  induction j as [| | | | |js IH|kvs IH] using json_nested_ind; intros v;
    try done.
  - rewrite !represents_list. intros (l & vs & -> & Hl & Hall).
    exists l, vs. split_and!; [done|by eapply lookup_weaken|].
    clear Hl. induction Hall as [|j x js xs Hx Hall IHall]; [constructor|].
    inversion IH; subst. constructor; auto.
  - rewrite !represents_dict. intros (l & vs & -> & Hl & Hall).
    exists l, vs. split_and!; [done|by eapply lookup_weaken|].
    clear Hl. induction Hall as [|[k j] [k' x] js xs [Hk Hx] Hall IHall];
      [constructor|].
    inversion IH; subst. constructor; [split|]; auto.
Qed.

Lemma represents_set_mono h h' known v :
  h ⊆ h' → Heap.represents_set h known v → Heap.represents_set h' known v.
Proof.
  intros Hsub (l & ms & -> & Hl & Hnd & Hms).
  exists l, ms. split_and!; try done. by eapply lookup_weaken.
Qed.


Lemma lists_keys (ls : list (string * Heap.loc)) :
  (prod_map id Heap.VRef <$> ls).*1 = ls.*1.
Proof.
  induction ls as [|[k l] ls IH]; [done|]. rewrite !fmap_cons. by f_equal.
Qed.

Lemma lists_assoc (ls : list (string * Heap.loc)) k l :
  NoDup ls.*1 → (k, l) ∈ ls →
  assoc k (prod_map id Heap.VRef <$> ls) = Some (Heap.VRef l).
Proof.
  induction ls as [|[k' l'] ls IH]; [by intros _ ?%elem_of_nil|].
  rewrite !fmap_cons. intros [Hk Hnd]%NoDup_cons [[= -> ->]|Hin]%elem_of_cons.
  - simpl. by rewrite String.eqb_refl.
  - simpl. destruct (String.eqb_spec k k') as [->|]; [|by apply IH].
    destruct Hk. apply list_elem_of_fmap. by exists (k', l).
Qed.

Lemma NoDup_fst_inj {A B} (ls : list (A * B)) k l l' :
  NoDup ls.*1 → (k, l) ∈ ls → (k, l') ∈ ls → l = l'.
Proof.
  induction ls as [|[k0 l0] ls IH]; [by intros _ ?%elem_of_nil|].
  rewrite fmap_cons. intros [Hk Hnd]%NoDup_cons H1 H2.
  apply elem_of_cons in H1 as [H1|H1]; apply elem_of_cons in H2 as [H2|H2];
    simplify_eq; auto.
  - destruct Hk. apply list_elem_of_fmap. eexists. split; [|eassumption]. done.
  - destruct Hk. apply list_elem_of_fmap. eexists. split; [|eassumption]. done.
Qed.

Lemma NoDup_snd_inj {A B} (ls : list (A * B)) k k' l :
  NoDup ls.*2 → (k, l) ∈ ls → (k', l) ∈ ls → k = k'.
Proof.
  induction ls as [|[k0 l0] ls IH]; [by intros _ ?%elem_of_nil|].
  rewrite fmap_cons. intros [Hk Hnd]%NoDup_cons H1 H2.
  apply elem_of_cons in H1 as [H1|H1]; apply elem_of_cons in H2 as [H2|H2];
    simplify_eq; auto.
  - destruct Hk. apply list_elem_of_fmap. eexists. split; [|eassumption]. done.
  - destruct Hk. apply list_elem_of_fmap. eexists. split; [|eassumption]. done.
Qed.

Lemma NoDup_fmap_filter_fst {A B} (P : A * B → Prop)
    `{∀ x, Decision (P x)} (ls : list (A * B)) :
  NoDup ls.*1 → NoDup (filter P ls).*1.
Proof.
  induction ls as [|[k l] ls IH]; [done|].
  rewrite fmap_cons. intros [Hk Hnd]%NoDup_cons.
  rewrite filter_cons. destruct (decide (P (k, l))); [|by apply IH].
  rewrite fmap_cons. apply NoDup_cons. split; [|by apply IH].
  intros ([k' l'] & ? & [_ Hin]%list_elem_of_filter)%list_elem_of_fmap.
  simpl in *. subst. apply Hk. apply list_elem_of_fmap. by exists (k', l').
Qed.

(** *** Allocation *)

Lemma alloc_fresh (h : Heap.heap) o :
  ∃ l, Heap.alloc o h = (Ok (Heap.VRef l), <[l := o]> h) ∧ h !! l = None.
Proof.
  exists (fresh (dom h)). split; [done|].
  apply not_elem_of_dom, is_fresh.
Qed.

Section simulation.
Context {prepr : PyRepr} {hrepr : Heap.HeapRepr}.

(** The two formattings agree on a value and the document it stands for. *)
Hypothesis repr_agree :
  ∀ h j v, Heap.represents h j v → Heap.heap_repr h v = py_repr j.

Variable known : gset string.
Variable vknown : Heap.pyval.

(** The dict of line 29: its address and, per filename, the address of the
    usage list. *)
Variable lu : Heap.loc.
Variable lists : list (string * Heap.loc).

Notation usages_dict := (HeapInv.usages_dict lists).
Notation Inv := (HeapInv.Inv known vknown lu lists).
Notation related := (HeapInv.related known vknown lu lists).
Notation stands := HeapInv.stands.
Notation entry_represents := HeapInv.entry_represents.

Lemma Inv_frame hf h u : Inv hf h u → hf ⊆ h.
Proof. by intros [? _]. Qed.

Lemma related_weaken {A B} (R : Heap.heap → A → B → Prop) hf hf' oh op :
  hf ⊆ hf' → related R hf' oh op → related R hf oh op.
Proof.
  intros Hsub. unfold related. destruct op as [[b u']|e].
  - intros (a & hf'' & ? & ? & ? & ?). exists a, hf''.
    split_and!; try done. by etrans.
  - intros [? ?]. split; [done|]. by etrans.
Qed.

Lemma related_bind {A B A' B'} (R : Heap.heap → A → B → Prop)
    (R' : Heap.heap → A' → B' → Prop) hf (mh : Heap.hp A) (kh : A → Heap.hp A')
    (mp : py B) (kp : B → py B') h u :
  related R hf (mh h) (mp u) →
    (∀ a b hf' h' u', hf ⊆ hf' → Inv hf' h' u' → R hf' a b →
     related R' hf' (kh a h') (kp b u')) →
  related R' hf (Heap.bind mh kh h) (py_bind mp kp u).
Proof.
  unfold related at 1, Heap.bind, py_bind. intros Hm Hk.
  destruct (mp u) as [[b u']|e].
  - destruct Hm as (a & hf' & Ha & Hsub & Hinv & HR).
    destruct (mh h) as [ra h']. simpl in *. subst.
    eapply related_weaken; [done|]. by apply Hk.
  - destruct Hm as [Ha Hsub]. destruct (mh h) as [ra h']. simpl in *.
    by subst.
Qed.

(** A step of the heap computation that the functional one does not see. *)
Lemma related_silent {A A' B'} (R' : Heap.heap → A' → B' → Prop) hf hf' h h'
    (mh : Heap.hp A) (kh : A → Heap.hp A') a op :
  mh h = (Ok a, h') → hf ⊆ hf' →
  related R' hf' (kh a h') op →
  related R' hf (Heap.bind mh kh h) op.
Proof.
  intros Hm Hsub Hk. unfold Heap.bind. rewrite Hm.
  by eapply related_weaken.
Qed.

Lemma related_eq {A B} (R : Heap.heap → A → B → Prop) hf oh oh' op :
  oh = oh' → related R hf oh' op → related R hf oh op.
Proof. by intros ->. Qed.

Lemma related_ret {A B} (R : Heap.heap → A → B → Prop) hf h u a b :
  Inv hf h u → R hf a b → related R hf (Heap.ret a h) (py_ret b u).
Proof. intros Hinv HR. exists a, hf. by split_and!. Qed.

Lemma related_raise {A B} (R : Heap.heap → A → B → Prop) hf h u e :
  Inv hf h u → related R hf (Heap.raise e h) (Raise e).
Proof. intros Hinv. split; [done|]. by apply Inv_frame in Hinv. Qed.

(** A new object joins the frame. *)
Lemma Inv_alloc hf h u l o :
  Inv hf h u → h !! l = None →
  Inv (<[l := o]> hf) (<[l := o]> h) u ∧ hf ⊆ <[l := o]> hf.
Proof.
  intros (Hsub & Hset & Hlu & Hdict & Hnd1 & Hnd2 & Hlists & Hdom) Hl.
  assert (hf !! l = None) as Hfl.
  { destruct (hf !! l) eqn:E; [|done].
    by rewrite (lookup_weaken _ _ _ _ E Hsub) in Hl. }
  assert (hf ⊆ <[l := o]> hf) as Hgrow by by apply insert_subseteq.
  split; [|done]. split_and!; try done.
  - by apply insert_mono.
  - by eapply represents_set_mono.
  - rewrite lookup_insert_ne; [done|]. intros ->. by rewrite Hdict in Hl.
  - rewrite lookup_insert_ne; [done|]. intros ->. by rewrite Hdict in Hl.
  - intros k l' Hin. destruct (Hlists k l' Hin) as (Hf & Hne & xs & Hxs & Hu).
    assert (l ≠ l') by (intros ->; by rewrite Hxs in Hl).
    rewrite !lookup_insert_ne by done. eauto 10.
Qed.

Lemma alloc_ok hf h u o :
  Inv hf h u →
  ∃ l hf' h', Heap.alloc o h = (Ok (Heap.VRef l), h')
  ∧ hf ⊆ hf' ∧ Inv hf' h' u ∧ hf' !! l = Some o.
Proof.
  intros Hinv. destruct (alloc_fresh h o) as (l & Heq & Hl).
  destruct (Inv_alloc hf h u l o Hinv Hl) as [Hinv' Hsub].
  exists l, (<[l := o]> hf), (<[l := o]> h).
  split_and!; try done. apply lookup_insert_eq.
Qed.

Lemma read_frame hf h u l o :
  Inv hf h u → hf !! l = Some o → Heap.read l h = (Ok o, h).
Proof.
  intros Hinv Hl. unfold Heap.read.
  by rewrite (lookup_weaken _ _ _ _ Hl (Inv_frame _ _ _ Hinv)).
Qed.

Lemma truthy_ok hf h u j v :
  Inv hf h u → Heap.represents hf j v →
  Heap.truthy v h = (Ok (truthy j), h).
Proof.
  intros Hinv Hv%represents_inv.
  destruct j as [| | |f| |js|kvs]; subst; try done.
  - by destruct f.
  - destruct Hv as (l & vs & -> & Hl & Hall). simpl.
    unfold Heap.bind. rewrite (read_frame _ _ _ _ _ Hinv Hl).
    by rewrite (Forall2_length _ _ _ Hall).
  - destruct Hv as (l & vs & -> & Hl & Hall). simpl.
    unfold Heap.bind. rewrite (read_frame _ _ _ _ _ Hinv Hl).
    by rewrite (Forall2_length _ _ _ Hall).
Qed.

Lemma or_empty_dict_ok hf h u j v :
  Inv hf h u → Heap.represents hf j v →
  ∃ a hf' h', Heap.or_empty_dict v h = (Ok a, h')
  ∧ hf ⊆ hf' ∧ Inv hf' h' u
  ∧ Heap.represents hf' (py_or j (JDict [])) a.
Proof.
  intros Hinv Hv. unfold Heap.or_empty_dict, Heap.bind, py_or.
  rewrite (truthy_ok _ _ _ _ _ Hinv Hv).
  destruct (truthy j).
  - by exists v, hf, h.
  - destruct (alloc_ok hf h u (Heap.ODict []) Hinv)
      as (l & hf' & h' & -> & Hsub & Hinv' & Hl).
    exists (Heap.VRef l), hf', h'. split_and!; try done.
    by apply represents_empty_dict.
Qed.

Lemma related_lift_raise {A B} (R : Heap.heap → A → B → Prop) hf h u e
    (oh : result A * Heap.heap) :
  Inv hf h u → oh = (Raise e, h) →
  related R hf oh (lift (Raise e) u).
Proof. intros Hinv ->. split; [done|]. by apply Inv_frame in Hinv. Qed.

Lemma related_lift_ok {A B} (R : Heap.heap → A → B → Prop) hf h u a b
    (oh : result A * Heap.heap) :
  Inv hf h u → oh = (Ok a, h) → R hf a b →
  related R hf oh (lift (Ok b) u).
Proof. intros Hinv -> HR. exists a, hf. by split_and!. Qed.

Lemma get_of_list hf h u l vs key d :
  Inv hf h u → hf !! l = Some (Heap.OList vs) →
  Heap.get (Heap.VRef l) key d h = (Raise AttributeError, h).
Proof.
  intros Hinv Hl. unfold Heap.get, Heap.bind.
  by rewrite (read_frame _ _ _ _ _ Hinv Hl).
Qed.

Lemma get_related hf h u j v key jd d :
  Inv hf h u → Heap.represents hf j v → Heap.represents hf jd d →
  related stands hf (Heap.get v key d h) (lift (py_get j key jd) u).
Proof.
  intros Hinv Hv%represents_inv Hd.
  destruct j as [| | | | |js|kvs]; subst;
    try by eapply related_lift_raise.
  - destruct Hv as (l & vs & -> & Hl & Hall).
    eapply related_lift_raise; [done|]. unfold Heap.get, Heap.bind.
    by rewrite (read_frame _ _ _ _ _ Hinv Hl).
  - destruct Hv as (l & vs & -> & Hl & Hall).
    eapply related_lift_ok; [done| |].
    + unfold Heap.get, Heap.bind.
      by rewrite (read_frame _ _ _ _ _ Hinv Hl).
    + pose proof (assoc_represents hf key _ _ Hall) as Hkey.
      by destruct (assoc key kvs), (assoc key vs).
Qed.

Lemma iter_related hf h u j v :
  Inv hf h u → Heap.represents hf j v →
  related (λ hf vs js, Forall2 (Heap.represents hf) js vs) hf
    (Heap.iter v h) (lift (py_iter j) u).
Proof.
  intros Hinv Hv%represents_inv.
  destruct j as [| | | |s|js|kvs]; subst;
    try by eapply related_lift_raise.
  - eapply related_lift_ok; [done..|]. apply chars_represents.
  - destruct Hv as (l & vs & -> & Hl & Hall).
    eapply related_lift_ok; [done| |done].
    unfold Heap.iter, Heap.bind. by rewrite (read_frame _ _ _ _ _ Hinv Hl).
  - destruct Hv as (l & vs & -> & Hl & Hall).
    eapply related_lift_ok; [done| |].
    + unfold Heap.iter, Heap.bind.
      by rewrite (read_frame _ _ _ _ _ Hinv Hl).
    + clear Hl. induction Hall as [|[k j] [k' x] ? ? [Hk _] _ IH];
        [constructor|].
      simpl in *. subst. constructor; [apply represents_str|done].
Qed.

Lemma items_related hf h u j v :
  Inv hf h u → Heap.represents hf j v →
  related (λ hf vs js, Forall2 (entry_represents hf) js vs) hf
    (Heap.items v h) (lift (py_items j) u).
Proof.
  intros Hinv Hv%represents_inv.
  destruct j as [| | | | |js|kvs]; subst;
    try by eapply related_lift_raise.
  - destruct Hv as (l & vs & -> & Hl & Hall).
    eapply related_lift_raise; [done|]. unfold Heap.items, Heap.bind.
    by rewrite (read_frame _ _ _ _ _ Hinv Hl).
  - destruct Hv as (l & vs & -> & Hl & Hall).
    eapply related_lift_ok; [done| |done].
    unfold Heap.items, Heap.bind. by rewrite (read_frame _ _ _ _ _ Hinv Hl).
Qed.

Lemma set_members_known hf h u :
  Inv hf h u →
  ∃ ms, Heap.set_members vknown h = (Ok ms, h) ∧ list_to_set ms = known.
Proof.
  intros Hinv.
  destruct (proj1 (proj2 Hinv)) as (ls & ms & Hvk & Hls & Hnd & Hms).
  exists ms. split; [|done].
  rewrite Hvk. unfold Heap.set_members, Heap.bind.
  by rewrite (read_frame _ _ _ _ _ Hinv Hls).
Qed.

Lemma and_in_related hf h u j v :
  Inv hf h u → Heap.represents hf j v →
  related (λ _ a b, a = b) hf
    (Heap.and_in v vknown h) (lift (and_in j known) u).
Proof.
  intros Hinv Hv. unfold Heap.and_in, and_in, Heap.bind at 1.
  rewrite (truthy_ok _ _ _ _ _ Hinv Hv).
  destruct (truthy j) eqn:Ht; [|by eapply related_lift_ok].
  destruct (set_members_known _ _ _ Hinv) as (ms & Hmembers & Hms).
  unfold Heap.in_set, Heap.bind at 1. rewrite Hmembers.
  apply represents_inv in Hv.
  destruct j as [| | | |s|js|kvs]; try subst v;
    try by eapply related_lift_ok.
  - eapply related_lift_ok; [done..|]. simpl.
    apply bool_decide_ext. by rewrite <- Hms, elem_of_list_to_set.
  - destruct Hv as (l & vs & -> & _). by eapply related_lift_raise.
  - destruct Hv as (l & vs & -> & _). by eapply related_lift_raise.
Qed.

Lemma str_ok hf h u j v :
  Inv hf h u → Heap.represents hf j v →
  Heap.str v h = (Ok (py_str j), h).
Proof.
  intros Hinv Hv.
  assert (Heap.represents h j v) as Hh
    by (eapply represents_mono; [by eapply Inv_frame|done]).
  apply repr_agree in Hh. apply represents_inv in Hv.
  destruct j as [|[]| | | |js|kvs]; subst; try done.
  - unfold Heap.str. by rewrite Hh.
  - destruct Hv as (l & vs & -> & _). unfold Heap.str. by rewrite Hh.
  - destruct Hv as (l & vs & -> & _). unfold Heap.str. by rewrite Hh.
Qed.

Lemma describe_related hf h u j item prefix :
  Inv hf h u → Heap.represents hf j item →
  related (λ _ a b, a = b) hf
    (Heap.describe prefix item h) (describe prefix j u).
Proof.
  intros Hinv Hitem. pose proof Hitem as Hv%represents_inv.
  unfold Heap.describe, describe.
  destruct j as [| | | | |js|kvs]; subst;
    try by (hnf; split; [done|by eapply Inv_frame]).
  - destruct Hv as (l & vs & -> & Hl & Hall).
    eapply related_eq.
    { unfold Heap.bind at 1. by rewrite (get_of_list _ _ _ _ _ _ _ Hinv Hl). }
    hnf. split; [done|by eapply Inv_frame].
  - destruct Hv as (l & vs & -> & Hl & Hall). eapply related_eq; first last.
    { instantiate (1 := (Ok _, h)). hnf. eexists _, hf.
      split_and!; [done..|reflexivity]. }
    assert (∀ key, ∃ x, Heap.get (Heap.VRef l) key Heap.VNone h
                        = (Ok x, h)
              ∧ Heap.represents hf (default JNull (assoc key kvs)) x)
      as Hget.
    { intros key. unfold Heap.get, Heap.bind.
      rewrite (read_frame _ _ _ _ _ Hinv Hl).
      pose proof (assoc_represents hf key _ _ Hall) as Hkey.
      destruct (assoc key kvs), (assoc key vs); try done; eauto.
      eexists. split; [done|]. apply represents_null. }
    destruct (Hget "Number") as (number & Hnumber & Hn).
    destruct (Hget "Name") as (name & Hname & Hm).
    unfold Heap.bind at 1. rewrite Hnumber.
    unfold Heap.bind at 1. rewrite (str_ok _ _ _ _ _ Hinv Hn).
    unfold Heap.bind at 1. rewrite Hname.
    unfold Heap.bind at 1. rewrite (str_ok _ _ _ _ _ Hinv Hm).
    done.
Qed.

(** Appending to one usage list leaves the frame and the other lists as
    they are. *)
Lemma Inv_append hf h u k l xs text :
  Inv hf h u → (k, l) ∈ lists → h !! l = Some (Heap.OList (Heap.VStr <$> xs)) →
  u !! k = Some xs →
  Inv hf (<[l := Heap.OList ((Heap.VStr <$> xs) ++ [Heap.VStr text])]> h)
    (<[k := xs ++ [text]]> u).
Proof.
  intros (Hsub & Hset & Hlu & Hdict & Hnd1 & Hnd2 & Hlists & Hdom) Hin Hl Hu.
  destruct (Hlists k l Hin) as (Hfl & Hne & _).
  split_and!; try done.
  - by apply insert_subseteq_r.
  - by rewrite lookup_insert_ne.
  - intros k' l' Hin'.
    destruct (Hlists k' l' Hin') as (Hfl' & Hne' & xs' & Hxs' & Hu').
    split_and!; try done.
    destruct (decide (l' = l)) as [->|Hll].
    + assert (k' = k) as ->.
      { by eapply (NoDup_snd_inj lists). }
      exists (xs ++ [text]). rewrite !lookup_insert_eq. split; [|done].
      by rewrite fmap_app.
    + assert (k' ≠ k).
      { intros ->. apply Hll. by eapply (NoDup_fst_inj lists). }
      exists xs'. by rewrite !lookup_insert_ne.
  - intros k'. destruct (decide (k' = k)) as [->|].
    + intros _. apply list_elem_of_fmap. by exists (k, l).
    + rewrite lookup_insert_ne by done. apply Hdom.
Qed.

Lemma add_related hf h u j v text :
  Inv hf h u → Heap.represents hf j v →
  related (λ _ _ _, True) hf
    (Heap.add (Heap.VRef lu) v text h) (add j text u).
Proof.
  intros Hinv Hv%represents_inv.
  pose proof Hinv as (Hsub & Hset & Hlu & Hdict & Hnd1 & Hnd2 & Hlists & Hdom).
  assert (Heap.items (Heap.VRef lu) h
          = (Ok (prod_map id Heap.VRef <$> lists), h)) as Hitems.
  { unfold Heap.items, Heap.bind, Heap.read. by rewrite Hdict. }
  unfold Heap.add, Heap.in_dict, add, get_usages.
  unfold Heap.bind at 1 2. rewrite Hitems. unfold py_bind at 1.
  destruct j as [| | | |k|js|kvs]; subst;
    try by (exists tt, hf).
  - (* a string *)
    simpl. rewrite lists_keys.
    destruct (decide (k ∈ lists.*1)) as [Hk|Hk].
    + apply list_elem_of_fmap in Hk as ([k' l] & -> & Hin). simpl.
      destruct (Hlists k' l Hin) as (Hfl & Hne & xs & Hxs & Hu).
      rewrite !bool_decide_eq_true_2; first last.
      { apply list_elem_of_fmap. by exists (k', l). }
      { apply elem_of_dom. eauto. }
      simpl. unfold Heap.getitem, Heap.bind at 1 2. rewrite Hitems.
      rewrite (lists_assoc lists k' l) by done.
      unfold Heap.ret, Heap.append, Heap.bind, Heap.read, Heap.write.
      rewrite Hxs. unfold py_bind, lift, append_to. simpl. rewrite Hu.
      exists tt, hf. split_and!; try done. by eapply Inv_append.
    + rewrite !bool_decide_eq_false_2; first last.
      { done. }
      { intros Hin%elem_of_dom. by apply Hk, Hdom. }
      by exists tt, hf.
  - destruct Hv as (l & vs & -> & _). by split.
  - destruct Hv as (l & vs & -> & _). by split.
Qed.

Lemma check_add_related hf h u jv v j item prefix :
  Inv hf h u → Heap.represents hf jv v → Heap.represents hf j item →
  related (λ _ _ _, True) hf
    (Heap.check_add vknown (Heap.VRef lu) v prefix item h)
    (check_add known jv prefix j u).
Proof.
  intros Hinv Hv Hitem. unfold Heap.check_add, check_add.
  eapply related_bind; [by apply and_in_related|].
  intros c ? hf1 h1 u1 Hsub1 Hinv1 <-.
  destruct c; [|by apply (related_ret _ _ _ _ tt tt)].
  cbn [Heap.when when].
  eapply related_bind.
  { apply describe_related; [done|]. by eapply represents_mono. }
  intros text ? hf2 h2 u2 Hsub2 Hinv2 <-.
  apply add_related; [done|].
  eapply represents_mono; [|done]. by etrans.
Qed.

Lemma guarded_add_related hf h u jv v text :
  Inv hf h u → Heap.represents hf jv v →
  related (λ _ _ _, True) hf
    (Heap.bind (Heap.and_in v vknown)
       (λ c, Heap.when c (Heap.add (Heap.VRef lu) v text)) h)
    ((c <- lift (and_in jv known) ;; when c (add jv text)) u).
Proof.
  intros Hinv Hv.
  eapply related_bind; [by apply and_in_related|].
  intros c ? hf1 h1 u1 Hsub1 Hinv1 <-.
  destruct c; [|by apply (related_ret _ _ _ _ tt tt)].
  cbn [Heap.when when].
  apply add_related; [done|]. by eapply represents_mono.
Qed.

Lemma for_each_related {A B} (Rel : Heap.heap → A → B → Prop)
    (bh : A → Heap.hp unit) (bp : B → py unit) xs ys :
    (∀ hf hf' a b, hf ⊆ hf' → Rel hf a b → Rel hf' a b) →
  ∀ hf h u, Inv hf h u → Forall2 (Rel hf) xs ys →
    (∀ a b hf' h' u', hf ⊆ hf' → Inv hf' h' u' → Rel hf' a b →
     related (λ _ _ _, True) hf' (bh a h') (bp b u')) →
  related (λ _ _ _, True) hf (Heap.for_each xs bh h) (for_each ys bp u).
Proof.
  intros Hmono. revert ys.
  induction xs as [|x xs IH]; intros ys hf h u Hinv Hall Hbody;
    inversion Hall as [|? y ? ys' Hx Hall']; subst.
  - by apply (related_ret _ _ _ _ tt tt).
  - cbn [Heap.for_each for_each].
    eapply related_bind; [by apply Hbody|].
    intros [] [] hf1 h1 u1 Hsub1 Hinv1 _.
    apply IH; [done| |].
    + eapply Forall2_impl; [done|]. intros a b. by apply Hmono.
    + intros a b hf2 h2 u2 Hsub2. apply Hbody. by etrans.
Qed.

Notation any := (λ (_ : Heap.heap) (_ _ : unit), True).

(** Follows the growth of the frame along the hypotheses. *)
Ltac frame := repeat first [done | etrans; [eassumption|]].
Ltac grown := eapply represents_mono; [|eassumption]; frame.

(** [for x in obj.get(key, []): ...] *)
Lemma get_list_related hf h u j obj key
    (kh : list Heap.pyval → Heap.hp unit) (kp : list json → py unit) :
  Inv hf h u → Heap.represents hf j obj →
    (∀ vs js hf' h' u', hf ⊆ hf' → Inv hf' h' u' →
     Forall2 (Heap.represents hf') js vs →
     related any hf' (kh vs h') (kp js u')) →
  related any hf
    (Heap.bind (Heap.alloc (Heap.OList [])) (λ dflt,
       Heap.bind (Heap.get obj key dflt) (λ value,
         Heap.bind (Heap.iter value) kh)) h)
    ((value <- lift (py_get j key (JList [])) ;;
      items <- lift (py_iter value) ;; kp items) u).
Proof.
  intros Hinv Hobj Hk.
  destruct (alloc_ok hf h u (Heap.OList []) Hinv)
    as (l & hf1 & h1 & Halloc & Hsub1 & Hinv1 & Hl).
  eapply related_silent; [done..|].
  eapply related_bind.
  { apply get_related; [done| |by apply represents_empty_list].
    by eapply represents_mono. }
  intros value jvalue hf2 h2 u2 Hsub2 Hinv2 Hvalue. unfold stands in Hvalue.
  eapply related_bind; [by apply iter_related|].
  intros vs js hf3 h3 u3 Hsub3 Hinv3 Hall. apply Hk; [frame|done..].
Qed.

(** [for x in (collection or {}).get("value", []): ...] *)
Lemma collection_related hf h u j collection
    (kh : list Heap.pyval → Heap.hp unit) (kp : list json → py unit) :
  Inv hf h u → Heap.represents hf j collection →
    (∀ vs js hf' h' u', hf ⊆ hf' → Inv hf' h' u' →
     Forall2 (Heap.represents hf') js vs →
     related any hf' (kh vs h') (kp js u')) →
  related any hf
    (Heap.bind (Heap.or_empty_dict collection) (λ collection,
       Heap.bind (Heap.alloc (Heap.OList [])) (λ dflt,
         Heap.bind (Heap.get collection "value" dflt) (λ value,
           Heap.bind (Heap.iter value) kh))) h)
    ((value <- lift (py_get (py_or j (JDict [])) "value" (JList [])) ;;
      items <- lift (py_iter value) ;; kp items) u).
Proof.
  intros Hinv Hc Hk.
  destruct (or_empty_dict_ok hf h u j collection Hinv Hc)
    as (c & hf1 & h1 & Hor & Hsub1 & Hinv1 & Hc1).
  eapply related_silent; [done..|].
  apply get_list_related; [done..|].
  intros vs js hf2 h2 u2 Hsub2. apply Hk. frame.
Qed.

Lemma represents_Forall2_mono hf hf' js vs :
  hf ⊆ hf' → Forall2 (Heap.represents hf) js vs →
  Forall2 (Heap.represents hf') js vs.
Proof.
  intros Hsub Hall. eapply Forall2_impl; [done|].
  intros j v. by apply represents_mono.
Qed.

Lemma keys_related (hf : Heap.heap) (keys : list string) :
  Forall2 (λ a b, a = b) keys keys.
Proof. induction keys; constructor; auto. Qed.

Lemma scan_routes_related hf h u j item kind keys :
  Inv hf h u → Heap.represents hf j item →
  related any hf
    (Heap.scan_routes vknown (Heap.VRef lu) kind keys item h)
    (scan_routes known kind keys j u).
Proof.
  intros Hinv Hitem. unfold Heap.scan_routes, scan_routes.
  apply (for_each_related (λ _ a b, a = b)); [done..|apply (keys_related hf)|].
  intros rkey ? hf1 h1 u1 Hsub1 Hinv1 <-.
  destruct (alloc_ok hf1 h1 u1 (Heap.ODict []) Hinv1)
    as (l & hf2 & h2 & Halloc & Hsub2 & Hinv2 & Hl).
  eapply related_silent; [done..|].
  assert (Heap.represents hf2 j item) as Hitem2.
  { eapply represents_mono; [|done]. by etrans. }
  eapply related_bind.
  { apply get_related; [done..|by apply represents_empty_dict]. }
  intros route jroute hf3 h3 u3 Hsub3 Hinv3 Hroute. unfold stands in Hroute.
  destruct (or_empty_dict_ok hf3 h3 u3 jroute route Hinv3 Hroute)
    as (r & hf4 & h4 & Hor & Hsub4 & Hinv4 & Hr).
  eapply related_silent; [done..|].
  eapply related_bind.
  { apply get_related; [done..|apply represents_null]. }
  intros prompt jprompt hf5 h5 u5 Hsub5 Hinv5 Hprompt. unfold stands in Hprompt.
  apply check_add_related; [done..|].
  eapply represents_mono; [|done]. by do 2 (etrans; [done|]).
Qed.

Lemma scan_receptionists_related hf h u j receptionists :
  Inv hf h u → Heap.represents hf j receptionists →
  related any hf
    (Heap.scan_receptionists vknown (Heap.VRef lu) receptionists h)
    (scan_receptionists known j u).
Proof.
  intros Hinv Hr. unfold Heap.scan_receptionists, scan_receptionists.
  apply collection_related; [done..|].
  intros vs js hf1 h1 u1 Hsub1 Hinv1 Hall.
  apply (for_each_related (λ hf v j, Heap.represents hf j v));
    [by intros; eapply represents_mono|done|by apply Forall2_flip|].
  intros item jitem hf2 h2 u2 Hsub2 Hinv2 Hitem. unfold stands in Hitem.
  eapply related_bind.
  { apply get_related; [done..|apply represents_null]. }
  intros filename jfilename hf3 h3 u3 Hsub3 Hinv3 Hfilename. unfold stands in Hfilename.
  assert (Heap.represents hf3 jitem item) as Hitem3
    by by eapply represents_mono.
  eapply related_bind; [by apply check_add_related|].
  intros [] [] hf4 h4 u4 Hsub4 Hinv4 _.
  assert (Heap.represents hf4 jitem item) as Hitem4
    by by eapply represents_mono.
  apply get_list_related; [done..|].
  intros fs jfs hf5 h5 u5 Hsub5 Hinv5 Hfs. unfold stands in Hfs.
  assert (Heap.represents hf5 jitem item) as Hitem5
    by by eapply represents_mono.
  apply (for_each_related (λ hf v j, Heap.represents hf j v));
    [by intros; eapply represents_mono|done|by apply Forall2_flip|].
  intros forward jforward hf6 h6 u6 Hsub6 Hinv6 Hforward. unfold stands in Hforward.
  eapply related_bind.
  { apply get_related; [done..|apply represents_null]. }
  intros cd jcd hf7 h7 u7 Hsub7 Hinv7 Hcd. unfold stands in Hcd.
  apply check_add_related; [done..|].
  eapply represents_mono; [|done]. by etrans.
Qed.

Lemma scan_queues_related hf h u j queues :
  Inv hf h u → Heap.represents hf j queues →
  related any hf
    (Heap.scan_queues vknown (Heap.VRef lu) queues h)
    (scan_queues known j u).
Proof.
  intros Hinv Hq. unfold Heap.scan_queues, scan_queues.
  apply collection_related; [done..|].
  intros vs js hf1 h1 u1 Hsub1 Hinv1 Hall.
  apply (for_each_related (λ hf v j, Heap.represents hf j v));
    [by intros; eapply represents_mono|done|by apply Forall2_flip|].
  intros item jitem hf2 h2 u2 Hsub2 Hinv2 Hitem. unfold stands in Hitem.
  eapply related_bind.
  { apply (for_each_related (λ _ a b, a = b));
      [done..|apply (keys_related hf)|].
    intros key ? hf3 h3 u3 Hsub3 Hinv3 <-.
    assert (Heap.represents hf3 jitem item) as Hitem3
      by by eapply represents_mono.
    eapply related_bind.
    { apply get_related; [done..|apply represents_null]. }
    intros value jvalue hf4 h4 u4 Hsub4 Hinv4 Hvalue. unfold stands in Hvalue.
    apply check_add_related; [done..|]. by eapply represents_mono. }
  intros [] [] hf3 h3 u3 Hsub3 Hinv3 _.
  apply scan_routes_related; [done|]. by eapply represents_mono.
Qed.

Lemma scan_groups_related hf h u j groups :
  Inv hf h u → Heap.represents hf j groups →
  related any hf
    (Heap.scan_groups vknown (Heap.VRef lu) groups h)
    (scan_groups known j u).
Proof.
  intros Hinv Hg. unfold Heap.scan_groups, scan_groups.
  apply collection_related; [done..|].
  intros vs js hf1 h1 u1 Hsub1 Hinv1 Hall.
  apply (for_each_related (λ hf v j, Heap.represents hf j v));
    [by intros; eapply represents_mono|done|by apply Forall2_flip|].
  intros item jitem hf2 h2 u2 Hsub2 Hinv2 Hitem. unfold stands in Hitem.
  by apply scan_routes_related.
Qed.

Lemma scan_music_on_hold_related hf h u j settings :
  Inv hf h u → Heap.represents hf j settings →
  related any hf
    (Heap.scan_music_on_hold vknown (Heap.VRef lu) settings h)
    (scan_music_on_hold known j u).
Proof.
  intros Hinv Hs. unfold Heap.scan_music_on_hold, scan_music_on_hold.
  destruct (or_empty_dict_ok hf h u j settings Hinv Hs)
    as (c & hf1 & h1 & Hor & Hsub1 & Hinv1 & Hc1).
  eapply related_silent; [done..|].
  eapply related_bind; [by apply items_related|].
  intros vs js hf2 h2 u2 Hsub2 Hinv2 Hall.
  apply (for_each_related (λ hf v j, entry_represents hf j v));
    [|done|by apply Forall2_flip|].
  { intros ? ? ? ? ? [? ?]. split; [done|]. by eapply represents_mono. }
  intros [key value] [jkey jvalue] hf3 h3 u3 Hsub3 Hinv3 [Hkey Hvalue].
  simpl in *. subst. by apply guarded_add_related.
Qed.

Lemma scan_setting_related hf h u j settings text :
  Inv hf h u → Heap.represents hf j settings →
  related any hf
    (Heap.scan_setting vknown (Heap.VRef lu) settings text h)
    (scan_setting known j text u).
Proof.
  intros Hinv Hs. unfold Heap.scan_setting, scan_setting.
  destruct (or_empty_dict_ok hf h u j settings Hinv Hs)
    as (c & hf1 & h1 & Hor & Hsub1 & Hinv1 & Hc1).
  eapply related_silent; [done..|].
  eapply related_bind.
  { apply get_related; [done..|apply represents_null]. }
  intros moh jmoh hf2 h2 u2 Hsub2 Hinv2 Hmoh. unfold stands in Hmoh.
  by apply guarded_add_related.
Qed.

Lemma scan_all_related hf h u jr jq jg jm jc jp vr vq vg vm vc vp :
  Inv hf h u →
  Heap.represents hf jr vr → Heap.represents hf jq vq →
  Heap.represents hf jg vg → Heap.represents hf jm vm →
  Heap.represents hf jc vc → Heap.represents hf jp vp →
  related any hf
    (Heap.scan_all vknown (Heap.VRef lu) vr vq vg vm vc vp h)
    (scan_all known jr jq jg jm jc jp u).
Proof.
  intros Hinv Hr Hq Hg Hm Hc Hp. unfold Heap.scan_all, scan_all.
  eapply related_bind; [by apply scan_receptionists_related|].
  intros [] [] hf1 h1 u1 Hsub1 Hinv1 _.
  eapply related_bind.
  { apply scan_queues_related; [done|]. by eapply represents_mono. }
  intros [] [] hf2 h2 u2 Hsub2 Hinv2 _.
  assert (hf ⊆ hf2) as Hsub02 by by etrans.
  eapply related_bind.
  { apply scan_groups_related; [done|]. by eapply represents_mono. }
  intros [] [] hf3 h3 u3 Hsub3 Hinv3 _.
  assert (hf ⊆ hf3) as Hsub03 by by etrans.
  eapply related_bind.
  { apply scan_music_on_hold_related; [done|]. by eapply represents_mono. }
  intros [] [] hf4 h4 u4 Hsub4 Hinv4 _.
  assert (hf ⊆ hf4) as Hsub04 by by etrans.
  eapply related_bind.
  { apply scan_setting_related; [done|]. by eapply represents_mono. }
  intros [] [] hf5 h5 u5 Hsub5 Hinv5 _.
  assert (hf ⊆ hf5) as Hsub05 by by etrans.
  apply scan_setting_related; [done|]. by eapply represents_mono.
Qed.

(** *** The last comprehension and the returned map *)

Lemma items_usages hf h u :
  Inv hf h u →
  Heap.items (Heap.VRef lu) h = (Ok (prod_map id Heap.VRef <$> lists), h).
Proof.
  intros (_ & _ & _ & Hdict & _). unfold Heap.items, Heap.bind, Heap.read.
  by rewrite Hdict.
Qed.

Lemma keep_truthy_ok (h : Heap.heap) (u : gmap string (list string))
    (ls : list (string * Heap.loc)) :
    (∀ k l, (k, l) ∈ ls →
     ∃ xs, h !! l = Some (Heap.OList (Heap.VStr <$> xs)) ∧ u !! k = Some xs) →
  Heap.keep_truthy (prod_map id Heap.VRef <$> ls) h
  = (Ok (prod_map id Heap.VRef
           <$> filter (λ kl, u !! kl.1 ≠ Some ([] : list string)) ls), h).
Proof.
  induction ls as [|[k l] ls IH]; intros Hls; [done|].
  destruct (Hls k l) as (xs & Hl & Hu); [left|].
  rewrite fmap_cons. cbn [prod_map Heap.keep_truthy fst snd id].
  unfold Heap.bind at 1. unfold Heap.truthy, Heap.bind at 1, Heap.read.
  rewrite Hl. unfold Heap.ret at 1. unfold Heap.bind at 1.
  rewrite IH by (intros; apply Hls; by right).
  unfold Heap.ret. rewrite filter_cons. simpl. rewrite Hu.
  by destruct xs as [|x xs].
Qed.

Lemma mapM_text_of (xs : list string) :
  mapM Heap.text_of (Heap.VStr <$> xs) = Some xs.
Proof.
  apply mapM_Some_2. induction xs; constructor; auto.
Qed.

Lemma mapM_entries (h : Heap.heap) (u : gmap string (list string))
    (ls : list (string * Heap.loc)) :
    (∀ k l, (k, l) ∈ ls →
     ∃ xs, h !! l = Some (Heap.OList (Heap.VStr <$> xs)) ∧ u !! k = Some xs) →
  mapM (λ kv : string * Heap.pyval, pair kv.1 <$> Heap.strings_at h kv.2)
    (prod_map id Heap.VRef <$> ls)
  = Some ((λ kl : string * Heap.loc, (kl.1, default [] (u !! kl.1))) <$> ls).
Proof.
  intros Hls. apply mapM_Some_2.
  induction ls as [|[k l] ls IH]; [constructor|].
  rewrite !fmap_cons. constructor; [|apply IH; intros; apply Hls; by right].
  destruct (Hls k l) as (xs & Hl & Hu); [left|].
  simpl. by rewrite Hl, mapM_text_of, Hu.
Qed.

Lemma usages_at_final hf h u l :
  Inv hf h u → h !! l = None →
  Heap.usages_at
    (<[l := Heap.ODict
              (prod_map id Heap.VRef
                 <$> filter (λ kl, u !! kl.1 ≠ Some ([] : list string)) lists)]>
       h)
    (Heap.VRef l)
  = Some (filter (λ kv, kv.2 ≠ []) u).
Proof.
  intros (Hsub & Hset & Hlu & Hdict & Hnd1 & Hnd2 & Hlists & Hdom) Hl.
  unfold Heap.usages_at. rewrite lookup_insert_eq.
  erewrite (mapM_entries _ u); first last.
  { intros k l' [Hne Hin]%list_elem_of_filter.
    destruct (Hlists k l' Hin) as (_ & _ & xs & Hxs & Hu).
    exists xs. split; [|done].
    rewrite lookup_insert_ne; [done|]. intros ->. by rewrite Hxs in Hl. }
  simpl. f_equal. apply map_eq. intros k. apply option_eq. intros xs.
  rewrite map_lookup_filter_Some. simpl.
  rewrite <- elem_of_list_to_map; first last.
  { rewrite <- list_fmap_compose. simpl.
    eapply NoDup_fmap_filter_fst, Hnd1. }
  rewrite list_elem_of_fmap. split.
  - intros ([k' l'] & [= -> ->] & [Hne Hin]%list_elem_of_filter).
    destruct (Hlists k' l' Hin) as (_ & _ & xs & _ & Hu).
    simpl in *. rewrite Hu in *. simpl. split; [done|]. by intros ->.
  - intros [Hu Hne].
    assert (k ∈ lists.*1) as ([k' l'] & -> & Hin)%list_elem_of_fmap
      by (apply Hdom; eauto).
    exists (k', l'). simpl in *. rewrite Hu. split; [done|].
    apply list_elem_of_filter. split; [|done].
    simpl. rewrite Hu. by intros [= ->].
Qed.
End simulation.
End HeapFacts.

(** ** Purity of the resolver *)

Section purity.
Context {prepr : PyRepr} {hrepr : Heap.HeapRepr}.
Hypothesis repr_agree :
  ∀ h j v, Heap.represents h j v → Heap.heap_repr h v = py_repr j.

(** The comprehension of line 29 makes one new empty list per filename. *)
Lemma new_lists_ok (ms : list string) (h : Heap.heap) :
  ∃ ls h',
    Heap.new_lists ms h = (Ok (prod_map id Heap.VRef <$> ls), h')
    ∧ ls.*1 = ms ∧ h ⊆ h' ∧ NoDup ls.*2
    ∧ ∀ k l, (k, l) ∈ ls → h !! l = None ∧ h' !! l = Some (Heap.OList []).
Proof.
  revert h. induction ms as [|fn ms IH]; intros h.
  - exists [], h. split_and!; try done; [constructor|].
    by intros k l ?%elem_of_nil.
  - destruct (HeapFacts.alloc_fresh h (Heap.OList [])) as (l & Heq & Hl).
    destruct (IH (<[l := Heap.OList []]> h))
      as (ls & h' & Hrun & Hkeys & Hsub & Hnd & Hls).
    assert (h ⊆ <[l := Heap.OList []]> h) as Hgrow by by apply insert_subseteq.
    exists ((fn, l) :: ls), h'. split_and!.
    + cbn [Heap.new_lists]. unfold Heap.bind at 1. rewrite Heq.
      unfold Heap.bind at 1. by rewrite Hrun.
    + rewrite fmap_cons. by f_equal.
    + by etrans.
    + rewrite fmap_cons. apply NoDup_cons. split; [|done].
      intros ([k l'] & ? & Hin)%list_elem_of_fmap. simpl in *. subst.
      destruct (Hls k l' Hin) as [Hnone _].
      by rewrite lookup_insert_eq in Hnone.
    + intros k l' [[= -> ->]|Hin]%elem_of_cons.
      * split; [done|]. eapply lookup_weaken; [|done].
        apply lookup_insert_eq.
      * destruct (Hls k l' Hin) as [Hnone Hsome]. split; [|done].
        by apply lookup_insert_None in Hnone as [? _].
Qed.

(** One call on the heap against the function on the documents: the heap
    only grows, and the outcome is the one of the functional model. *)
Lemma gather_run known vk jr jq jg jm jc jp vr vq vg vm vc vp h :
  Heap.represents_set h known vk →
  Heap.represents h jr vr → Heap.represents h jq vq →
  Heap.represents h jg vg → Heap.represents h jm vm →
  Heap.represents h jc vc → Heap.represents h jp vp →
  ∃ res h',
    Heap.gather_prompt_usages vk vr vq vg vm vc vp h = (res, h')
    ∧ h ⊆ h'
    ∧ match gather_prompt_usages known jr jq jg jm jc jp with
      | Ok usages => ∃ v, res = Ok v ∧ Heap.usages_at h' v = Some usages
      | Raise e => res = Raise e
      end.
Proof.
  intros Hset Hr Hq Hg Hm Hc Hp.
  pose proof Hset as (lk & ms & -> & Hlk & Hnd & Hms).
  destruct (new_lists_ok ms h) as (ls & h1 & Hnew & Hkeys & Hsub1 & Hnd2 & Hls).
  destruct (HeapFacts.alloc_fresh h1 (Heap.ODict (prod_map id Heap.VRef <$> ls)))
    as (lu & Halloc & Hlu).
  set (h2 := <[lu := Heap.ODict (prod_map id Heap.VRef <$> ls)]> h1).
  set (u0 := gset_to_gmap ([] : list string) known).
  assert (HeapInv.Inv known (Heap.VRef lk) lu ls h h2 u0) as Hinv.
  { split_and!; try done.
    - etrans; [done|]. by apply insert_subseteq.
    - destruct (h !! lu) eqn:E; [|done].
      by rewrite (lookup_weaken _ _ _ _ E Hsub1) in Hlu.
    - apply lookup_insert_eq.
    - by rewrite Hkeys.
    - intros k l Hin. destruct (Hls k l Hin) as [Hnone Hsome].
      assert (l ≠ lu) by (intros ->; by rewrite Hsome in Hlu).
      split_and!; try done. exists []. split.
      + unfold h2. by rewrite lookup_insert_ne.
      + apply lookup_gset_to_gmap_Some. split; [|done].
        rewrite <- Hms, elem_of_list_to_set, <- Hkeys.
        apply list_elem_of_fmap. by exists (k, l).
    - intros k [xs [Hk _]%lookup_gset_to_gmap_Some].
      rewrite Hkeys. rewrite <- Hms in Hk.
      by apply elem_of_list_to_set in Hk. }
  pose proof (HeapFacts.scan_all_related repr_agree known (Heap.VRef lk) lu ls
                h h2 u0 jr jq jg jm jc jp vr vq vg vm vc vp
                Hinv Hr Hq Hg Hm Hc Hp) as Hscan.
  unfold Heap.gather_prompt_usages, gather_prompt_usages.
  unfold Heap.bind at 1. unfold Heap.set_members, Heap.bind at 1, Heap.read.
  rewrite Hlk. unfold Heap.ret at 1.
  unfold Heap.bind at 1. rewrite Hnew.
  unfold Heap.bind at 1. rewrite Halloc. fold h2. fold u0.
  unfold Heap.bind at 1. unfold HeapInv.related in Hscan.
  destruct (scan_all known jr jq jg jm jc jp u0) as [[[] u']|e].
  - destruct Hscan as ([] & hf' & Hres & Hsub & Hinv' & _).
    destruct (Heap.scan_all _ _ _ _ _ _ _ _ h2) as [res h3].
    simpl in Hres, Hinv'. subst res.
    pose proof Hinv' as (Hsub3 & _ & _ & _ & _ & _ & Hlists & _).
    unfold Heap.bind at 1. rewrite (HeapFacts.items_usages _ _ _ _ _ _ _ Hinv').
    unfold Heap.bind at 1.
    rewrite (HeapFacts.keep_truthy_ok h3 u' ls); first last.
    { intros k l Hin. destruct (Hlists k l Hin) as (_ & _ & xs & ? & ?). eauto. }
    destruct (HeapFacts.alloc_fresh h3
                (Heap.ODict (prod_map id Heap.VRef
                   <$> filter (λ kl, u' !! kl.1 ≠ Some ([] : list string)) ls)))
      as (lf & Hfinal & Hlf).
    rewrite Hfinal. eexists _, _. split; [done|]. split.
    + etrans; [exact Hsub|]. etrans; [exact Hsub3|].
      apply insert_subseteq, not_elem_of_dom, is_fresh.
    + eexists. split; [done|]. eapply HeapFacts.usages_at_final; [done|].
      apply not_elem_of_dom, is_fresh.
  - destruct Hscan as [Hres Hsub].
    destruct (Heap.scan_all _ _ _ _ _ _ _ _ h2) as [res h3].
    simpl in Hres, Hsub. subst res. by eexists _, _.
Qed.

(** C8: on a heap where the arguments stand for a set of filenames and six
    documents, a call changes no object that existed before it, its outcome
    is the one the function on the documents gives, and a second call on the
    same arguments, made in the heap the first one leaves, has the same
    outcome: the same exception or a usage map with the same content. *)
Theorem gather_pure known vk jr jq jg jm jc jp vr vq vg vm vc vp h :
  Heap.represents_set h known vk →
  Heap.represents h jr vr → Heap.represents h jq vq →
  Heap.represents h jg vg → Heap.represents h jm vm →
  Heap.represents h jc vc → Heap.represents h jp vp →
  ∃ res1 h1 res2 h2,
    Heap.gather_prompt_usages vk vr vq vg vm vc vp h = (res1, h1)
    ∧ Heap.gather_prompt_usages vk vr vq vg vm vc vp h1 = (res2, h2)
    ∧ h ⊆ h1 ∧ h1 ⊆ h2
    ∧ match gather_prompt_usages known jr jq jg jm jc jp with
      | Ok usages =>
          ∃ v1 v2, res1 = Ok v1 ∧ res2 = Ok v2
            ∧ Heap.usages_at h1 v1 = Some usages
            ∧ Heap.usages_at h2 v2 = Some usages
      | Raise e => res1 = Raise e ∧ res2 = Raise e
      end.
Proof.
  intros Hset Hr Hq Hg Hm Hc Hp.
  destruct (gather_run known vk jr jq jg jm jc jp vr vq vg vm vc vp h)
    as (res1 & h1 & Hrun1 & Hsub1 & Hout1); try done.
  destruct (gather_run known vk jr jq jg jm jc jp vr vq vg vm vc vp h1)
    as (res2 & h2 & Hrun2 & Hsub2 & Hout2);
    eauto using HeapFacts.represents_mono, HeapFacts.represents_set_mono.
  exists res1, h1, res2, h2. split_and!; try done.
  destruct (gather_prompt_usages known jr jq jg jm jc jp) as [usages|e].
  - destruct Hout1 as (v1 & -> & Hv1). destruct Hout2 as (v2 & -> & Hv2).
    by exists v1, v2.
  - done.
Qed.
End purity.

(** The sample call returns a new dict holding the sample usage map, and
    leaves the nine objects of the sample heap as they were. *)
Example sample_heap_run :
  match SampleHeap.call SampleHeap.objects with
  | (Ok v, h') =>
      Heap.usages_at h' v = Some Sample.usages
      ∧ filter (λ lo, (lo.1 ≤ 9)%positive) h' = SampleHeap.objects
  | _ => False
  end.
Proof. vm_compute. split; reflexivity. Qed.

Lemma sample_repr_agree :
  ∀ h j v, Heap.represents h j v
    → @Heap.heap_repr SampleHeap.repr h v = @py_repr Sample.repr j.
Proof. done. Qed.

Lemma sample_represents :
  Heap.represents_set SampleHeap.objects Sample.known
    SampleHeap.prompt_filenames
  ∧ Heap.represents SampleHeap.objects Sample.receptionists
      SampleHeap.receptionists
  ∧ Heap.represents SampleHeap.objects Sample.queues SampleHeap.queues
  ∧ Heap.represents SampleHeap.objects Sample.empty SampleHeap.empty.
Proof.
  split_and!.
  - eexists _, _. split_and!; [reflexivity..| |].
    + apply (bool_decide_unpack _). by vm_compute.
    + by vm_compute.
  - repeat first [reflexivity | split | eexists _, _ | exact I | progress simpl].
  - repeat first [reflexivity | split | eexists _, _ | exact I | progress simpl].
  - repeat first [reflexivity | split | eexists _, _ | exact I | progress simpl].
Qed.

Lemma gather_pure_witness :
  ∃ res1 h1 res2 h2,
    SampleHeap.call SampleHeap.objects = (res1, h1)
    ∧ SampleHeap.call h1 = (res2, h2)
    ∧ SampleHeap.objects ⊆ h1 ∧ h1 ⊆ h2
    ∧ match @gather_prompt_usages Sample.repr Sample.known
              Sample.receptionists Sample.queues Sample.empty Sample.empty
              Sample.empty Sample.empty with
      | Ok usages =>
          ∃ v1 v2, res1 = Ok v1 ∧ res2 = Ok v2
            ∧ Heap.usages_at h1 v1 = Some usages
            ∧ Heap.usages_at h2 v2 = Some usages
      | Raise e => res1 = Raise e ∧ res2 = Raise e
      end.
Proof.
  destruct sample_represents as (Hset & Hr & Hq & He).
  exact (@gather_pure Sample.repr SampleHeap.repr sample_repr_agree
           Sample.known SampleHeap.prompt_filenames
           Sample.receptionists Sample.queues Sample.empty Sample.empty
           Sample.empty Sample.empty
           SampleHeap.receptionists SampleHeap.queues SampleHeap.empty
           SampleHeap.empty SampleHeap.empty SampleHeap.empty
           SampleHeap.objects Hset Hr Hq He He He He).
Defined.

(** * Further properties of the code *)

(** ** The known filenames *)





(** ** The order of the report *)

(** X2: [sorted(usages.keys())] (lines 98 and 104) lists every filename of
    the usage map once, in ascending order. *)
Theorem sorted_keys_spec (usages : gmap string (list string)) :
  StronglySorted String.le (sorted_keys usages)
  ∧ NoDup (sorted_keys usages)
  ∧ ∀ fn, fn ∈ sorted_keys usages ↔ is_Some (usages !! fn).
Proof.
  unfold sorted_keys. split_and!.
  - apply StronglySorted_merge_sort; apply _.
  - rewrite merge_sort_Permutation. apply NoDup_elements.
  - intros fn. rewrite merge_sort_Permutation, elem_of_elements.
    apply elem_of_dom.
Qed.

(** ** The known set only selects *)

Section known_sets.
Context {repr : PyRepr}.

Lemma outcome_bind_lift {A B} (r : result A) (k1 k2 : A → py B) :
  (∀ a, r = Ok a → same_outcome (k1 a) (k2 a)) →
  same_outcome (py_bind (lift r) k1) (py_bind (lift r) k2).
Proof.
  intros Hk u1 u2. unfold py_bind, lift. destruct r as [a|e]; [|done].
  by apply Hk.
Qed.

Lemma outcome_bind {A B} (m1 m2 : py A) (k1 k2 : A → py B) :
  same_outcome m1 m2 → (∀ a1 a2, same_outcome (k1 a1) (k2 a2)) →
  same_outcome (py_bind m1 k1) (py_bind m2 k2).
Proof.
  intros Hm Hk u1 u2. unfold py_bind. specialize (Hm u1 u2).
  destruct (m1 u1) as [[a1 u1']|e1], (m2 u2) as [[a2 u2']|e2];
    simpl in Hm; try done.
  apply Hk.
Qed.

Lemma outcome_for_each {A} (l : list A) (b1 b2 : A → py unit) :
  (∀ x, x ∈ l → same_outcome (b1 x) (b2 x)) →
  same_outcome (for_each l b1) (for_each l b2).
Proof.
  induction l as [|x l IH]; intros Hb; simpl; [done|].
  apply outcome_bind; [apply Hb; by left|].
  intros _ _. apply IH. intros y Hy. apply Hb. by right.
Qed.

(** Whether a guarded [add] fails depends on the value alone. *)
Lemma outcome_guarded_add known1 known2 v text1 text2 :
  same_outcome (c <- lift (and_in v known1) ;; when c (add v text1))
               (c <- lift (and_in v known2) ;; when c (add v text2)).
Proof.
  intros u1 u2. unfold py_bind, lift, and_in.
  destruct (truthy v) eqn:Hv; [|done].
  destruct v; simpl in *; try done.
  do 2 case_bool_decide; simpl; by rewrite ?add_str.
Qed.

Lemma outcome_check_add known1 known2 v prefix kvs :
  same_outcome (check_add known1 v prefix (JDict kvs))
               (check_add known2 v prefix (JDict kvs)).
Proof.
  intros u1 u2. unfold check_add, describe, py_bind, lift, and_in.
  destruct (truthy v) eqn:Hv; [|done].
  destruct v; simpl in *; try done.
  do 2 case_bool_decide; simpl; by rewrite ?add_str.
Qed.

Lemma outcome_scan_routes known1 known2 kind keys item :
  same_outcome (scan_routes known1 kind keys item)
               (scan_routes known2 kind keys item).
Proof.
  apply outcome_for_each. intros rkey _.
  apply outcome_bind_lift. intros route Hroute.
  apply outcome_bind_lift. intros prompt _.
  destruct item; try done. apply outcome_check_add.
Qed.

Lemma outcome_scan_receptionists known1 known2 r :
  same_outcome (scan_receptionists known1 r) (scan_receptionists known2 r).
Proof.
  apply outcome_bind_lift. intros value _.
  apply outcome_bind_lift. intros items _.
  apply outcome_for_each. intros item _.
  apply outcome_bind_lift. intros filename Hfn.
  destruct item; try done.
  apply outcome_bind; [apply outcome_check_add|]. intros _ _.
  apply outcome_bind_lift. intros forwards _.
  apply outcome_bind_lift. intros fwds _.
  apply outcome_for_each. intros fwd _.
  apply outcome_bind_lift. intros custom_data _.
  apply outcome_check_add.
Qed.

Lemma outcome_scan_queues known1 known2 q :
  same_outcome (scan_queues known1 q) (scan_queues known2 q).
Proof.
  apply outcome_bind_lift. intros value _.
  apply outcome_bind_lift. intros items _.
  apply outcome_for_each. intros item _.
  apply outcome_bind; [|intros _ _; apply outcome_scan_routes].
  apply outcome_for_each. intros key _.
  apply outcome_bind_lift. intros v Hv.
  destruct item; try done. apply outcome_check_add.
Qed.

Lemma outcome_scan_groups known1 known2 g :
  same_outcome (scan_groups known1 g) (scan_groups known2 g).
Proof.
  apply outcome_bind_lift. intros value _.
  apply outcome_bind_lift. intros items _.
  apply outcome_for_each. intros item _. apply outcome_scan_routes.
Qed.

Lemma outcome_scan_music_on_hold known1 known2 m :
  same_outcome (scan_music_on_hold known1 m) (scan_music_on_hold known2 m).
Proof.
  apply outcome_bind_lift. intros items _.
  apply outcome_for_each. intros [key value] _.
  apply outcome_guarded_add.
Qed.

Lemma outcome_scan_setting known1 known2 s text :
  same_outcome (scan_setting known1 s text) (scan_setting known2 s text).
Proof.
  apply outcome_bind_lift. intros moh _. apply outcome_guarded_add.
Qed.

Lemma outcome_scan_all known1 known2 r q g m c p :
  same_outcome (scan_all known1 r q g m c p) (scan_all known2 r q g m c p).
Proof.
  unfold scan_all.
  apply outcome_bind; [apply outcome_scan_receptionists|]. intros _ _.
  apply outcome_bind; [apply outcome_scan_queues|]. intros _ _.
  apply outcome_bind; [apply outcome_scan_groups|]. intros _ _.
  apply outcome_bind; [apply outcome_scan_music_on_hold|]. intros _ _.
  apply outcome_bind; [apply outcome_scan_setting|]. intros _ _.
  apply outcome_scan_setting.
Qed.

Lemma gather_outcome known1 known2 r q g m c p :
  outcome (gather_prompt_usages known1 r q g m c p)
  = outcome (gather_prompt_usages known2 r q g m c p).
Proof.
  unfold gather_prompt_usages.
  pose proof (outcome_scan_all known1 known2 r q g m c p
                (gset_to_gmap [] known1) (gset_to_gmap [] known2)) as H.
  destruct (scan_all known1 _ _ _ _ _ _ _) as [[[] ?]|?],
           (scan_all known2 _ _ _ _ _ _ _) as [[[] ?]|?]; done.
Qed.

(** X3: whether the resolver fails, and with which exception, does not
    depend on the set of known filenames. *)
Theorem gather_failure_independent known known' r q g m c p e :
  gather_prompt_usages known r q g m c p = Raise e →
  gather_prompt_usages known' r q g m c p = Raise e.
Proof.
  intros Hrun. pose proof (gather_outcome known known' r q g m c p) as H.
  rewrite Hrun in H. simpl in H.
  destruct (gather_prompt_usages known' r q g m c p); simpl in H; congruence.
Qed.

(** X4: with fewer known filenames the usage map is the restriction of the
    larger one: an entry is kept exactly when its filename is still known. *)
Theorem gather_known_subset known known' r q g m c p usages' :
  known ⊆ known' →
  gather_prompt_usages known' r q g m c p = Ok usages' →
  gather_prompt_usages known r q g m c p
  = Ok (filter (λ kv, kv.1 ∈ known) usages').
Proof.
  intros Hsub Hrun'.
  pose proof (gather_outcome known known' r q g m c p) as H.
  rewrite Hrun' in H.
  destruct (gather_prompt_usages known r q g m c p) as [usages|] eqn:Hrun;
    [clear H|done].
  f_equal. apply map_eq. intros fn.
  rewrite (gather_lookup _ _ _ _ _ _ _ _ fn Hrun).
  destruct (decide (fn ∈ known)) as [Hfn|Hfn].
  - rewrite map_lookup_filter, (gather_lookup _ _ _ _ _ _ _ _ fn Hrun').
    destruct (decide (_ ∧ _)) as [[_ Hne]|Hno].
    + rewrite decide_True by (split; [set_solver|done]). simpl.
      by rewrite option_guard_True.
    + rewrite decide_False; [done|]. intros [_ ?]. apply Hno. done.
  - rewrite decide_False by (by intros [? _]). symmetry.
    apply map_lookup_filter_None. right. intros l _. done.
Qed.
End known_sets.

Lemma gather_failure_independent_witness :
  @gather_prompt_usages Sample.repr ∅ Sample.null_forwards Sample.empty
    Sample.empty Sample.empty Sample.empty Sample.empty = Raise TypeError.
Proof.
  apply (@gather_failure_independent Sample.repr Sample.known ∅).
  vm_compute. reflexivity.
Defined.

Lemma gather_known_subset_witness :
  @gather_prompt_usages Sample.repr {[ "hold.wav" ]} Sample.receptionists
    Sample.queues Sample.empty Sample.empty Sample.empty Sample.empty
  = Ok (filter (λ kv, kv.1 ∈ ({[ "hold.wav" ]} : gset string)) Sample.usages).
Proof.
  apply (@gather_known_subset Sample.repr {[ "hold.wav" ]} Sample.known).
  - unfold Sample.known. set_solver.
  - vm_compute. reflexivity.
Defined.

(** ** Runs that leave the world alone *)

Lemma keeps_ret {A} (a : A) : keeps_world (io_ret a).
Proof. done. Qed.

Lemma keeps_lift {A} (r : result A) : keeps_world (io_lift r).
Proof. done. Qed.

Lemma keeps_get_world : keeps_world get_world.
Proof. done. Qed.

Lemma keeps_emit e : keeps_world (emit e).
Proof. done. Qed.

Lemma keeps_bind {A B} (m : io A) (k : A → io B) :
  keeps_world m → (∀ a, keeps_world (k a)) → keeps_world (io_bind m k).
Proof.
  intros Hm Hk w t. unfold io_bind. specialize (Hm w t).
  destruct (m (w, t)) as [[a|e] [w1 t1]]; simpl in *; subst; [apply Hk|done].
Qed.

Lemma keeps_for_each {A} (l : list A) (body : A → io unit) :
  (∀ x, keeps_world (body x)) → keeps_world (io_for_each l body).
Proof.
  intros Hbody. induction l as [|x l IH]; simpl.
  - apply keeps_ret.
  - apply keeps_bind; auto.
Qed.

Lemma keeps_map {A B} (l : list A) (f : A → io B) :
  (∀ x, keeps_world (f x)) → keeps_world (io_map l f).
Proof.
  intros Hf. induction l as [|x l IH]; simpl.
  - apply keeps_ret.
  - apply keeps_bind; [auto|]. intros y.
    apply keeps_bind; [auto|]. intros ys. apply keeps_ret.
Qed.

Lemma keeps_when (c : bool) body :
  keeps_world body → keeps_world (io_when c body).
Proof. destruct c; simpl; [done|]. intros _. apply keeps_ret. Qed.

Ltac keeps_step :=
  first
    [ apply keeps_ret | apply keeps_lift | apply keeps_get_world
    | apply keeps_emit
    | apply keeps_bind | apply keeps_for_each | apply keeps_map
    | apply keeps_when
    | match goal with
      | |- keeps_world (match ?x with _ => _ end) => destruct x
      end
    | progress intros
    | progress autounfold with io_defs
    | progress cbv zeta ].

Ltac keeps_all := repeat keeps_step.

(** What a run that keeps the world and appends events of one kind
    leaves behind. *)
Lemma quiet_run P {A} (m : io A) w t :
  keeps_world m → appends P m →
  ∃ evs, m (w, t) = ((m (w, t)).1, (w, t ++ evs)) ∧ Forall P evs.
Proof.
  intros Hk Ha. specialize (Hk w t). destruct (Ha w t) as (evs & Ht & HP).
  exists evs. split; [|done].
  destruct (m (w, t)) as [r [w' t']]. simpl in *. by subst.
Qed.

Lemma printed_app t1 t2 : printed (t1 ++ t2) = printed t1 ++ printed t2.
Proof. unfold printed. apply omap_app. Qed.

Lemma printed_quiet evs : Forall (λ e, is_print e = false) evs → printed evs = [].
Proof.
  induction 1 as [|e evs He _ IH]; [done|]. by destruct e.
Qed.

Lemma printed_prints lines : printed (Print <$> lines) = lines.
Proof. induction lines as [|l lines IH]; [done|]. simpl. by f_equal. Qed.

(** ** The printed report *)

Lemma for_each_print {A} (f : A → string) (l : list A) w t :
  io_for_each l (λ x, print (f x)) (w, t)
  = (Ok tt, (w, t ++ (Print <$> (f <$> l)))).
Proof.
  revert t. induction l as [|x l IH]; intros t; simpl.
  - by rewrite app_nil_r.
  - unfold io_bind, print, emit at 1. rewrite IH.
    by rewrite <- app_assoc.
Qed.

Section report.
Context {repr : PyRepr}.

(** The lines of the detail section. *)
Lemma for_each_detail (usages : gmap string (list string)) keys w t :
  io_for_each keys (λ filename,
    io_bind (print (newline +:+ filename +:+ ":")) (λ _,
      io_for_each (default [] (usages !! filename)) (λ entry,
        print ("  - " +:+ entry)))) (w, t)
  = (Ok tt,
     (w, t ++ (Print <$> (keys ≫= λ filename,
                 (newline +:+ filename +:+ ":")
                 :: ((λ entry, "  - " +:+ entry)
                       <$> default [] (usages !! filename)))))).
Proof.
  revert t. induction keys as [|k keys IH]; intros t.
  - simpl. by rewrite app_nil_r.
  - cbn [io_for_each]. unfold io_bind at 1.
    unfold io_bind at 1, print at 1, emit at 1.
    rewrite for_each_print, IH. rewrite bind_cons, fmap_app, fmap_cons.
    by rewrite <- !app_assoc.
Qed.

Lemma elements_dom_keys (usages : gmap string (list string)) :
  elements (dom usages) ≡ₚ (map_to_list usages).*1.
Proof.
  apply NoDup_Permutation.
  - apply NoDup_elements.
  - apply NoDup_fst_map_to_list.
  - intros k. rewrite elem_of_elements, elem_of_dom, list_elem_of_fmap.
    split.
    + intros [l Hl]. exists (k, l). split; [done|].
      by apply elem_of_map_to_list.
    + intros ([k' l] & -> & Hkl%elem_of_map_to_list). by exists l.
Qed.

Lemma sorted_keys_entries (usages : gmap string (list string)) :
  sum_list_with (λ fn, length (default [] (usages !! fn))) (sorted_keys usages)
  = entries usages.
Proof.
  unfold sorted_keys, entries.
  rewrite merge_sort_Permutation, elements_dom_keys.
  pose proof (λ k l, proj1 (elem_of_map_to_list usages k l)) as Hin.
  induction (map_to_list usages) as [|[k l] kvs IH]; [done|].
  simpl. rewrite (Hin k l) by left. simpl. f_equal.
  apply IH. intros k' l' Hkl. apply Hin. by right.
Qed.

Lemma sorted_keys_length (usages : gmap string (list string)) :
  length (sorted_keys usages) = size usages.
Proof.
  unfold sorted_keys. rewrite merge_sort_Permutation.
  rewrite <- size_dom. done.
Qed.

Lemma detail_length (usages : gmap string (list string)) keys :
  length (keys ≫= λ filename,
            (newline +:+ filename +:+ ":")
            :: ((λ entry, "  - " +:+ entry)
                  <$> default [] (usages !! filename)))
  = length keys
    + sum_list_with (λ fn, length (default [] (usages !! fn))) keys.
Proof.
  induction keys as [|k keys IH]; [done|].
  rewrite bind_cons, length_app, IH. simpl. rewrite length_fmap. lia.
Qed.

Lemma print_report_run (usages : gmap string (list string)) w t :
  print_report usages (w, t) = (Ok tt, (w, t ++ (Print <$> report_lines usages))).
Proof.
  unfold print_report, report_lines. case_bool_decide as Hempty; [done|].
  unfold io_bind at 1, print at 1, emit at 1.
  unfold io_bind at 1. rewrite for_each_detail.
  unfold io_bind at 1, print at 1, emit at 1.
  rewrite for_each_print. rewrite fmap_cons, fmap_app, fmap_cons.
  by rewrite <- !app_assoc.
Qed.

(** X5: [print_report] (lines 92-105) never fails, changes nothing and only
    prints: one line for an empty usage map, and otherwise two headings,
    two lines per filename and one line per usage entry. *)
Theorem print_report_lines (usages : gmap string (list string)) w t :
  ∃ lines,
    print_report usages (w, t) = (Ok tt, (w, t ++ (Print <$> lines)))
    ∧ length lines
      = if decide (usages = ∅) then 1
        else 2 + 2 * size usages + entries usages.
Proof.
  exists (report_lines usages). split; [apply print_report_run|].
  unfold report_lines. case_bool_decide as Hempty.
  - by rewrite decide_True.
  - rewrite decide_False by done.
    simpl. rewrite length_app. simpl. rewrite detail_length, length_fmap.
    rewrite sorted_keys_entries, sorted_keys_length. lia.
Qed.
End report.

(** ** The cached report *)

Lemma io_bind_Ok {A B} (m : io A) (k : A → io B) s b s' :
  io_bind m k s = (Ok b, s') → ∃ a s1, m s = (Ok a, s1) ∧ k a s1 = (Ok b, s').
Proof.
  unfold io_bind. destruct (m s) as [[a|e] s1]; [eauto|discriminate].
Qed.

Lemma io_lift_Ok {A} (r : result A) s a s' :
  io_lift r s = (Ok a, s') → r = Ok a ∧ s' = s.
Proof. unfold io_lift. by intros [= -> ->]. Qed.


Lemma fails_silently_lift {A} (r : result A) : fails_silently (io_lift r).
Proof. by intros w t e. Qed.

Lemma append_inj_l (s a b : string) : s +:+ a = s +:+ b → a = b.
Proof. apply (inj (String.app s)). Qed.

Section cached_report.
Context {repr : PyRepr}.


(** A run of [ld]: the world is left alone, and a file that does not
    parse is not loaded. *)
Lemma ld_Ok dir name w t d s' :
  ld dir name (w, t) = (Ok d, s') →
  s'.1 = w ∧ files w !! path_join dir name ≠ Some None.
Proof.
  unfold ld, load_json_file, path_exists, read_json, io_bind, emit, get_world,
    io_ret, io_lift.
  simpl. case_bool_decide as Hfound; simpl.
  - destruct (files w !! path_join dir name) as [[doc|]|]; simpl; try done.
    by intros [= <- <-].
  - intros [= <- <-]. split; [done|]. intros Hsome. apply Hfound. right.
    apply elem_of_dom. by eexists.
Qed.

(** A cache file that exists and parses is what [ld] gives. *)
Lemma ld_cached dir name w t doc :
  files w !! path_join dir name = Some (Some doc) →
  ld dir name (w, t)
  = (Ok (py_or doc (JDict [])),
     (w, t ++ [PathExists (path_join dir name); ReadFile (path_join dir name)])).
Proof.
  intros Hdoc.
  unfold ld, load_json_file, path_exists, read_json, io_bind, emit, get_world,
    io_ret, io_lift.
  simpl. rewrite bool_decide_eq_true_2.
  - simpl. rewrite Hdoc. simpl. by rewrite <- app_assoc.
  - right. apply elem_of_dom. by eexists.
Qed.

Lemma report_from_output_keeps dir : keeps_world (report_from_output dir).
Proof. keeps_all. Qed.

Lemma report_from_output_reads dir :
  appends (λ e, is_read e = true) (report_from_output dir).
Proof. appends_all. Qed.

(** X6: the cached report (lines 120-145, with [load_json_file], lines
    12-16) only looks: the file system is left as it was, and every step
    is a test for a path, the reading of a file or a printed line. *)
Theorem report_from_output_read_only dir w t :
  ∃ evs,
    report_from_output dir (w, t)
    = ((report_from_output dir (w, t)).1, (w, t ++ evs))
    ∧ Forall (λ e, is_read e = true) evs.
Proof.
  apply quiet_run;
    [apply report_from_output_keeps | apply report_from_output_reads].
Qed.


(** X8: each of the eight cache files has to parse when it exists, the
    playlists included, which the report does not use: a file that does
    not parse makes the cached report fail. *)
Theorem report_from_output_corrupt_file dir name w t :
  name ∈ cache_names →
  files w !! path_join dir name = Some None →
  ∃ e, (report_from_output dir (w, t)).1 = Raise e.
Proof.
  intros Hname Hcorrupt.
  destruct (report_from_output dir (w, t)) as [[[]|e] s'] eqn:Hrun;
    [exfalso|by eexists].
  unfold report_from_output in Hrun.
  apply io_bind_Ok in Hrun as (d1 & [w1 t1] & H1 & Hrun).
  apply ld_Ok in H1 as [? F1]. simpl in *. subst w1.
  apply io_bind_Ok in Hrun as (d2 & [w2 t2] & H2 & Hrun).
  apply ld_Ok in H2 as [? F2]. simpl in *. subst w2.
  apply io_bind_Ok in Hrun as (d3 & [w3 t3] & H3 & Hrun).
  apply ld_Ok in H3 as [? F3]. simpl in *. subst w3.
  apply io_bind_Ok in Hrun as (d4 & [w4 t4] & H4 & Hrun).
  apply ld_Ok in H4 as [? F4]. simpl in *. subst w4.
  apply io_bind_Ok in Hrun as (d5 & [w5 t5] & H5 & Hrun).
  apply ld_Ok in H5 as [? F5]. simpl in *. subst w5.
  apply io_bind_Ok in Hrun as (d6 & [w6 t6] & H6 & Hrun).
  apply ld_Ok in H6 as [? F6]. simpl in *. subst w6.
  apply io_bind_Ok in Hrun as (d7 & [w7 t7] & H7 & Hrun).
  apply ld_Ok in H7 as [? F7]. simpl in *. subst w7.
  apply io_bind_Ok in Hrun as (d8 & [w8 t8] & H8 & Hrun).
  apply ld_Ok in H8 as [? F8]. simpl in *. subst w8.
  unfold cache_names in Hname.
  repeat (apply elem_of_cons in Hname as [->|Hname]; [done|]).
  by apply elem_of_nil in Hname.
Qed.
End cached_report.

(** ** The requests of the client *)

Lemma quiet_inv P {A} (m : io A) w t r w1 t1 :
  keeps_world m → appends P m → m (w, t) = (r, (w1, t1)) →
  w1 = w ∧ ∃ evs, t1 = t ++ evs ∧ Forall P evs.
Proof.
  intros Hk Ha Hrun. specialize (Hk w t). destruct (Ha w t) as (evs & Ht & HP).
  rewrite Hrun in Hk, Ht. simpl in *. eauto.
Qed.

(** [d[key] = v] binds [key] and no other key. *)
Lemma assoc_set_key key v kvs : assoc key (api.set_key key v kvs) = Some v.
Proof.
  induction kvs as [|[k v'] kvs IH]; simpl.
  - by rewrite String.eqb_refl.
  - destruct (String.eqb_spec key k) as [->|Hk]; simpl.
    + by rewrite String.eqb_refl.
    + by rewrite (proj2 (String.eqb_neq key k)).
Qed.

Lemma assoc_set_key_ne key key' v kvs :
  key' ≠ key → assoc key' (api.set_key key v kvs) = assoc key' kvs.
Proof.
  intros Hne. induction kvs as [|[k v'] kvs IH]; simpl.
  - by rewrite (proj2 (String.eqb_neq key' key)).
  - destruct (String.eqb_spec key k) as [->|Hk]; simpl.
    + by rewrite (proj2 (String.eqb_neq key' k)).
    + by rewrite IH.
Qed.

Section requests.
Context {repr : PyRepr}.

Lemma get_json_run self path params w t :
  api.get_json self path params (w, t)
  = (match server w (api.fqdn self +:+ path) params with
     | Response true (Some document) => Ok document
     | Response true None => Raise JSONDecodeError
     | _ => Raise HTTPError
     end,
     (w, t ++ [HttpGet (api.fqdn self +:+ path) (api.token self) params])).
Proof.
  unfold api.get_json, api.request, api.loads, io_bind, emit, get_world,
    io_ret, io_lift.
  simpl. by destruct (server w _ params) as [|[] [document|]].
Qed.

Lemma with_files_Ok self item w t item' s' :
  api.with_files self item (w, t) = (Ok item', s') →
  ∃ kvs files,
    item = JDict kvs ∧ item' = JDict (api.set_key "Files" files kvs)
    ∧ (is_null (Spec.field "Id" item) = true → files = JList [])
    ∧ s' = (w, t ++ if is_null (Spec.field "Id" item) then []
                    else [files_request self (Spec.field "Id" item)]).
Proof.
  unfold api.with_files. intros Hrun.
  apply io_bind_Ok in Hrun as (item_id & s1 & Hid & Hrun).
  apply io_lift_Ok in Hid as [Hid ->].
  destruct item as [| | | | | |kvs]; try done. simpl in Hid.
  injection Hid as <-. exists kvs.
  change (default JNull (assoc "Id" kvs)) with (Spec.field "Id" (JDict kvs))
    in *.
  destruct (Spec.field "Id" (JDict kvs)) as [|b|z|f|s|l|d] eqn:Hfield;
    [ apply io_lift_Ok in Hrun as [[= <-] ->]; exists (JList []);
      by rewrite app_nil_r
    | apply io_bind_Ok in Hrun as (content & s1 & Hget & Hrun);
      rewrite get_json_run in Hget; injection Hget as Hget <-;
      apply io_bind_Ok in Hrun as (files & s2 & Hfiles & Hrun);
      apply io_lift_Ok in Hfiles as [_ ->];
      apply io_lift_Ok in Hrun as [[= <-] ->];
      by exists files .. ].
Qed.

Lemma io_map_with_files_Ok self items w t items' s' :
  io_map items (api.with_files self) (w, t) = (Ok items', s') →
  Forall2 (λ item item',
             ∃ kvs files,
               item = JDict kvs ∧ item' = JDict (api.set_key "Files" files kvs)
               ∧ (is_null (Spec.field "Id" item) = true → files = JList []))
    items items'
  ∧ s' = (w, t ++ (files_request self
                     <$> filter (λ v, is_null v = false)
                           (Spec.field "Id" <$> items))).
Proof.
  revert t items'. induction items as [|item items IH]; intros t items'; simpl.
  - intros [= <- <-]. split; [constructor|]. by rewrite app_nil_r.
  - intros Hrun.
    apply io_bind_Ok in Hrun as (item' & s1 & Hitem & Hrun).
    apply io_bind_Ok in Hrun as (rest & s2 & Hrest & Hrun).
    injection Hrun as <- <-.
    apply with_files_Ok in Hitem as (kvs & files & -> & -> & Hnull & ->).
    apply IH in Hrest as [Hall ->]. split.
    + constructor; [|done]. by exists kvs, files.
    + rewrite filter_cons.
      destruct (is_null (Spec.field "Id" (JDict kvs))) eqn:Hid.
      * rewrite decide_False by done. by rewrite app_nil_r.
      * rewrite decide_True by done. rewrite fmap_cons.
        by rewrite <- app_assoc.
Qed.

(** A successful run of [call_flow_apps], taken apart. *)
Lemma call_flow_apps_Ok self w t doc s' :
  api.call_flow_apps self (w, t) = (Ok doc, s') →
  ∃ content,
    server w (api.fqdn self +:+ "/xapi/v1/CallFlowApps")
      [("$select", "Id,Name,Number")] = Response true (Some content)
    ∧ Forall2 (λ item item',
                 ∃ kvs files,
                   item = JDict kvs
                   ∧ item' = JDict (api.set_key "Files" files kvs)
                   ∧ (is_null (Spec.field "Id" item) = true
                      → files = JList []))
        (Spec.entities content) (Spec.entities doc)
    ∧ (∀ key, key ≠ "value" → Spec.field key doc = Spec.field key content)
    ∧ s' = (w, t ++ HttpGet (api.fqdn self +:+ "/xapi/v1/CallFlowApps")
                      (api.token self) [("$select", "Id,Name,Number")]
                 :: (files_request self
                       <$> filter (λ v, is_null v = false)
                             (Spec.field "Id" <$> Spec.entities content))).
Proof.
  unfold api.call_flow_apps. intros Hrun.
  apply io_bind_Ok in Hrun as (content & s1 & Hget & Hrun).
  rewrite get_json_run in Hget. injection Hget as Hget <-.
  destruct (server w _ _) as [|[] [document|]] eqn:Hserver; try done.
  injection Hget as ->. exists content. split; [done|].
  apply io_bind_Ok in Hrun as (value & s1 & Hvalue & Hrun).
  apply io_lift_Ok in Hvalue as [Hvalue ->].
  destruct content as [| | | | | |ckvs]; try done. simpl in Hvalue.
  injection Hvalue as <-.
  apply io_bind_Ok in Hrun as (items & s1 & Hitems & Hrun).
  apply io_lift_Ok in Hitems as [Hitems ->].
  apply io_bind_Ok in Hrun as (items' & s1 & Hmap & Hrun).
  apply io_map_with_files_Ok in Hmap as [Hall ->].
  rewrite <- app_assoc in Hrun. simpl in Hrun.
  unfold Spec.entities.
  destruct (assoc "value" ckvs) as [value|] eqn:Hassoc; simpl in Hitems, Hrun.
  - destruct value as [| | | |s|l|d]; try done; simpl in Hitems, Hrun;
      injection Hitems as <-; injection Hrun as <- <-; simpl;
      rewrite ?assoc_set_key, ?Hassoc; simpl.
    + destruct s; [|inversion Hall as [|???? (? & ? & ? & _)]; done].
      split_and!; done.
    + split_and!; [done| |done].
      intros key Hkey. by rewrite assoc_set_key_ne.
    + destruct d; [|inversion Hall as [|???? (? & ? & ? & _)]; done].
      split_and!; done.
  - injection Hitems as <-. injection Hrun as <- <-.
    inversion Hall; subst. simpl. rewrite Hassoc. split_and!; done.
Qed.

(** X9: a successful [call_flow_apps] (lines 72-88) makes one request for
    the collection and then one request for the files of each app that has
    an Id, in the order of the collection, and nothing else. *)
Theorem call_flow_apps_requests self w t doc s' :
  api.call_flow_apps self (w, t) = (Ok doc, s') →
  ∃ content,
    server w (api.fqdn self +:+ "/xapi/v1/CallFlowApps")
      [("$select", "Id,Name,Number")] = Response true (Some content)
    ∧ s' = (w, t ++ HttpGet (api.fqdn self +:+ "/xapi/v1/CallFlowApps")
                      (api.token self) [("$select", "Id,Name,Number")]
                 :: (files_request self
                       <$> filter (λ v, is_null v = false)
                             (Spec.field "Id" <$> Spec.entities content))).
Proof.
  intros (content & Hserver & _ & _ & Hs)%call_flow_apps_Ok. eauto.
Qed.

(** X10: the document a successful [call_flow_apps] returns is the one the
    server sent with a Files field set on every app, to the empty list
    when the app has no Id, and with every other field as it was. *)
Theorem call_flow_apps_files self w t doc s' :
  api.call_flow_apps self (w, t) = (Ok doc, s') →
  ∃ content,
    server w (api.fqdn self +:+ "/xapi/v1/CallFlowApps")
      [("$select", "Id,Name,Number")] = Response true (Some content)
    ∧ (∀ key, key ≠ "value" → Spec.field key doc = Spec.field key content)
    ∧ Forall2 (λ item item',
                 ∃ kvs kvs',
                   item = JDict kvs ∧ item' = JDict kvs'
                   ∧ is_Some (assoc "Files" kvs')
                   ∧ (is_null (Spec.field "Id" item) = true
                      → assoc "Files" kvs' = Some (JList []))
                   ∧ ∀ key, key ≠ "Files" → assoc key kvs' = assoc key kvs)
        (Spec.entities content) (Spec.entities doc).
Proof.
  intros (content & Hserver & Hall & Hfields & _)%call_flow_apps_Ok.
  exists content. split_and!; [done..|].
  eapply Forall2_impl; [exact Hall|].
  intros item item' (kvs & files & -> & -> & Hnull).
  exists kvs, (api.set_key "Files" files kvs). split_and!; try done.
  - rewrite assoc_set_key. by eexists.
  - intros Hid. by rewrite assoc_set_key, Hnull.
  - intros key Hkey. by apply assoc_set_key_ne.
Qed.
End requests.

(** ** The live report *)



Lemma makedirs_Ok path w t a s' :
  makedirs path (w, t) = (Ok a, s') →
  (path ∉ dom (files w))
  ∧ s' = (World ({[path]} ∪ dirs w) (files w) (environ w) (server w),
          t ++ [MakeDirs path]).
Proof.
  unfold makedirs, io_bind, emit, get_world, io_lift, set_world. simpl.
  case_bool_decide; [done|]. by intros [= <- <-].
Qed.

Lemma write_json_Ok path document w t a s' :
  write_json path document (w, t) = (Ok a, s') →
  (path ∉ dirs w)
  ∧ s' = (World (dirs w) (<[path := Some document]> (files w)) (environ w)
            (server w),
          t ++ [WriteFile path document]).
Proof.
  unfold write_json, io_bind, emit, get_world, io_lift, set_world. simpl.
  case_bool_decide; [done|]. by intros [= <- <-].
Qed.

(** What the cache keeps of a document is the document. *)
Lemma py_or_no_value doc :
  py_or (py_or (py_or doc no_value) (JDict [])) no_value = py_or doc no_value.
Proof. unfold py_or. by destruct (truthy doc) eqn:Hdoc; simpl; rewrite ?Hdoc. Qed.

Lemma py_or_no_settings doc :
  py_or (py_or (py_or doc (JDict [])) (JDict [])) (JDict [])
  = py_or doc (JDict []).
Proof. unfold py_or. by destruct (truthy doc) eqn:Hdoc; simpl; rewrite ?Hdoc. Qed.

Section live_report.
Context {repr : PyRepr}.

Lemma call_flow_apps_keeps client : keeps_world (api.call_flow_apps client).
Proof. keeps_all. Qed.

Lemma call_flow_apps_appends client :
  appends (λ e, is_http e = true) (api.call_flow_apps client).
Proof. appends_all. Qed.

Lemma get_json_keeps client path params :
  keeps_world (api.get_json client path params).
Proof. keeps_all. Qed.

Lemma get_json_appends client path params :
  appends (λ e, is_http e = true) (api.get_json client path params).
Proof. appends_all. Qed.


Lemma print_call_flow_apps_Ok client w t s' :
  print_call_flow_apps client (w, t) = (Ok tt, s') →
  ∃ requests more,
    s' = (w, t ++ requests
               ++ Print (newline +:+ "Call Flow Apps Files:") :: more)
    ∧ Forall (λ e, is_http e = true) requests.
Proof.
  unfold print_call_flow_apps. intros Hrun.
  apply io_bind_Ok in Hrun as (fetched & [w1 t1] & Hfetch & Hrun).
  apply (quiet_inv (λ e, is_http e = true)) in Hfetch
    as (-> & requests & -> & Hreq);
    [|apply call_flow_apps_keeps|apply call_flow_apps_appends].
  cbv zeta in Hrun. unfold io_bind at 1, print at 1, emit at 1 in Hrun.
  match type of Hrun with ?m _ = _ => set (rest := m) in * end.
  assert (keeps_world rest) as Hkeep by (unfold rest; keeps_all).
  assert (appends (λ _, True) rest) as Happ by (unfold rest; appends_all).
  specialize (Hkeep w ((t ++ requests)
                       ++ [Print (newline +:+ "Call Flow Apps Files:")])).
  destruct (Happ w ((t ++ requests)
                    ++ [Print (newline +:+ "Call Flow Apps Files:")]))
    as (more & Hmore & _).
  rewrite Hrun in Hkeep, Hmore. destruct s' as [w' t']. simpl in *. subst.
  exists requests, more. split; [|done]. by rewrite <- !app_assoc.
Qed.
End live_report.

(** ** From the live report to the cached one *)

Lemma main_run_from {repr : PyRepr} (w : world) t :
  main (w, t)
  = if cache_present w
    then report_from_output "output" (w, t ++ probes_of w)
    else report_from_api (client_of w) (w, t ++ probes_of w).
Proof.
  unfold cache_present, probes_of, main, io_and, isdir, path_exists, getenv.
  unfold io_bind, emit, get_world, io_ret. simpl.
  change (path_join "output" "custom_prompts.json")
    with "output/custom_prompts.json".
  destruct (bool_decide ("output" ∈ dirs w)); simpl.
  - rewrite <- !app_assoc. simpl.
    destruct (bool_decide (_ ∨ _)); simpl; [done|].
    by rewrite main_token.
  - by rewrite main_token.
Qed.

(** Looks a cache file up in the world the live report leaves. *)
Ltac cache_lookup :=
  simpl; repeat (rewrite lookup_insert_ne by done); apply lookup_insert_eq.

Section round_trip.
Context {repr : PyRepr}.

(** X12: after a live report that succeeds, the cache is present, and the
    next run of [main] makes no request and prints, from the cache, the
    lines the live run printed before its call flow section. *)
Theorem live_then_cached client w t w' t' :
  report_from_api client (w, t) = (Ok tt, (w', t')) →
  cache_present w' = true
  ∧ ∃ report more tc,
      printed t' = printed t ++ report
                   ++ (newline +:+ "Call Flow Apps Files:") :: more
      ∧ main (w', []) = (Ok tt, (w', tc))
      ∧ printed tc = report
      ∧ Forall (λ e, is_http e = false) tc.
Proof.
  unfold report_from_api. intros Hrun.
  apply io_bind_Ok in Hrun as (prompts & [w1 t1] & H1 & Hrun).
  apply (quiet_inv (λ e, is_http e = true)) in H1 as (-> & r1 & -> & Hr1);
    [|apply get_json_keeps|apply get_json_appends].
  apply io_bind_Ok in Hrun as (receptionists & [w1 t1] & H1 & Hrun).
  apply (quiet_inv (λ e, is_http e = true)) in H1 as (-> & r2 & -> & Hr2);
    [|apply get_json_keeps|apply get_json_appends].
  apply io_bind_Ok in Hrun as (queues & [w1 t1] & H1 & Hrun).
  apply (quiet_inv (λ e, is_http e = true)) in H1 as (-> & r3 & -> & Hr3);
    [|apply get_json_keeps|apply get_json_appends].
  apply io_bind_Ok in Hrun as (groups & [w1 t1] & H1 & Hrun).
  apply (quiet_inv (λ e, is_http e = true)) in H1 as (-> & r4 & -> & Hr4);
    [|apply get_json_keeps|apply get_json_appends].
  apply io_bind_Ok in Hrun as (playlists & [w1 t1] & H1 & Hrun).
  apply (quiet_inv (λ e, is_http e = true)) in H1 as (-> & r5 & -> & Hr5);
    [|apply get_json_keeps|apply get_json_appends].
  apply io_bind_Ok in Hrun as (conference & [w1 t1] & H1 & Hrun).
  apply (quiet_inv (λ e, is_http e = true)) in H1 as (-> & r6 & -> & Hr6);
    [|apply get_json_keeps|apply get_json_appends].
  apply io_bind_Ok in Hrun as (music & [w1 t1] & H1 & Hrun).
  apply (quiet_inv (λ e, is_http e = true)) in H1 as (-> & r7 & -> & Hr7);
    [|apply get_json_keeps|apply get_json_appends].
  apply io_bind_Ok in Hrun as (parking & [w1 t1] & H1 & Hrun).
  apply (quiet_inv (λ e, is_http e = true)) in H1 as (-> & r8 & -> & Hr8);
    [|apply get_json_keeps|apply get_json_appends].
  apply io_bind_Ok in Hrun as (apps & [w1 t1] & H1 & Hrun).
  apply (quiet_inv (λ e, is_http e = true)) in H1 as (-> & r9 & -> & Hr9);
    [|apply call_flow_apps_keeps|apply call_flow_apps_appends].
  cbv zeta in Hrun.
  apply io_bind_Ok in Hrun as ([] & s1 & H1 & Hrun).
  apply makedirs_Ok in H1 as [Hdir ->].
  do 9 (apply io_bind_Ok in Hrun as ([] & s1 & H1 & Hrun);
        apply write_json_Ok in H1 as [_ ->];
        cbn [dirs files environ server] in Hrun).
  apply io_bind_Ok in Hrun as (names & s1 & Hnames & Hrun).
  apply io_lift_Ok in Hnames as [Hnames ->].
  apply io_bind_Ok in Hrun as (usages & s1 & Husages & Hrun).
  apply io_lift_Ok in Husages as [Husages ->].
  apply io_bind_Ok in Hrun as ([] & s1 & Hreport & Hrun).
  rewrite print_report_run in Hreport. injection Hreport as <-.
  apply print_call_flow_apps_Ok in Hrun as (r10 & more & [= -> ->] & Hr10).
  assert (∀ evs, Forall (λ e, is_http e = true) evs → printed evs = [])
    as Hsilent.
  { intros evs Hevs. apply printed_quiet. eapply Forall_impl; [done|].
    by intros []. }
  split.
  { unfold cache_present. simpl.
    rewrite !bool_decide_eq_true_2; [done| |set_solver].
    right. apply elem_of_dom. eexists. cache_lookup. }
  exists (report_lines usages), (printed more). eexists.
  split.
  { rewrite !printed_app, printed_prints.
    repeat match goal with
           | |- context [printed [?e]] => change (printed [e]) with (@nil string)
           end.
    rewrite (Hsilent r1), (Hsilent r2), (Hsilent r3), (Hsilent r4),
      (Hsilent r5), (Hsilent r6), (Hsilent r7), (Hsilent r8), (Hsilent r9),
      (Hsilent r10) by done.
    by rewrite !app_nil_r, <- app_assoc. }
  rewrite main_run.
  match goal with |- context [cache_present ?w0] => set (w' := w0) end.
  assert (cache_present w' = true) as ->.
  { unfold cache_present, w'. simpl.
    rewrite !bool_decide_eq_true_2; [done| |set_solver].
    right. apply elem_of_dom. eexists. cache_lookup. }
  unfold report_from_output.
  change (path_join "output" "custom_prompts.json")
    with "output/custom_prompts.json".
  unfold io_bind at 1.
  rewrite (ld_cached "output" "custom_prompts.json" w' _ (py_or prompts no_value))
    by (unfold w'; cache_lookup).
  unfold io_bind at 1.
  rewrite (ld_cached "output" "receptionists.json" w' _
             (py_or receptionists no_value)) by (unfold w'; cache_lookup).
  unfold io_bind at 1.
  rewrite (ld_cached "output" "queues.json" w' _ (py_or queues no_value))
    by (unfold w'; cache_lookup).
  unfold io_bind at 1.
  rewrite (ld_cached "output" "groups.json" w' _ (py_or groups no_value))
    by (unfold w'; cache_lookup).
  unfold io_bind at 1.
  rewrite (ld_cached "output" "playlists.json" w' _ (py_or playlists no_value))
    by (unfold w'; cache_lookup).
  unfold io_bind at 1.
  rewrite (ld_cached "output" "music_on_hold_settings.json" w' _
             (py_or music (JDict []))) by (unfold w'; cache_lookup).
  unfold io_bind at 1.
  rewrite (ld_cached "output" "conference_settings.json" w' _
             (py_or conference (JDict []))) by (unfold w'; cache_lookup).
  unfold io_bind at 1.
  rewrite (ld_cached "output" "call_parking_settings.json" w' _
             (py_or parking (JDict []))) by (unfold w'; cache_lookup).
  rewrite !py_or_no_value, !py_or_no_settings.
  unfold io_bind at 1, io_lift at 1. rewrite Hnames.
  unfold io_bind at 1, io_lift at 1. rewrite Husages.
  rewrite print_report_run. split_and!; [reflexivity| |].
  - rewrite !printed_app, printed_prints.
    rewrite (printed_quiet (probes_of _)).
    + done.
    + unfold probes_of. case_bool_decide; by repeat constructor.
  - rewrite !Forall_app. split_and!; try by repeat constructor.
    + unfold probes_of. case_bool_decide; by repeat constructor.
    + apply Forall_fmap, Forall_forall. done.
Qed.
End round_trip.

(** ** The client and the script *)

Lemma strip_slash_snoc s : api.strip_slash (s +:+ "/") = s.
Proof.
  induction s as [|c s IH]; [done|].
  change (api.strip_slash (String c (s +:+ "/")) = String c s).
  cbn [api.strip_slash]. rewrite IH.
  destruct s; done.
Qed.

Lemma strip_slash_plain s : endswith_slash s = false → api.strip_slash s = s.
Proof.
  induction s as [|c s IH]; [done|].
  cbn [endswith_slash api.strip_slash]. destruct s as [|c' s].
  - by intros ->.
  - intros Hs. by rewrite IH.
Qed.

Lemma endswith_slash_app s1 s2 :
  s2 ≠ "" → endswith_slash (s1 +:+ s2) = endswith_slash s2.
Proof.
  intros Hs2. induction s1 as [|c s1 IH]; [done|].
  change (endswith_slash (String c (s1 +:+ s2)) = endswith_slash s2).
  cbn [endswith_slash]. destruct (s1 +:+ s2) eqn:Happ; [|done].
  destruct s1; [done|discriminate].
Qed.

(** X13: the client drops one leading [Bearer ] from the token it is given
    (lines 15-17). *)
Theorem new_token_bearer t fqdn :
  api.token (api.new ("Bearer " +:+ t) fqdn) = t.
Proof. by destruct t. Qed.

(** X14: one trailing slash of the host is dropped from the base URL (lines
    21-23). *)
Theorem new_fqdn_slash t host :
  api.fqdn (api.new t (Some (host +:+ "/"))) = "https://" +:+ host.
Proof.
  change (api.strip_slash (("https://" +:+ host) +:+ "/") = "https://" +:+ host).
  apply strip_slash_snoc.
Qed.

(** X15: a host that is not empty and does not end with a slash is taken as
    it is; the empty host is what the condition excludes, for then the
    slash that goes is one of the scheme. *)
Theorem new_fqdn_plain t host :
  host ≠ "" → endswith_slash host = false →
  api.fqdn (api.new t (Some host)) = "https://" +:+ host.
Proof.
  intros Hhost Hslash. unfold api.new. cbn [api.fqdn from_option id].
  apply strip_slash_plain. by rewrite endswith_slash_app.
Qed.

Lemma new_fqdn_plain_witness :
  api.fqdn (api.new "abc" (Some "pbx.example.com"))
  = "https://" +:+ "pbx.example.com".
Proof. apply new_fqdn_plain; [discriminate|reflexivity]. Defined.

Section script.
Context {repr : PyRepr}.

(** X16: a run without a cache and without FQDN in the environment
    addresses its first request to the host [None] (lines 201-207 with
    line 21 of api.py). *)
Theorem main_unset_fqdn w :
  cache_present w = false → environ w !! "FQDN" = None →
  ∃ rest,
    events_of main w
    = probes_of w
      ++ HttpGet "https://None/xapi/v1/CustomPrompts"
           (api.token (client_of w)) [("$select", "DisplayName")] :: rest.
Proof.
  intros Hcache Hfqdn. unfold events_of. rewrite main_run, Hcache.
  destruct (report_from_api_starts (client_of w) w (probes_of w))
    as (rest & Hrest).
  exists rest. rewrite Hrest. unfold client_of. by rewrite Hfqdn.
Qed.

Lemma rmtree_clears w t :
  ∃ w', rmtree "output" (w, t) = (Ok tt, (w', t))
        ∧ ("output" ∉ dirs w')
        ∧ environ w' = environ w ∧ server w' = server w
        ∧ ∀ path, below "output" path = false →
                  files w' !! path = files w !! path.
Proof.
  eexists. split; [reflexivity|]. simpl. split_and!; try done.
  - by intros [[? _] _]%elem_of_filter.
  - intros path Hpath. rewrite map_lookup_filter.
    destruct (files w !! path) as [d|]; [|done]. simpl.
    by rewrite option_guard_True.
Qed.

(** X17: with [--clear] (lines 215-217) the run is a live one whatever the
    cache held: after the two tests for the directory the first event is
    the request for the prompts. *)
Theorem script_clear_goes_live w :
  ∃ rest,
    events_of (script true) w
    = IsDir "output" :: IsDir "output"
      :: HttpGet (api.fqdn (client_of w) +:+ "/xapi/v1/CustomPrompts")
           (api.token (client_of w)) [("$select", "DisplayName")] :: rest.
Proof.
  unfold events_of, script, io_when, io_bind at 1.
  unfold io_bind at 1, isdir, io_bind at 1 2, emit, get_world, io_ret.
  simpl.
  assert (∀ w', "output" ∉ dirs w' → environ w' = environ w →
           ∃ rest,
             (main (w', [IsDir "output"])).2.2
             = IsDir "output" :: IsDir "output"
               :: HttpGet (api.fqdn (client_of w) +:+ "/xapi/v1/CustomPrompts")
                    (api.token (client_of w)) [("$select", "DisplayName")]
                  :: rest) as Hlive.
  { intros w' Hdir Henv. rewrite main_run_from.
    unfold cache_present, probes_of. rewrite bool_decide_eq_false_2 by done.
    simpl.
    destruct (report_from_api_starts (client_of w') w'
                [IsDir "output"; IsDir "output"]) as (rest & Hrest).
    exists rest. rewrite Hrest. unfold client_of. by rewrite Henv. }
  case_bool_decide as Hdir.
  - destruct (rmtree_clears w [IsDir "output"]) as (w' & -> & Hgone & Henv & _).
    by apply Hlive.
  - simpl. by apply Hlive.
Qed.

Lemma keeps_outside_keeps dir {A} (m : io A) :
  keeps_world m → keeps_outside dir m.
Proof. intros Hm w t path _. by rewrite Hm. Qed.

Lemma keeps_outside_bind dir {A B} (m : io A) (k : A → io B) :
  keeps_outside dir m → (∀ a, keeps_outside dir (k a)) →
  keeps_outside dir (io_bind m k).
Proof.
  intros Hm Hk w t path Hpath. unfold io_bind.
  destruct (Hm w t path Hpath) as [Hfiles Hdirs].
  destruct (m (w, t)) as [[a|e] [w1 t1]]; simpl in *; [|done].
  destruct (Hk a w1 t1 path Hpath) as [Hfiles' Hdirs'].
  split; [congruence|]. intros Hne. by rewrite Hdirs', Hdirs.
Qed.

Lemma keeps_outside_makedirs dir : keeps_outside dir (makedirs dir).
Proof.
  intros w t path Hpath.
  unfold makedirs, io_bind, emit, get_world, io_lift, set_world. simpl.
  destruct (bool_decide _); simpl; [done|]. split; [done|].
  intros Hne. rewrite elem_of_union, elem_of_singleton. tauto.
Qed.

Lemma keeps_outside_write_json dir path document :
  below dir path = true → keeps_outside dir (write_json path document).
Proof.
  intros Hbelow w t path' Hpath'.
  unfold write_json, io_bind, emit, get_world, io_lift, set_world. simpl.
  destruct (bool_decide _); simpl; [done|]. split; [|done].
  apply lookup_insert_ne. congruence.
Qed.

Lemma keeps_outside_rmtree dir : keeps_outside dir (rmtree dir).
Proof.
  intros w t path Hpath. simpl. split.
  - rewrite map_lookup_filter.
    destruct (files w !! path) as [d|]; [|done]. simpl.
    by rewrite option_guard_True.
  - intros Hne. rewrite elem_of_filter. tauto.
Qed.

Lemma report_from_api_keeps_outside client :
  keeps_outside "output" (report_from_api client).
Proof.
  unfold report_from_api.
  do 8 (apply keeps_outside_bind;
        [apply keeps_outside_keeps, get_json_keeps|]; intros ?).
  apply keeps_outside_bind;
    [apply keeps_outside_keeps, call_flow_apps_keeps|]. intros ?.
  cbv zeta.
  apply keeps_outside_bind; [apply keeps_outside_makedirs|]. intros _.
  do 9 (apply keeps_outside_bind;
        [by apply keeps_outside_write_json|]; intros _).
  apply keeps_outside_keeps. keeps_all.
Qed.

Lemma main_keeps_outside : keeps_outside "output" main.
Proof.
  unfold main. cbv zeta.
  apply keeps_outside_bind;
    [apply keeps_outside_keeps; unfold io_and; keeps_all|].
  intros []; [apply keeps_outside_keeps, report_from_output_keeps|].
  apply keeps_outside_bind; [apply keeps_outside_keeps; keeps_all|].
  intros fqdn.
  apply keeps_outside_bind; [apply keeps_outside_keeps; keeps_all|].
  intros token. apply report_from_api_keeps_outside.
Qed.

(** X18: with or without [--clear], a run of the script (lines 210-219)
    touches the cache only: a file that is not below the cache directory
    is afterwards what it was, and so is every directory other than the
    cache directory itself. *)
Theorem script_keeps_outside clear w path :
  below "output" path = false →
  files (script clear (w, [])).2.1 !! path = files w !! path
  ∧ (path ≠ "output" → path ∈ dirs (script clear (w, [])).2.1 ↔ path ∈ dirs w).
Proof.
  revert w path.
  assert (keeps_outside "output" (script clear)) as Hscript;
    [|intros w path Hpath; by apply Hscript].
  unfold script. apply keeps_outside_bind; [|intros _; apply main_keeps_outside].
  destruct clear; simpl; [|by apply keeps_outside_keeps].
  apply keeps_outside_bind; [apply keeps_outside_keeps; keeps_all|].
  intros []; simpl; [apply keeps_outside_rmtree|by apply keeps_outside_keeps].
Qed.
End script.

(** ** The returned map is made of new objects *)

Section new_objects.
Context {prepr : PyRepr} {hrepr : Heap.HeapRepr}.
Hypothesis repr_agree :
  ∀ h j v, Heap.represents h j v → Heap.heap_repr h v = py_repr j.

(** X19: the dict a call returns, and every usage list in it, is an object
    the call has made: none of them existed in the heap the call started
    from, so the result shares nothing with the arguments. *)
Theorem gather_returns_new known vk jr jq jg jm jc jp vr vq vg vm vc vp h v h' :
  Heap.represents_set h known vk →
  Heap.represents h jr vr → Heap.represents h jq vq →
  Heap.represents h jg vg → Heap.represents h jm vm →
  Heap.represents h jc vc → Heap.represents h jp vp →
  Heap.gather_prompt_usages vk vr vq vg vm vc vp h = (Ok v, h') →
  ∃ l kvs,
    v = Heap.VRef l ∧ h !! l = None ∧ h' !! l = Some (Heap.ODict kvs)
    ∧ ∀ k x, (k, x) ∈ kvs → ∃ l', x = Heap.VRef l' ∧ h !! l' = None.
Proof.
  intros Hset Hr Hq Hg Hm Hc Hp.
  pose proof Hset as (lk & ms & -> & Hlk & Hnd & Hms).
  destruct (new_lists_ok ms h) as (ls & h1 & Hnew & Hkeys & Hsub1 & Hnd2 & Hls).
  destruct (HeapFacts.alloc_fresh h1 (Heap.ODict (prod_map id Heap.VRef <$> ls)))
    as (lu & Halloc & Hlu).
  set (h2 := <[lu := Heap.ODict (prod_map id Heap.VRef <$> ls)]> h1).
  set (u0 := gset_to_gmap ([] : list string) known).
  assert (HeapInv.Inv known (Heap.VRef lk) lu ls h h2 u0) as Hinv.
  { split_and!; try done.
    - etrans; [done|]. by apply insert_subseteq.
    - destruct (h !! lu) eqn:E; [|done].
      by rewrite (lookup_weaken _ _ _ _ E Hsub1) in Hlu.
    - apply lookup_insert_eq.
    - by rewrite Hkeys.
    - intros k l Hin. destruct (Hls k l Hin) as [Hnone Hsome].
      assert (l ≠ lu) by (intros ->; by rewrite Hsome in Hlu).
      split_and!; try done. exists []. split.
      + unfold h2. by rewrite lookup_insert_ne.
      + apply lookup_gset_to_gmap_Some. split; [|done].
        rewrite <- Hms, elem_of_list_to_set, <- Hkeys.
        apply list_elem_of_fmap. by exists (k, l).
    - intros k [xs [Hk _]%lookup_gset_to_gmap_Some].
      rewrite Hkeys. rewrite <- Hms in Hk.
      by apply elem_of_list_to_set in Hk. }
  pose proof (HeapFacts.scan_all_related repr_agree known (Heap.VRef lk) lu ls
                h h2 u0 jr jq jg jm jc jp vr vq vg vm vc vp
                Hinv Hr Hq Hg Hm Hc Hp) as Hscan.
  unfold Heap.gather_prompt_usages.
  unfold Heap.bind at 1. unfold Heap.set_members, Heap.bind at 1, Heap.read.
  rewrite Hlk. unfold Heap.ret at 1.
  unfold Heap.bind at 1. rewrite Hnew.
  unfold Heap.bind at 1. rewrite Halloc. fold h2. fold u0.
  unfold Heap.bind at 1. unfold HeapInv.related in Hscan.
  destruct (scan_all known jr jq jg jm jc jp u0) as [[[] u']|e].
  - destruct Hscan as ([] & hf' & Hres & Hsub & Hinv' & _).
    destruct (Heap.scan_all _ _ _ _ _ _ _ _ h2) as [res h3].
    simpl in Hres, Hinv'. subst res.
    pose proof Hinv' as (Hsub3 & _ & _ & _ & _ & _ & Hlists & _).
    unfold Heap.bind at 1. rewrite (HeapFacts.items_usages _ _ _ _ _ _ _ Hinv').
    unfold Heap.bind at 1.
    rewrite (HeapFacts.keep_truthy_ok h3 u' ls); first last.
    { intros k l Hin. destruct (Hlists k l Hin) as (_ & _ & xs & ? & ?). eauto. }
    destruct (HeapFacts.alloc_fresh h3
                (Heap.ODict (prod_map id Heap.VRef
                   <$> filter (λ kl, u' !! kl.1 ≠ Some ([] : list string)) ls)))
      as (lf & Hfinal & Hlf).
    rewrite Hfinal. intros [= <- <-]. eexists _, _. split_and!.
    + done.
    + destruct (h !! lf) eqn:E; [|done].
      assert (h ⊆ h3) as Hsub0 by (etrans; [exact Hsub|exact Hsub3]).
      by rewrite (lookup_weaken _ _ _ _ E Hsub0) in Hlf.
    + apply lookup_insert_eq.
    + intros k x ([k' l] & [= -> ->] & [_ Hin]%list_elem_of_filter)%list_elem_of_fmap.
      exists l. split; [done|]. by destruct (Hls _ _ Hin).
  - destruct Hscan as [Hres Hsub].
    destruct (Heap.scan_all _ _ _ _ _ _ _ _ h2) as [res h3].
    simpl in Hres, Hsub. subst res. done.
Qed.
End new_objects.

(** ** The call flow section *)

Lemma prints_fmap evs :
  Forall (λ e, is_print e = true) evs → evs = Print <$> printed evs.
Proof.
  induction 1 as [|e evs He _ IH]; [done|].
  destruct e; try done. simpl. by f_equal.
Qed.

Section call_flow_section.
Context {repr : PyRepr}.

(** X20: a successful [print_call_flow_apps] (lines 108-117) fetches the
    call flow apps twice: the same requests are made before the section is
    printed and once more after it, and in between the run only prints. *)
Theorem print_call_flow_apps_fetches_twice client w t s' :
  print_call_flow_apps client (w, t) = (Ok tt, s') →
  ∃ content lines,
    server w (api.fqdn client +:+ "/xapi/v1/CallFlowApps")
      [("$select", "Id,Name,Number")] = Response true (Some content)
    ∧ s' = (w, t ++ (HttpGet (api.fqdn client +:+ "/xapi/v1/CallFlowApps")
                       (api.token client) [("$select", "Id,Name,Number")]
                     :: (files_request client
                           <$> filter (λ v, is_null v = false)
                                 (Spec.field "Id" <$> Spec.entities content)))
                 ++ Print (newline +:+ "Call Flow Apps Files:")
                    :: (Print <$> lines)
                 ++ HttpGet (api.fqdn client +:+ "/xapi/v1/CallFlowApps")
                      (api.token client) [("$select", "Id,Name,Number")]
                    :: (files_request client
                          <$> filter (λ v, is_null v = false)
                                (Spec.field "Id" <$> Spec.entities content))).
Proof.
  unfold print_call_flow_apps. intros Hrun.
  apply io_bind_Ok in Hrun as (fetched & s1 & Hfetch & Hrun).
  apply call_flow_apps_Ok in Hfetch as (content & Hserver & _ & _ & ->).
  cbv zeta in Hrun. unfold io_bind at 1, print at 1, emit at 1 in Hrun.
  apply io_bind_Ok in Hrun as (value & s1 & Hvalue & Hrun).
  apply io_lift_Ok in Hvalue as [_ ->].
  apply io_bind_Ok in Hrun as (items & s1 & Hitems & Hrun).
  apply io_lift_Ok in Hitems as [_ ->].
  apply io_bind_Ok in Hrun as ([] & [w1 t1] & Hloop & Hrun).
  apply (quiet_inv (λ e, is_print e = true)) in Hloop
    as (-> & prints & -> & Hprints); [|keeps_all|appends_all].
  apply io_bind_Ok in Hrun as (again & s1 & Hfetch & Hrun).
  apply call_flow_apps_Ok in Hfetch as (content' & Hserver' & _ & _ & ->).
  injection Hrun as <-.
  rewrite Hserver in Hserver'. injection Hserver' as <-.
  exists content, (printed prints). split; [done|].
  rewrite <- (prints_fmap prints) by done.
  by rewrite <- !app_assoc.
Qed.
End call_flow_section.

(** ** The theorems at the sample server *)

Lemma sample_live_report : SampleRun.live_report.1 = Ok tt.
Proof. vm_compute. reflexivity. Qed.

Lemma sample_call_flow_apps :
  @api.call_flow_apps Sample.repr SampleServer.client (SampleServer.live, [])
  = (Ok SampleRun.call_flow_apps,
     (SampleServer.live,
      [HttpGet "https://pbx.example.com/xapi/v1/CallFlowApps" "abc"
         [("$select", "Id,Name,Number")];
       HttpGet "https://pbx.example.com/xapi/v1/CallFlowApps(7)/Pbx.GetFiles()"
         "abc" []])).
Proof. vm_compute. reflexivity. Qed.


Lemma report_from_output_corrupt_file_witness :
  ∃ e, (@report_from_output Sample.repr "output" (SampleServer.corrupt, [])).1
       = Raise e.
Proof.
  apply (@report_from_output_corrupt_file Sample.repr "output" "playlists.json").
  - unfold cache_names. repeat constructor.
  - vm_compute. reflexivity.
Defined.

Lemma call_flow_apps_requests_witness :
  ∃ content,
    server SampleServer.live
      (api.fqdn SampleServer.client +:+ "/xapi/v1/CallFlowApps")
      [("$select", "Id,Name,Number")] = Response true (Some content)
    ∧ (@api.call_flow_apps Sample.repr SampleServer.client
         (SampleServer.live, [])).2
      = (SampleServer.live,
         [] ++ HttpGet (api.fqdn SampleServer.client +:+ "/xapi/v1/CallFlowApps")
                 (api.token SampleServer.client)
                 [("$select", "Id,Name,Number")]
               :: (@files_request Sample.repr SampleServer.client
                     <$> filter (λ v, is_null v = false)
                           (Spec.field "Id" <$> Spec.entities content))).
Proof.
  apply (@call_flow_apps_requests Sample.repr SampleServer.client
           SampleServer.live [] SampleRun.call_flow_apps).
  vm_compute. reflexivity.
Defined.

Lemma call_flow_apps_files_witness :
  ∃ content,
    server SampleServer.live
      (api.fqdn SampleServer.client +:+ "/xapi/v1/CallFlowApps")
      [("$select", "Id,Name,Number")] = Response true (Some content)
    ∧ (∀ key, key ≠ "value" →
         Spec.field key SampleRun.call_flow_apps = Spec.field key content)
    ∧ Forall2 (λ item item',
                 ∃ kvs kvs',
                   item = JDict kvs ∧ item' = JDict kvs'
                   ∧ is_Some (assoc "Files" kvs')
                   ∧ (is_null (Spec.field "Id" item) = true
                      → assoc "Files" kvs' = Some (JList []))
                   ∧ ∀ key, key ≠ "Files" → assoc key kvs' = assoc key kvs)
        (Spec.entities content) (Spec.entities SampleRun.call_flow_apps).
Proof.
  apply (@call_flow_apps_files Sample.repr SampleServer.client
           SampleServer.live [] SampleRun.call_flow_apps
           (@api.call_flow_apps Sample.repr SampleServer.client
              (SampleServer.live, [])).2).
  vm_compute. reflexivity.
Defined.

Lemma print_call_flow_apps_fetches_twice_witness :
  ∃ content lines,
    server SampleServer.live
      (api.fqdn SampleServer.client +:+ "/xapi/v1/CallFlowApps")
      [("$select", "Id,Name,Number")] = Response true (Some content)
    ∧ (@print_call_flow_apps Sample.repr SampleServer.client
         (SampleServer.live, [])).2
      = (SampleServer.live,
         [] ++ (HttpGet (api.fqdn SampleServer.client +:+ "/xapi/v1/CallFlowApps")
                  (api.token SampleServer.client)
                  [("$select", "Id,Name,Number")]
                :: (@files_request Sample.repr SampleServer.client
                      <$> filter (λ v, is_null v = false)
                            (Spec.field "Id" <$> Spec.entities content)))
            ++ Print (newline +:+ "Call Flow Apps Files:")
               :: (Print <$> lines)
            ++ HttpGet (api.fqdn SampleServer.client +:+ "/xapi/v1/CallFlowApps")
                 (api.token SampleServer.client)
                 [("$select", "Id,Name,Number")]
               :: (@files_request Sample.repr SampleServer.client
                     <$> filter (λ v, is_null v = false)
                           (Spec.field "Id" <$> Spec.entities content))).
Proof.
  apply (@print_call_flow_apps_fetches_twice Sample.repr SampleServer.client
           SampleServer.live []).
  vm_compute. reflexivity.
Defined.

Lemma live_then_cached_witness :
  cache_present SampleRun.live_report.2.1 = true
  ∧ ∃ report more tc,
      printed SampleRun.live_report.2.2
      = printed [] ++ report
        ++ (newline +:+ "Call Flow Apps Files:") :: more
      ∧ @main Sample.repr (SampleRun.live_report.2.1, [])
        = (Ok tt, (SampleRun.live_report.2.1, tc))
      ∧ printed tc = report
      ∧ Forall (λ e, is_http e = false) tc.
Proof.
  apply (@live_then_cached Sample.repr SampleServer.client SampleServer.live []).
  vm_compute. reflexivity.
Defined.

Lemma main_unset_fqdn_witness :
  ∃ rest,
    events_of (@main Sample.repr) SampleServer.nameless
    = probes_of SampleServer.nameless
      ++ HttpGet "https://None/xapi/v1/CustomPrompts"
           (api.token (client_of SampleServer.nameless))
           [("$select", "DisplayName")] :: rest.
Proof.
  apply (@main_unset_fqdn Sample.repr SampleServer.nameless).
  - vm_compute. reflexivity.
  - vm_compute. reflexivity.
Defined.

Lemma script_keeps_outside_witness :
  files (@script Sample.repr true (SampleServer.live, [])).2.1 !! "notes.txt"
  = files SampleServer.live !! "notes.txt"
  ∧ ("notes.txt" ≠ "output" →
     "notes.txt" ∈ dirs (@script Sample.repr true (SampleServer.live, [])).2.1
     ↔ "notes.txt" ∈ dirs SampleServer.live).
Proof.
  apply (@script_keeps_outside Sample.repr true SampleServer.live "notes.txt").
  reflexivity.
Defined.

Lemma gather_returns_new_witness :
  ∃ l kvs,
    (SampleHeap.call SampleHeap.objects).1 = Ok (Heap.VRef l)
    ∧ SampleHeap.objects !! l = None
    ∧ (SampleHeap.call SampleHeap.objects).2 !! l = Some (Heap.ODict kvs)
    ∧ ∀ k x, (k, x) ∈ kvs →
             ∃ l', x = Heap.VRef l' ∧ SampleHeap.objects !! l' = None.
Proof.
  destruct sample_represents as (Hset & Hr & Hq & He).
  destruct (SampleHeap.call SampleHeap.objects) as [[v|e] h'] eqn:Hcall.
  - destruct (@gather_returns_new Sample.repr SampleHeap.repr
                sample_repr_agree Sample.known SampleHeap.prompt_filenames
                Sample.receptionists Sample.queues Sample.empty Sample.empty
                Sample.empty Sample.empty
                SampleHeap.receptionists SampleHeap.queues SampleHeap.empty
                SampleHeap.empty SampleHeap.empty SampleHeap.empty
                SampleHeap.objects v h' Hset Hr Hq He He He He Hcall)
      as (l & kvs & -> & Hnew & Hdict & Hlists).
    exists l, kvs. split_and!; [reflexivity|exact Hnew|exact Hdict|exact Hlists].
  - vm_compute in Hcall. discriminate Hcall.
Defined.
